(** * Event-driven trading pipeline: a shallow embedding of its core

    The development follows the Python sources component by component:

    - [Py]        exceptions and the result monad used for code that may raise;
    - [Heapq]     the binary heap of Python's [heapq] module, as the Stream
                  Router uses it ([heappush], [heappop]);
    - [Router]    [src/core/stream_router.py];
    - [Aggregator] [src/utils/candlestick_aggregator.py];
    - [EventBus]  [src/core/event_bus.py];
    - [Blender]   [src/strategy/multi_strategy_manager.py];
    - [Ledger]    [src/portfolio/portfolio_handler.py];
    - [Execution] [src/execution/order_execution_handler.py];
    - [Pipeline]  the components wired on one bus;
    - [Engine]    the backtest loop of [src/core/engine.py];
    - [Weights]   [_clip_and_norm] of [src/backtest/compute_alpha_weights.py];
    - [MomentumStrategy], [MACDFibonacciStrategy]
                  two of the strategies the blender scores.

    Numbers.  Python [float] values (prices, scores, quantities) are modelled
    as exact rationals [Q]: comparisons, [min], [max] and [abs] are exact, and
    rounding of [+], [-], [*] is not modelled.  Instants are integers: a
    timezone-aware UTC [datetime] is its number of microseconds since the
    epoch. *)

From Stdlib Require Import ZArith QArith Qabs Qminmax Lia ZifyNat Sorted Permutation Ascii String.
From stdpp Require Import gmap strings list fin_maps sorting pretty.

Ltac Zify.zify_post_hook ::= Z.to_euclidean_division_equations.

Open Scope nat_scope.

#[global] Arguments Nat.div : simpl never.
#[global] Arguments Nat.mul : simpl never.
#[global] Arguments Nat.modulo : simpl never.

(** ** Exceptions and results *)

Module Py.

(** The exception classes the modelled code can raise (all of them are
    subclasses of [Exception]). *)
Inductive exn : Set :=
| TypeError
| IndexError
| KeyError
| ValueError
| AttributeError
| ZeroDivisionError
| HandlerError (tag : nat).

Inductive res (A : Type) : Type :=
| Ok (a : A)
| Raise (e : exn).
Arguments Ok {A} a.
Arguments Raise {A} e.

#[export] Instance res_ret : MRet res := fun A a => Ok a.
#[export] Instance res_bind : MBind res := fun A B f m =>
  match m with
  | Ok a => f a
  | Raise e => Raise e
  end.

(** [l[i]] on a Python list. *)
Definition getitem {A} (l : list A) (i : nat) : res A :=
  match l !! i with
  | Some a => Ok a
  | None => Raise IndexError
  end.

Definition is_ok {A} (r : res A) : bool :=
  match r with Ok _ => true | Raise _ => false end.

End Py.
Import Py.

(** ** Python's [heapq]: [heappush] and [heappop]

  [lt a b] is Python's [a < b] on heap items; it may raise. *)

Module Heapq.
Section Heapq.
Context {A : Type}.
Variable lt : A -> A -> res bool.

(** [_siftdown(heap, startpos, pos)]: the [while pos > startpos] loop, with
    [newitem] held aside.  [pos] strictly decreases, so [fuel = pos] turns of
    the loop are enough. *)
Fixpoint siftdown_loop (fuel : nat) (heap : list A) (newitem : A)
         (startpos pos : nat) : res (list A) :=
  if decide (startpos < pos) then
    match fuel with
    | O => Ok (<[pos := newitem]> heap)
    | S fuel' =>
        let parentpos := (pos - 1) / 2 in          (* (pos - 1) >> 1 *)
        parent ← getitem heap parentpos;
        c ← lt newitem parent;
        if (c : bool)
        then siftdown_loop fuel' (<[pos := parent]> heap) newitem startpos parentpos
        else Ok (<[pos := newitem]> heap)
    end
  else Ok (<[pos := newitem]> heap).

Definition siftdown (heap : list A) (startpos pos : nat) : res (list A) :=
  newitem ← getitem heap pos;
  siftdown_loop pos heap newitem startpos pos.

(** The first loop of [_siftup]: bubble the smaller child up until [pos] is
    a leaf.  Returns the list and the leaf position reached. *)
Fixpoint siftup_loop (fuel : nat) (heap : list A) (pos : nat)
  : res (list A * nat) :=
  let endpos := length heap in
  let childpos := 2 * pos + 1 in
  if decide (childpos < endpos) then
    match fuel with
    | O => Ok (heap, pos)
    | S fuel' =>
        let rightpos := childpos + 1 in
        childpos' ←
          (if decide (rightpos < endpos) then
             l ← getitem heap childpos;
             r ← getitem heap rightpos;
             c ← lt l r;
             mret (if (c : bool) then childpos else rightpos)
           else mret childpos);
        child ← getitem heap childpos';
        siftup_loop fuel' (<[pos := child]> heap) childpos'
    end
  else Ok (heap, pos).

Definition siftup (heap : list A) (pos : nat) : res (list A) :=
  let startpos := pos in
  newitem ← getitem heap pos;
  '(heap', pos') ← siftup_loop (length heap) heap pos;
  siftdown (<[pos' := newitem]> heap') startpos pos'.

(** [heappush(heap, item)] *)
Definition heappush (heap : list A) (item : A) : res (list A) :=
  siftdown (heap ++ [item]) 0 (length heap).

(** [heappop(heap)]: the popped item and the remaining heap. *)
Definition heappop (heap : list A) : res (A * list A) :=
  match List.rev heap with
  | [] => Raise IndexError                     (* heap.pop() on [] *)
  | lastelt :: rest_rev =>
      let heap' := List.rev rest_rev in
      match heap' with
      | [] => Ok (lastelt, [])
      | returnitem :: _ =>
          heap'' ← siftup (<[0 := lastelt]> heap') 0;
          Ok (returnitem, heap'')
      end
  end.

End Heapq.
End Heapq.

(** ** Numbers, strings and instants *)

Module PyNum.

(** Python's [a < b] on floats, here on rationals. *)
Definition Qltb (a b : Q) : bool := negb (Qle_bool b a).

(** The builtins [min(a, b)] and [max(a, b)]: the first argument is kept
    unless the second is strictly smaller (larger). *)
Definition py_min (a b : Q) : Q := if Qltb b a then b else a.
Definition py_max (a b : Q) : Q := if Qltb a b then b else a.

(** [str.upper()] on ASCII letters. *)
Definition upper_ascii (c : ascii) : ascii :=
  let n := nat_of_ascii c in
  if (97 <=? n) && (n <=? 122) then ascii_of_nat (n - 32) else c.

Fixpoint upper (s : string) : string :=
  match s with
  | EmptyString => EmptyString
  | String c s' => String (upper_ascii c) (upper s')
  end.

(** [s.replace("Z", "+00:00")] *)
Fixpoint replace_Z (s : string) : string :=
  match s with
  | EmptyString => EmptyString
  | String c s' =>
      if Ascii.eqb c "Z" then ("+00:00" ++ replace_Z s')%string
      else String c (replace_Z s')
  end.

(** [datetime.timestamp()]: microseconds since the epoch, as seconds. *)
Definition timestamp (dt : Z) : Q := (dt # 1000000)%Q.

(** A [defaultdict] read [d[k]]: a missing key is inserted with the default
    value, which is returned. *)
Definition dd_get {V : Type} (dflt : V) (k : string) (d : gmap string V)
  : V * gmap string V :=
  match d !! k with
  | Some v => (v, d)
  | None => (dflt, <[k := dflt]> d)
  end.

End PyNum.
Import PyNum.

(** ** ISO-8601 instants

    [datetime.fromisoformat] belongs to Python; the components take it as a
    parameter.  [Iso.fromisoformat] reads the layout the data clients emit
    after [Z] has been replaced, [YYYY-MM-DDTHH:MM:SS[.fff[fff]]+00:00], and
    is used where a concrete run is evaluated. *)

Module Iso.

Definition digit (c : ascii) : option Z :=
  let n := nat_of_ascii c in
  if (48 <=? n) && (n <=? 57) then Some (Z.of_nat (n - 48)) else None.

Fixpoint digits (n : nat) (cs : list ascii) (acc : Z)
  : option (Z * list ascii) :=
  match n with
  | O => Some (acc, cs)
  | S n' =>
      match cs with
      | c :: cs' => d ← digit c; digits n' cs' (acc * 10 + d)%Z
      | [] => None
      end
  end.

Definition expect (c : ascii) (cs : list ascii) : option (list ascii) :=
  match cs with
  | c' :: cs' => if Ascii.eqb c c' then Some cs' else None
  | [] => None
  end.

(** Days from 1970-01-01 to the civil date [y-m-d] (proleptic Gregorian). *)
Definition days_from_civil (y m d : Z) : Z :=
  let y' := (if m <=? 2 then y - 1 else y)%Z in
  let era := (y' / 400)%Z in
  let yoe := (y' - era * 400)%Z in
  let mp := (if m >? 2 then m - 3 else m + 9)%Z in
  let doy := ((153 * mp + 2) / 5 + d - 1)%Z in
  let doe := (yoe * 365 + yoe / 4 - yoe / 100 + doy)%Z in
  (era * 146097 + doe - 719468)%Z.

(** The optional fraction: three or six digits after a dot, in microseconds. *)
Definition fraction (cs : list ascii) : option (Z * list ascii) :=
  match cs with
  | "."%char :: cs' =>
      match digits 6 cs' 0 with
      | Some r => Some r
      | None => '(ms, rest) ← digits 3 cs' 0; Some ((ms * 1000)%Z, rest)
      end
  | _ => Some (0%Z, cs)
  end.

Definition fromisoformat (s : string) : option Z :=
  let cs := list_ascii_of_string s in
  '(y, cs) ← digits 4 cs 0; cs ← expect "-" cs;
  '(mo, cs) ← digits 2 cs 0; cs ← expect "-" cs;
  '(d, cs) ← digits 2 cs 0; cs ← expect "T" cs;
  '(hh, cs) ← digits 2 cs 0; cs ← expect ":" cs;
  '(mi, cs) ← digits 2 cs 0; cs ← expect ":" cs;
  '(ss, cs) ← digits 2 cs 0;
  '(us, cs) ← fraction cs;
  cs ← expect "+" cs; cs ← expect "0" cs; cs ← expect "0" cs;
  cs ← expect ":" cs; cs ← expect "0" cs; cs ← expect "0" cs;
  match cs with
  | [] =>
      if ((1 <=? mo) && (mo <=? 12) && (1 <=? d) && (d <=? 31) &&
          (hh <? 24) && (mi <? 60) && (ss <? 60))%Z
      then Some ((((days_from_civil y mo d * 24 + hh) * 60 + mi) * 60 + ss)
                 * 1000000 + us)%Z
      else None
  | _ :: _ => None
  end.

End Iso.

(** ** Events carried by the bus *)

Module Events.

(** A raw tick: the dict the data clients publish on [RAW_MARKET].  Its
    price and its volume are numbers: a NaN is not modelled. *)
Record tick : Type := Tick {
  tk_source : string;
  tk_symbol : string;
  tk_price : Q;
  tk_volume : Q;
  tk_timestamp : string
}.

(** [==] on two such dicts. *)
Definition tick_eqb (a b : tick) : bool :=
  String.eqb (tk_source a) (tk_source b) &&
  String.eqb (tk_symbol a) (tk_symbol b) &&
  Qeq_bool (tk_price a) (tk_price b) &&
  Qeq_bool (tk_volume a) (tk_volume b) &&
  String.eqb (tk_timestamp a) (tk_timestamp b).

(** The values found in a [meta] dict: a string, a number, a dict of
    numbers (the [scores] and [weights] breakdowns), or [None]. *)
Inductive pyval : Type :=
| VStr (s : string)
| VNum (q : Q)
| VDict (d : gmap string Q)
| VNone.

(** The [payload] dict of a [MARKET_SNAPSHOT] message; an absent key is
    [None]. *)
Record bar_payload : Type := BarPayload {
  bp_open : option Q;
  bp_high : option Q;
  bp_low : option Q;
  bp_close : option Q;
  bp_price : option Q;
  bp_volume : option Q
}.

(** What is published on [MARKET_SNAPSHOT]: an object with attributes, or
    the dict the aggregator builds.  An absent attribute or key is [None]. *)
Inductive snapshot : Type :=
| SnapObj (symbol : option string) (last price volume : option Q)
          (timestamp : option Z)
| SnapDict (symbol : option string) (payload : option bar_payload)
           (timestamp : option Z) (source timeframe : string).

(** A [SIGNAL] dict.  [symbol] and [price] are read with [signal[...]];
    [direction], [score] and [meta] with [signal.get(...)]. *)
Record signal : Type := Signal {
  sg_symbol : string;
  sg_direction : option string;
  sg_score : option Q;
  sg_price : Q;
  sg_meta : option (gmap string pyval)
}.

(** [Order] and [Fill] of [src.core.schemas], with the fields the handlers
    set and read. *)
Record order : Type := Order {
  o_symbol : string;
  o_quantity : Q;
  o_direction : string;
  o_price : Q;
  o_order_id : string;
  o_meta : gmap string pyval
}.

Record fill : Type := Fill {
  f_symbol : string;
  f_quantity : Q;
  f_direction : string;
  f_fill_price : Q;
  f_timestamp : Z;
  f_commission : Q;
  f_order_id : string;
  f_meta : gmap string pyval
}.

Inductive payload : Type :=
| PTick (t : tick)
| PSnapshot (s : snapshot)
| PSignal (s : signal)
| POrder (o : order)
| PFill (f : fill)
| PMark (ts : Z) (equity cash unrealized : Q)
| PAlphaPnl (alpha : string) (ts : Z) (pnl : Q).

(** A call [await self.bus.publish(topic, data)]. *)
Definition emission : Type := string * payload.

(** What a handler does when a publish it awaits raises: the exception
    leaves the handler, or the publishes sit in a [try] whose handler is
    [except Exception: pass]. *)
Inductive on_error : Type :=
| Propagate
| Swallow.

(** A handler call: the component state it leaves, the publishes it then
    awaits, in order (the first that raises ends them), and the exception the
    handler itself raises before any publish, if any. *)
Record reaction (S : Type) : Type := Reaction {
  r_state : S;
  r_publishes : list emission;
  r_on_error : on_error;
  r_raise : option exn
}.
Arguments Reaction {S} r_state r_publishes r_on_error r_raise.
Arguments r_state {S} r.
Arguments r_publishes {S} r.
Arguments r_on_error {S} r.
Arguments r_raise {S} r.

End Events.

(** ** The Stream Router ([src/core/stream_router.py]) *)

Module Router.
Import Events.

(** A heap entry [(epoch, item)]. *)
Definition entry : Type := Q * tick.

(** [<] on two entries, as Python compares tuples: the first position that
    differs decides; two dicts that differ do not support [<]. *)
Definition entry_lt (a b : entry) : res bool :=
  if Qeq_bool (fst a) (fst b) then
    if tick_eqb (snd a) (snd b) then Ok false else Raise TypeError
  else Ok (Qltb (fst a) (fst b)).

(** The state of [_symbol_consumer]: its local variables. *)
Record consumer : Type := Consumer {
  buffer : list entry;
  last_flush : Q
}.

(** One item taken from the queue: the item, the clock read by the
    [except] branch, and the clock read as [now]. *)
Record arrival : Type := Arrival {
  arr_item : tick;
  arr_clock : Q;
  arr_now : Q
}.

(** [_flush_buffer]: pop every item; the entries are listed in the order
    their events are published on [ORDERED_MARKET]. *)
Fixpoint flush_loop (fuel : nat) (buf : list entry) : res (list entry) :=
  match buf with
  | [] => Ok []
  | _ :: _ =>
      match fuel with
      | O => Ok []
      | S fuel' =>
          '(e, rest) ← Heapq.heappop entry_lt buf;
          out ← flush_loop fuel' rest;
          Ok (e :: out)
      end
  end.

Definition flush_buffer (buf : list entry) : res (list entry) :=
  flush_loop (length buf) buf.

Section Consumer.
Variable fromisoformat : string -> option Z.
Variable buffer_ms : Q.

Definition parse_epoch (ts : string) (clock : Q) : Q :=
  match fromisoformat (replace_Z ts) with
  | Some dt => timestamp dt
  | None => clock
  end.

(** One turn of the [while True] loop of [_symbol_consumer], after
    [q.get()] returned the item. *)
Definition consumer_step (st : consumer) (a : arrival)
  : res (consumer * list entry) :=
  let epoch := parse_epoch (tk_timestamp (arr_item a)) (arr_clock a) in
  buf ← Heapq.heappush entry_lt (buffer st) (epoch, arr_item a);
  let now := arr_now a in
  if Qle_bool buffer_ms ((now - last_flush st) * 1000)
     || bool_decide (50 < length buf)
  then
    out ← flush_buffer buf;
    Ok (Consumer [] now, out)
  else Ok (Consumer buf (last_flush st), []).

(** The consumer over a sequence of arrivals: the final state and, for each
    arrival, what that turn published. *)
Fixpoint run_consumer (st : consumer) (arrivals : list arrival)
  : res (consumer * list (list entry)) :=
  match arrivals with
  | [] => Ok (st, [])
  | a :: rest =>
      '(st1, out) ← consumer_step st a;
      '(st2, outs) ← run_consumer st1 rest;
      Ok (st2, out :: outs)
  end.

End Consumer.

(** The sequence published on [ORDERED_MARKET]. *)
Definition emitted (outs : list (list entry)) : list entry := concat outs.

(** [self.queues]: the per-symbol queues, oldest item first. *)
Record state : Type := State {
  queues : gmap string (list tick)
}.

(** [on_raw(raw_event)]: the event is put on the queue of its symbol, which
    is created on the first event (with its consumer task). *)
Definition on_raw (st : state) (raw_event : tick) : reaction state :=
  let symbol := upper (tk_symbol raw_event) in
  let q := default [] (queues st !! symbol) in
  Reaction (State (<[symbol := q ++ [raw_event]]> (queues st)))
           [] Propagate None.

End Router.

(** ** The Candlestick Aggregator ([src/utils/candlestick_aggregator.py]) *)

Module Aggregator.
Import Events.

(** A candle dict of the per-timeframe buffers. *)
Record candle : Type := Candle {
  c_start : Z;
  c_tf : string;
  c_open : Q;
  c_high : Q;
  c_low : Q;
  c_close : Q;
  c_volume : Q
}.

(** [int(s)] for an optional sign followed by decimal digits. *)
Fixpoint digits_val (cs : list ascii) (acc : Z) : option Z :=
  match cs with
  | [] => Some acc
  | c :: r => d ← Iso.digit c; digits_val r (acc * 10 + d)%Z
  end.

Definition py_int (s : string) : option Z :=
  match list_ascii_of_string s with
  | [] => None
  | "-"%char :: (c :: r) => Z.opp <$> digits_val (c :: r) 0
  | "+"%char :: (c :: r) => digits_val (c :: r) 0
  | cs => digits_val cs 0
  end.

(** One entry of [_parse_timeframes]: the seconds of ["<n>m"] or ["<n>h"]. *)
Definition parse_timeframe (tf : string) : res Z :=
  let cs := list_ascii_of_string tf in
  let body := string_of_list_ascii (removelast cs) in      (* tf[:-1] *)
  match last cs with
  | Some "m"%char =>
      match py_int body with
      | Some n => Ok (n * 60)%Z
      | None => Raise ValueError
      end
  | Some "h"%char =>
      match py_int body with
      | Some n => Ok (n * 3600)%Z
      | None => Raise ValueError
      end
  | _ => Raise ValueError
  end.

(** [mapping[tf] = secs] on an insertion-ordered dict. *)
Fixpoint dict_set (m : list (string * Z)) (k : string) (v : Z)
  : list (string * Z) :=
  match m with
  | [] => [(k, v)]
  | (k', v') :: r =>
      if String.eqb k' k then (k', v) :: r else (k', v') :: dict_set r k v
  end.

Fixpoint parse_timeframes_from (mapping : list (string * Z))
         (tfs : list string) : res (list (string * Z)) :=
  match tfs with
  | [] => Ok mapping
  | tf :: r =>
      secs ← parse_timeframe tf;
      parse_timeframes_from (dict_set mapping tf secs) r
  end.

Definition parse_timeframes (tfs : list string) : res (list (string * Z)) :=
  parse_timeframes_from [] tfs.

(** The fields of a UTC [datetime] held as microseconds since the epoch.
    The aggregator reads the wall-clock fields of the datetime it parsed:
    they are those of the UTC instant for a tick stamped in UTC ([Z] or
    [+00:00], the format the aggregator documents); a tick stamped with
    another offset is not modelled. *)
Definition dt_replace_second0 (ts : Z) : Z := (ts - ts mod 60000000)%Z.
Definition dt_minute (ts : Z) : Z := ((ts / 60000000) mod 60)%Z.
Definition dt_second (ts : Z) : Z := ((ts / 1000000) mod 60)%Z.

(** [_get_bucket_start(ts, secs)] *)
Definition get_bucket_start (ts secs : Z) : res Z :=
  let ts := dt_replace_second0 ts in
  if (secs =? 0)%Z then Raise ZeroDivisionError
  else
    let delta := ((dt_minute ts * 60 + dt_second ts) mod secs)%Z in
    Ok (ts - delta * 1000000)%Z.

Record state : Type := State {
  timeframes : list (string * Z);
  buffers : gmap string (gmap string (list candle))
}.

(** The body of the loop of [update_tick] for one timeframe: the buffers
    after it and the candle it closed, if any.  [self.buffers[symbol][tf]]
    creates the missing entries. *)
Definition update_one (buffers : gmap string (gmap string (list candle)))
           (symbol tf : string) (secs : Z) (price volume : Q) (timestamp : Z)
  : res (gmap string (gmap string (list candle)) * list candle) :=
  bucket_start ← get_bucket_start timestamp secs;
  let per_symbol := default ∅ (buffers !! symbol) in
  let buf := default [] (per_symbol !! tf) in
  let store (b : list candle) := <[symbol := <[tf := b]> per_symbol]> buffers in
  let fresh := Candle bucket_start tf price price price price volume in
  match last buf with
  | None => Ok (store [fresh], [])
  | Some bar =>
      if bool_decide (c_start bar <> bucket_start) then
        let closed := Candle (c_start bar) tf (c_open bar) (c_high bar)
                             (c_low bar) (c_close bar) (c_volume bar) in
        Ok (store (<[length buf - 1 := closed]> buf ++ [fresh]), [closed])
      else
        let bar' := Candle (c_start bar) (c_tf bar) (c_open bar)
                           (py_max (c_high bar) price)
                           (py_min (c_low bar) price)
                           price
                           (c_volume bar + volume)%Q in
        Ok (store (<[length buf - 1 := bar']> buf), [])
  end.

Fixpoint update_loop (tfs : list (string * Z))
         (buffers : gmap string (gmap string (list candle)))
         (symbol : string) (price volume : Q)
         (timestamp : Z) (finished : list candle)
  : gmap string (gmap string (list candle)) * res (list candle) :=
  match tfs with
  | [] => (buffers, Ok finished)
  | (tf, secs) :: r =>
      match update_one buffers symbol tf secs price volume timestamp with
      | Raise e => (buffers, Raise e)
      | Ok (buffers', closed) =>
          update_loop r buffers' symbol price volume timestamp
                      (finished ++ closed)
      end
  end.

(** [update_tick(symbol, price, volume, timestamp)]: the state after the
    call and the finished candles (or the exception raised). *)
Definition update_tick (st : state) (symbol : string) (price volume : Q)
           (timestamp : Z) : state * res (list candle) :=
  let '(buffers', r) :=
    update_loop (timeframes st) (buffers st) symbol price volume timestamp []
  in (State (timeframes st) buffers', r).

(** The [MARKET_SNAPSHOT] message built for a finished candle. *)
Definition snapshot_msg (source symbol : string) (c : candle) : snapshot :=
  SnapDict (Some symbol)
           (Some (BarPayload (Some (c_open c)) (Some (c_high c))
                             (Some (c_low c)) (Some (c_close c)) None
                             (Some (c_volume c))))
           (Some (c_start c)) source (c_tf c).

Section OnTick.
Variable fromisoformat : string -> option Z.

(** [on_tick(tick)] *)
Definition on_tick (st : state) (t : tick) : reaction state :=
  match fromisoformat (replace_Z (tk_timestamp t)) with
  | None => Reaction st [] Propagate None        (* bad tick: dropped *)
  | Some ts =>
      let symbol := upper (tk_symbol t) in
      match update_tick st symbol (tk_price t) (tk_volume t) ts with
      | (st', Raise e) => Reaction st' [] Propagate (Some e)
      | (st', Ok finished) =>
          Reaction st'
            (map (fun c => ("MARKET_SNAPSHOT"%string,
                            PSnapshot (snapshot_msg (tk_source t) symbol c)))
                 finished)
            Propagate None
      end
  end.

End OnTick.

(** [CandlestickAggregator(bus, timeframes)]: the initial state. *)
Definition init (tfs : list string) : res state :=
  mapping ← parse_timeframes tfs;
  Ok (State mapping ∅).

End Aggregator.

(** ** The Event Bus ([src/core/event_bus.py])

    [W] is the state the handlers act on and [P] the type of payloads.

    A coroutine is a program [prog]: it ends, with or without an exception,
    or it awaits a publish on the bus and goes on with what that call left.
    A synchronous subscriber is a function that returns or raises.

    [asyncio.gather] runs the collected coroutines concurrently and raises
    the first exception in time.  It is modelled for handlers that suspend
    only by awaiting the bus: the coroutines run one after the other in the
    order they were collected, every one of them runs, and the first
    exception in that order is the one the caller of [publish] sees.  This
    is exact when at most one of the coroutines of a publish suspends, as on
    the buses of the engine. *)

Module EventBus.
Section Bus.
Variables W P : Type.

Inductive prog : Type :=
| Done (w : W) (e : option exn)
| Await (topic : string) (data : P) (w : W) (k : W -> option exn -> prog).

Inductive handler : Type :=
| Sync (name : string) (f : P -> W -> W * option exn)
| Async (name : string) (f : P -> W -> prog).

Definition handler_name (h : handler) : string :=
  match h with
  | Sync n _ => n
  | Async n _ => n
  end.

(** The coroutine functions among some callbacks, in their order. *)
Fixpoint coroutines (callbacks : list handler) : list (P -> W -> prog) :=
  match callbacks with
  | [] => []
  | Sync _ _ :: rest => coroutines rest
  | Async _ f :: rest => f :: coroutines rest
  end.

(** [inspect.iscoroutinefunction(cb)] *)
Definition iscoroutinefunction (h : handler) : bool :=
  match h with
  | Sync _ _ => false
  | Async _ _ => true
  end.

(** [self._subscribers]: topic to handlers, in subscription order. *)
Definition subscribers (b : gmap string (list handler)) (topic : string)
  : list handler :=
  default [] (b !! topic).

(** [subscribe(topic, callback)] *)
Definition subscribe (topic : string) (cb : handler)
           (b : gmap string (list handler)) : gmap string (list handler) :=
  <[topic := subscribers b topic ++ [cb]]> b.

(** [list.remove]: the first occurrence, by the handler's name. *)
Fixpoint remove_first (name : string) (l : list handler) : list handler :=
  match l with
  | [] => []
  | h :: r =>
      if String.eqb (handler_name h) name then r else h :: remove_first name r
  end.

(** [unsubscribe(topic, callback)] *)
Definition unsubscribe (topic : string) (name : string)
           (b : gmap string (list handler)) : gmap string (list handler) :=
  if existsb (fun h => String.eqb (handler_name h) name) (subscribers b topic)
  then <[topic := remove_first name (subscribers b topic)]> b
  else b.

(** [clear()] *)
Definition clear (b : gmap string (list handler))
  : gmap string (list handler) := ∅.

(** What a call of [publish] leaves: the subscriber table, the state, the
    publishes made (this one and the nested ones, in order) and the
    exception that reaches the caller, if any. *)
Record outcome : Type := Outcome {
  out_bus : gmap string (list handler);
  out_state : W;
  out_trace : list (string * P);
  out_exn : option exn
}.

Section Dispatch.
(** The nested [publish]; [None] when the fuel is spent. *)
Variable publish_rec : string -> P -> W -> option (W * list (string * P) * option exn).

Fixpoint run (p : prog) : option (W * list (string * P) * option exn) :=
  match p with
  | Done w e => Some (w, [], e)
  | Await topic data w k =>
      match publish_rec topic data w with
      | None => None
      | Some (w1, tr1, e1) =>
          match run (k w1 e1) with
          | None => None
          | Some (w2, tr2, e2) => Some (w2, tr1 ++ tr2, e2)
          end
      end
  end.

(** The [for cb in callbacks] loop under the lock: a coroutine function is
    called, which only builds its coroutine, kept in [tasks]; any other
    callback runs now, and what it raises is logged and dropped. *)
Fixpoint call_loop (callbacks : list handler) (data : P) (w : W)
         (tasks : list (P -> W -> prog)) : W * list (P -> W -> prog) :=
  match callbacks with
  | [] => (w, tasks)
  | cb :: rest =>
      match cb with
      | Async _ f => call_loop rest data w (tasks ++ [f])
      | Sync _ f =>
          let '(w', _) := f data w in
          call_loop rest data w' tasks
      end
  end.

(** The coroutines run by [asyncio.gather]: the state they leave, the
    publishes they made and, for each of them, the exception it ended
    with, if any. *)
Fixpoint gather_results (tasks : list (P -> W -> prog)) (data : P) (w : W)
  : option (W * list (string * P) * list (option exn)) :=
  match tasks with
  | [] => Some (w, [], [])
  | f :: rest =>
      match run (f data w) with
      | None => None
      | Some (w1, tr1, e1) =>
          match gather_results rest data w1 with
          | None => None
          | Some (w2, tr2, es) => Some (w2, tr1 ++ tr2, e1 :: es)
          end
      end
  end.

(** The exception [gather] raises in its caller: the first one. *)
Fixpoint first_exn (es : list (option exn)) : option exn :=
  match es with
  | [] => None
  | Some e :: _ => Some e
  | None :: rest => first_exn rest
  end.

(** [await asyncio.gather] over the collected coroutines, with
    [return_exceptions] left false. *)
Definition gather (tasks : list (P -> W -> prog)) (data : P) (w : W)
  : option (W * list (string * P) * option exn) :=
  match gather_results tasks data w with
  | None => None
  | Some (w', tr, es) => Some (w', tr, first_exn es)
  end.

Definition publish_body (b : gmap string (list handler)) (topic : string)
           (data : P) (w : W)
  : option (W * list (string * P) * option exn) :=
  match subscribers b topic with
  | [] => Some (w, [], None)                   (* no subscribers: return *)
  | callbacks =>
      let '(w1, tasks) := call_loop callbacks data w [] in
      match tasks with
      | [] => Some (w1, [], None)
      | _ :: _ => gather tasks data w1
      end
  end.

End Dispatch.

(** [publish(topic, data)], with [fuel] bounding the depth of nested
    publishes. *)
Fixpoint publish_in (fuel : nat) (b : gmap string (list handler))
         (topic : string) (data : P) (w : W)
  : option (W * list (string * P) * option exn) :=
  match fuel with
  | O => None
  | S fuel' =>
      match publish_body (publish_in fuel' b) b topic data w with
      | None => None
      | Some (w', tr, e) => Some (w', (topic, data) :: tr, e)
      end
  end.

Definition publish (fuel : nat) (b : gmap string (list handler))
           (topic : string) (data : P) (w : W) : option outcome :=
  match publish_in fuel b topic data w with
  | None => None
  | Some (w', tr, e) => Some (Outcome b w' tr e)
  end.

End Bus.

Arguments Done {W P} w e.
Arguments Await {W P} topic data w k.
Arguments Sync {W P} name f.
Arguments Async {W P} name f.
Arguments handler_name {W P} h.
Arguments iscoroutinefunction {W P} h.
Arguments subscribers {W P} b topic.
Arguments subscribe {W P} topic cb b.
Arguments unsubscribe {W P} topic name b.
Arguments clear {W P} b.
Arguments run {W P} publish_rec p.
Arguments call_loop {W P} callbacks data w tasks.
Arguments gather {W P} publish_rec tasks data w.
Arguments gather_results {W P} publish_rec tasks data w.
Arguments first_exn es : clear implicits.
Arguments coroutines {W P} callbacks.
Arguments publish_body {W P} publish_rec b topic data w.
Arguments publish_in {W P} fuel b topic data w.
Arguments publish {W P} fuel b topic data w.
Arguments Outcome {W P} out_bus out_state out_trace out_exn.
Arguments out_bus {W P} o.
Arguments out_state {W P} o.
Arguments out_trace {W P} o.
Arguments out_exn {W P} o.

End EventBus.

(** ** The Strategy Blender ([src/strategy/multi_strategy_manager.py]) *)

Module Blender.
Import Events.

(** Minimum conviction to trade. *)
Definition THRESHOLD : Q := 0.05.

(** The candle dict handed to the strategies. *)
Record candle : Type := Candle {
  cd_symbol : string;
  cd_close : Q;
  cd_open : Q;
  cd_high : Q;
  cd_low : Q;
  cd_volume : Q;
  cd_timestamp : Z
}.

(** [_extract_candle(snapshot)]: symbol, price and candle, or [None] when it
    raises (its caller returns on any exception).  [now] is the clock read
    for a snapshot object without a timestamp. *)
Definition extract_candle (now : Z) (s : snapshot)
  : option (string * Q * candle) :=
  match s with
  | SnapObj (Some sym) last price volume ts =>
      let symbol := upper sym in
      let p := match last with
               | Some l => l
               | None => default 0%Q price
               end in
      if Qltb 0 p
      then Some (symbol, p,
                 Candle symbol p p p p (default 0%Q volume) (default now ts))
      else None              (* falls through to [snapshot["symbol"]] *)
  | SnapObj None _ _ _ _ => None
  | SnapDict (Some sym) (Some pl) (Some ts) _ _ =>
      let symbol := upper sym in
      let v := match bp_close pl with         (* close or price *)
               | Some c => if Qeq_bool c 0 then bp_price pl else Some c
               | None => bp_price pl
               end in
      match v with
      | None => None
      | Some price =>
          Some (symbol, price,
                Candle symbol price
                       (default price (bp_open pl))
                       (default price (bp_high pl))
                       (default price (bp_low pl))
                       (default 0%Q (bp_volume pl))
                       ts)
      end
  | SnapDict _ _ _ _ _ => None
  end.

(** The names of [self.alphas], in the order of the dict. *)
Definition alphas : list string :=
  ["meanreversion"; "momentum"; "atrgaussian"; "macdfibonacci";
   "genericalpha"]%string.

(** The default of [alpha_weights]: equal weights. *)
Definition default_weights : gmap string Q :=
  list_to_map (map (fun name => (name, (1 / 5)%Q)) alphas).

Section Blender.
(** The strategies: their private state, and [alpha.score(candle)] for the
    strategy registered under a name; [None] is a call that raised. *)
Variable alpha_state : Type.
Variable alpha_score : string -> candle -> alpha_state -> option Q * alpha_state.

Record state : Type := State {
  enabled : bool;
  alpha_weights : gmap string Q;
  virt_pos : gmap string (gmap string Q);
  last_price : gmap string Q;
  last_published_score : gmap string Q;
  strategies : alpha_state
}.

(** The per-alpha scores loop. *)
Fixpoint score_all (names : list string) (c : candle) (a : alpha_state)
         (scores : gmap string Q) : gmap string Q * alpha_state :=
  match names with
  | [] => (scores, a)
  | name :: r =>
      let '(s, a') := alpha_score name c a in
      score_all r c a' (<[name := default 0%Q s]> scores)
  end.

(** [sum(self.alpha_weights[name] * scores[name] for name in self.alphas)] *)
Fixpoint combine (names : list string) (weights scores : gmap string Q)
         (acc : Q) : res Q :=
  match names with
  | [] => Ok acc
  | name :: r =>
      match weights !! name, scores !! name with
      | Some w, Some s => combine r weights scores (acc + w * s)%Q
      | _, _ => Raise KeyError
      end
  end.

(** The weighted sum as the specification words it: the sum over the
    strategies of weight times score, an absent entry counting for 0. *)
Definition weighted_sum (weights scores : gmap string Q)
           (names : list string) : Q :=
  foldr (fun name acc =>
           (default 0 (weights !! name) * default 0 (scores !! name) + acc)%Q)
        0%Q names.

(** The threshold and the clip. *)
Definition threshold_clip (combined : Q) : Q :=
  let combined := if Qltb (Qabs combined) THRESHOLD then 0%Q else combined in
  py_max (-1) (py_min 1 combined).

(** [_update_attribution(symbol, price, per_alpha_units)] on the state (the
    CSV row it writes is not modelled). *)
Definition update_attribution (st : state) (symbol : string) (price : Q)
           (per_alpha_units : list (string * Q)) : state :=
  let vp :=
    fold_left
      (fun vp '(alpha, du) =>
         let per := default ∅ (vp !! alpha) in
         <[alpha := <[symbol := (default 0 (per !! symbol) + du)%Q]> per]> vp)
      per_alpha_units (virt_pos st) in
  State (enabled st) (alpha_weights st) vp
        (<[symbol := price]> (last_price st))
        (last_published_score st) (strategies st).

(** [on_market_snapshot(snapshot)] *)
Definition on_market_snapshot (st : state) (now : Z) (snap : snapshot)
  : reaction state :=
  if negb (enabled st) then Reaction st [] Propagate None
  else
    match extract_candle now snap with
    | None => Reaction st [] Propagate None
    | Some (symbol, price, c) =>
        let '(scores, a') := score_all alphas c (strategies st) ∅ in
        let st1 := State (enabled st) (alpha_weights st) (virt_pos st)
                         (last_price st) (last_published_score st) a' in
        match combine alphas (alpha_weights st) scores 0 with
        | Raise e => Reaction st1 [] Propagate (Some e)
        | Ok combined =>
            let combined := threshold_clip combined in
            let st2 := update_attribution st1 symbol price
                         (map (fun a => (a, 0%Q)) alphas) in
            let '(last, lps) :=
              dd_get 0%Q symbol (last_published_score st2) in
            if Qltb (Qabs (combined - last)) 0.05 then
              Reaction
                (State (enabled st2) (alpha_weights st2) (virt_pos st2)
                       (last_price st2) lps (strategies st2))
                [] Propagate None
            else
              Reaction
                (State (enabled st2) (alpha_weights st2) (virt_pos st2)
                       (last_price st2) (<[symbol := combined]> lps)
                       (strategies st2))
                [("SIGNAL"%string,
                  PSignal (Signal symbol (Some "TARGET"%string)
                             (Some combined) price
                             (Some (<["alpha"%string := VStr "multi"]>
                                    (<["weights"%string :=
                                         VDict (alpha_weights st)]>
                                    (<["scores"%string := VDict scores]>
                                     ∅))))))]
                Propagate None
        end
    end.

(** [MultiStrategyManager(bus, alpha_weights, enable)] *)
Definition init (weights : option (gmap string Q)) (enable : bool)
           (a : alpha_state) : state :=
  State enable (default default_weights weights) ∅ ∅ ∅ a.

End Blender.

Arguments State {alpha_state}.
Arguments enabled {alpha_state} s.
Arguments alpha_weights {alpha_state} s.
Arguments virt_pos {alpha_state} s.
Arguments last_price {alpha_state} s.
Arguments last_published_score {alpha_state} s.
Arguments strategies {alpha_state} s.

End Blender.

(** ** The Portfolio Ledger ([src/portfolio/portfolio_handler.py]) *)

Module Ledger.
Import Events.

(** Absolute floor (do nothing below this). *)
Definition MIN_TRADE_UNITS : Q := 1e-6.
(** Noise filter: ignore tiny target changes. *)
Definition DELTA_THRESHOLD : Q := 0.0004.
Definition DEFAULT_MAX_UNITS : Q := 0.01.

Record state : Type := State {
  cash : Q;
  positions : gmap string Q;               (* symbol -> net qty *)
  last_prices : gmap string Q;             (* symbol -> last price *)
  max_units : gmap string Q;
  alpha_virtual_pos : gmap string (gmap string Q)
}.

(** [PortfolioHandler(event_bus, initial_cash, max_units)] *)
Definition init (initial_cash : Q) (units : option (gmap string Q)) : state :=
  State initial_cash ∅ ∅ (default ∅ units) ∅.

(** The six decimals of [f"{x:.6f}"] for a number of microseconds. *)
Definition digit_char (d : Z) : ascii := ascii_of_nat (48 + Z.to_nat (d mod 10)).

Definition frac6 (m : Z) : string :=
  String (digit_char (m / 100000))
  (String (digit_char (m / 10000))
  (String (digit_char (m / 1000))
  (String (digit_char (m / 100))
  (String (digit_char (m / 10))
  (String (digit_char m) EmptyString))))).

(** [datetime.utcnow().timestamp()], in microseconds.  [utcnow()] is a naive
    datetime that holds the UTC wall clock, and [timestamp()] takes a naive
    datetime for local time: the result is the UTC reading [utc] less the
    offset [utcoffset utc] that the local zone gives to that wall-clock
    reading (0 on a machine that runs in UTC). *)
Definition utcnow_timestamp (utcoffset : Z -> Z) (utc : Z) : Z :=
  (utc - utcoffset utc)%Z.

(** [f"ORD-{datetime.utcnow().timestamp():.6f}"], [now] being what
    [datetime.utcnow().timestamp()] returned, in microseconds. *)
Definition order_id_at (now : Z) : string :=
  let a := Z.abs now in
  ("ORD-" +:+ (if (now <? 0)%Z then "-" else "") +:+
   pretty (a / 1000000)%Z +:+ "." +:+ frac6 (a mod 1000000)%Z)%string.

(** [not isinstance(meta.get("scores"), dict) or not meta["scores"]] *)
Definition lacks_scores (meta : gmap string pyval) : bool :=
  match meta !! "scores"%string with
  | Some (VDict d) => bool_decide (size d = 0)
  | _ => true
  end.

(** The meta the order carries: the meta of the signal, with a [scores]
    dict put in when it has none. *)
Definition order_meta (sg : signal) (score : Q) : gmap string pyval :=
  let meta := default ∅ (sg_meta sg) in           (* signal.get("meta") or {} *)
  if lacks_scores meta
  then <["scores"%string := VDict {["GENERIC"%string := score]}]> meta
  else meta.

(** [on_signal(signal)].  [now] is what [datetime.utcnow().timestamp()]
    returns, in microseconds. *)
Definition on_signal (st : state) (now : Z) (sg : signal) : reaction state :=
  if negb (bool_decide (sg_direction sg = Some "TARGET"%string))
  then Reaction st [] Propagate None
  else
    let symbol := upper (sg_symbol sg) in
    let price := sg_price sg in
    let score := default 0%Q (sg_score sg) in
    let meta := order_meta sg score in
    let lp := <[symbol := price]> (last_prices st) in
    (* Score -> bounded target exposure *)
    let '(units, mu) := dd_get DEFAULT_MAX_UNITS symbol (max_units st) in
    let target := (py_max (-1) (py_min 1 score) * units)%Q in
    let '(current, pos) := dd_get 0%Q symbol (positions st) in
    let delta := (target - current)%Q in
    let st' := State (cash st) pos lp mu (alpha_virtual_pos st) in
    (* Ignore micro noise *)
    if Qltb (Qabs delta) (py_max DELTA_THRESHOLD MIN_TRADE_UNITS)
    then Reaction st' [] Propagate None
    else
      let direction := (if Qltb 0 delta then "BUY" else "SELL")%string in
      let qty := Qabs delta in
      Reaction st'
        [("ORDER"%string,
          POrder (Order symbol qty direction price (order_id_at now) meta))]
        Propagate None.

(** The attribution loop of [on_fill]:
    [alpha_virtual_pos[alpha_name][symbol] += qty_signed * float(s)]. *)
Definition attribute (avp : gmap string (gmap string Q)) (symbol : string)
           (qty_signed : Q) (scores : gmap string Q)
  : gmap string (gmap string Q) :=
  map_fold
    (fun alpha_name s avp =>
       let per := default ∅ (avp !! alpha_name) in
       <[alpha_name :=
           <[symbol := (default 0 (per !! symbol) + qty_signed * s)%Q]> per]>
         avp)
    avp scores.

(** [sum(q * self.last_prices[s] for s, q in self.positions.items())]: the
    sum, and [last_prices] with the keys the reads created. *)
Definition mark_to_market (pos lp : gmap string Q) : Q * gmap string Q :=
  map_fold
    (fun s q '(acc, lp) =>
       let '(p, lp') := dd_get 0%Q s lp in ((acc + q * p)%Q, lp'))
    (0%Q, lp) pos.

(** The per-alpha PnL dict of [on_fill]. *)
Definition alpha_pnl (avp : gmap string (gmap string Q)) (lp : gmap string Q)
  : gmap string Q :=
  (fun per : gmap string Q =>
     map_fold (fun sym q acc => (acc + q * default 0 (lp !! sym))%Q)
              0%Q per) <$> avp.

(** [on_fill(fill)].  [now] is the clock [utcnow()] reads. *)
Definition on_fill (st : state) (now : Z) (f : fill) : reaction state :=
  let symbol := upper (f_symbol f) in
  let price := f_fill_price f in
  let qty_signed :=
    if String.eqb (upper (f_direction f)) "BUY"
    then f_quantity f else (- f_quantity f)%Q in
  (* Position adjust *)
  let pos := <[symbol := (default 0 (positions st !! symbol) + qty_signed)%Q]>
               (positions st) in
  let lp := <[symbol := price]> (last_prices st) in
  (* Cash update (spot-style) *)
  let trade_value := (price * Qabs (f_quantity f))%Q in
  let commission := f_commission f in
  let cash' :=
    if Qltb 0 qty_signed
    then (cash st - (trade_value + commission))%Q
    else (cash st + (trade_value - commission))%Q in
  (* Alpha attribution *)
  let scores :=
    match f_meta f !! "scores"%string with
    | None => Some ({["GENERIC"%string := 1%Q]} : gmap string Q)
    | Some (VDict d) => Some d
    | Some _ => None                      (* no [.items()]: AttributeError *)
    end in
  match scores with
  | None =>
      Reaction (State cash' pos lp (max_units st) (alpha_virtual_pos st))
               [] Propagate (Some AttributeError)
  | Some scores =>
      let avp := attribute (alpha_virtual_pos st) symbol qty_signed scores in
      (* Mark-to-market *)
      let '(unreal, lp') := mark_to_market pos lp in
      let total_equity := (cash' + unreal)%Q in
      let pnl := alpha_pnl avp lp' in
      Reaction (State cash' pos lp' (max_units st) avp)
        (("PORTFOLIO_MARK"%string, PMark now total_equity cash' unreal)
         :: map (fun '(a, v) => ("ALPHA_PNL_TICK"%string, PAlphaPnl a now v))
                (map_to_list pnl))
        Swallow None
  end.

(** The position of [symbol] is within the noise floor of the target of
    [score]: a TARGET signal with this score is discarded. *)
Definition settled (symbol : string) (score : Q) (st : state) : Prop :=
  (Qabs (Qmax (-1) (Qmin 1 score)
         * default DEFAULT_MAX_UNITS (max_units st !! symbol)
         - default 0 (positions st !! symbol))
   < Qmax 1e-6 0.0004)%Q.

End Ledger.

(** ** The Execution Simulator
       ([src/execution/order_execution_handler.py]) *)

Module Execution.
Import Events.

Record state : Type := State {
  mode : string;
  has_bus : bool;                          (* [event_bus] was given *)
  slippage_bps : Q;
  commission_bps : Q;
  order_meta : gmap string (gmap string pyval)    (* order_id -> meta *)
}.

(** [str.lower()] on ASCII letters. *)
Definition lower_ascii (c : ascii) : ascii :=
  let n := nat_of_ascii c in
  if (65 <=? n) && (n <=? 90) then ascii_of_nat (n + 32) else c.

Fixpoint lower (s : string) : string :=
  match s with
  | EmptyString => EmptyString
  | String c s' => String (lower_ascii c) (lower s')
  end.

(** [OrderExecutionHandler(mode, event_bus, slippage_bps, commission_bps)] *)
Definition init (mode : string) (bus : bool) (slippage commission : Q)
  : state :=
  State (lower mode) bus slippage commission ∅.

(** [_simulate_fill(order)], after the simulated latency; [now] is the clock
    [utcnow()] reads then. *)
Definition simulate_fill (st : state) (now : Z) (o : order) : reaction state :=
  let slippage := (slippage_bps st / 10000 * o_price o)%Q in
  let fill_price :=
    if String.eqb (o_direction o) "BUY"
    then (o_price o + slippage)%Q else (o_price o - slippage)%Q in
  let commission :=
    (commission_bps st / 10000 * (fill_price * o_quantity o))%Q in
  (* Restore attribution meta *)
  let meta := default ∅ (order_meta st !! o_order_id o) in
  let st' := State (mode st) (has_bus st) (slippage_bps st)
                   (commission_bps st)
                   (delete (o_order_id o) (order_meta st)) in
  let f := Fill (o_symbol o) (o_quantity o) (o_direction o) fill_price now
                commission (o_order_id o) meta in
  if has_bus st
  then Reaction st' [("FILL"%string, PFill f)] Propagate None
  else Reaction st' [] Propagate None.

(** [_execute_real(order)] *)
Definition execute_real (st : state) (now : Z) (o : order) : reaction state :=
  simulate_fill st now o.

(** [on_order(order)] *)
Definition on_order (st : state) (now : Z) (o : order) : reaction state :=
  (* Store meta internally *)
  let st1 := State (mode st) (has_bus st) (slippage_bps st)
                   (commission_bps st)
                   (<[o_order_id o := o_meta o]> (order_meta st)) in
  if String.eqb (mode st) "paper" || String.eqb (mode st) "backtest"
  then simulate_fill st1 now o
  else execute_real st1 now o.

End Execution.

(** ** The components on one bus *)

Module Pipeline.
Import Events EventBus.

Section Pipeline.
Variable alpha_state : Type.
Variable alpha_score :
  string -> Blender.candle -> alpha_state -> option Q * alpha_state.
Variable fromisoformat : string -> option Z.
(** The latency [_simulate_fill] sleeps, in microseconds, drawn at a clock
    reading. *)
Variable latency : Z -> Z.

(** [w_clock] is the UTC clock, in microseconds; [w_utcoffset] is the offset
    the local zone of the machine gives to a wall-clock reading. *)
Record world : Type := World {
  w_clock : Z;
  w_utcoffset : Z -> Z;
  w_router : Router.state;
  w_agg : Aggregator.state;
  w_blender : Blender.state alpha_state;
  w_ledger : Ledger.state;
  w_exec : Execution.state
}.

Definition set_router (s : Router.state) (w : world) : world :=
  World (w_clock w) (w_utcoffset w) s (w_agg w) (w_blender w) (w_ledger w)
        (w_exec w).
Definition set_agg (s : Aggregator.state) (w : world) : world :=
  World (w_clock w) (w_utcoffset w) (w_router w) s (w_blender w) (w_ledger w)
        (w_exec w).
Definition set_blender (s : Blender.state alpha_state) (w : world) : world :=
  World (w_clock w) (w_utcoffset w) (w_router w) (w_agg w) s (w_ledger w)
        (w_exec w).
Definition set_ledger (s : Ledger.state) (w : world) : world :=
  World (w_clock w) (w_utcoffset w) (w_router w) (w_agg w) (w_blender w) s
        (w_exec w).
Definition set_exec (s : Execution.state) (w : world) : world :=
  World (w_clock w) (w_utcoffset w) (w_router w) (w_agg w) (w_blender w)
        (w_ledger w) s.
Definition sleep (d : Z) (w : world) : world :=
  World (w_clock w + d) (w_utcoffset w) (w_router w) (w_agg w)
        (w_blender w) (w_ledger w) (w_exec w).

(** The publishes of a handler, awaited one after the other. *)
Fixpoint await_all (policy : on_error) (ems : list emission) (w : world)
  : prog world payload :=
  match ems with
  | [] => Done w None
  | (topic, data) :: rest =>
      Await topic data w
            (fun w' e =>
               match e with
               | None => await_all policy rest w'
               | Some x =>
                   match policy with
                   | Propagate => Done w' (Some x)
                   | Swallow => Done w' None
                   end
               end)
  end.

(** A handler call as a coroutine on the world. *)
Definition react {S : Type} (set : S -> world -> world) (r : reaction S)
           (w : world) : prog world payload :=
  let w' := set (r_state r) w in
  match r_raise r with
  | Some e => Done w' (Some e)
  | None => await_all (r_on_error r) (r_publishes r) w'
  end.

(** The bound methods the components subscribe.  A payload of another kind
    than the handler reads makes its first access raise. *)
Definition on_raw (data : payload) (w : world) : prog world payload :=
  match data with
  | PTick t => react set_router (Router.on_raw (w_router w) t) w
  | _ => Done w (Some TypeError)
  end.

Definition on_tick (data : payload) (w : world) : prog world payload :=
  match data with
  | PTick t => react set_agg (Aggregator.on_tick fromisoformat (w_agg w) t) w
  | _ => Done w None                      (* bad tick data: dropped *)
  end.

Definition on_market_snapshot (data : payload) (w : world)
  : prog world payload :=
  match data with
  | PSnapshot s =>
      react set_blender
            (Blender.on_market_snapshot alpha_state alpha_score
               (w_blender w) (w_clock w) s) w
  | _ => Done w None                      (* nothing to extract: return *)
  end.

Definition on_signal (data : payload) (w : world) : prog world payload :=
  match data with
  | PSignal s =>
      react set_ledger
            (Ledger.on_signal
               (w_ledger w)
               (Ledger.utcnow_timestamp (w_utcoffset w) (w_clock w)) s)
            w
  | _ => Done w (Some AttributeError)
  end.

Definition on_fill (data : payload) (w : world) : prog world payload :=
  match data with
  | PFill f => react set_ledger (Ledger.on_fill (w_ledger w) (w_clock w) f) w
  | _ => Done w (Some AttributeError)
  end.

Definition on_order (data : payload) (w : world) : prog world payload :=
  match data with
  | POrder o =>
      let w1 := sleep (latency (w_clock w)) w in
      react set_exec (Execution.on_order (w_exec w) (w_clock w1) o) w1
  | _ => Done w (Some AttributeError)
  end.

Definition h_on_raw := Async "StreamRouter.on_raw" on_raw.
Definition h_on_tick := Async "CandlestickAggregator.on_tick" on_tick.
Definition h_on_market_snapshot :=
  Async "MultiStrategyManager.on_market_snapshot" on_market_snapshot.
Definition h_on_signal := Async "PortfolioHandler.on_signal" on_signal.
Definition h_on_fill := Async "PortfolioHandler.on_fill" on_fill.
Definition h_on_order := Async "OrderExecutionHandler.on_order" on_order.

(** What each constructor subscribes. *)
Definition StreamRouter_init (b : gmap string (list (handler world payload)))
  : gmap string (list (handler world payload)) :=
  subscribe "RAW_MARKET" h_on_raw b.

Definition CandlestickAggregator_init
           (b : gmap string (list (handler world payload)))
  : gmap string (list (handler world payload)) :=
  subscribe "RAW_MARKET" h_on_tick b.

Definition MultiStrategyManager_init (enable : bool)
           (b : gmap string (list (handler world payload)))
  : gmap string (list (handler world payload)) :=
  if enable then subscribe "MARKET_SNAPSHOT" h_on_market_snapshot b else b.

Definition PortfolioHandler_init
           (b : gmap string (list (handler world payload)))
  : gmap string (list (handler world payload)) :=
  subscribe "FILL" h_on_fill (subscribe "SIGNAL" h_on_signal b).

Definition OrderExecutionHandler_init
           (b : gmap string (list (handler world payload)))
  : gmap string (list (handler world payload)) :=
  subscribe "ORDER" h_on_order b.

(** The bus of [TradingEngine.__init__] ([src/core/engine.py]). *)
Definition engine_bus : gmap string (list (handler world payload)) :=
  MultiStrategyManager_init true
    (OrderExecutionHandler_init (PortfolioHandler_init ∅)).

(** The bus of [main] in [src/run_engine.py]: the aggregator subscribes in
    its constructor and [main] subscribes it once more. *)
Definition run_engine_bus : gmap string (list (handler world payload)) :=
  OrderExecutionHandler_init
    (PortfolioHandler_init
       (MultiStrategyManager_init true
          (subscribe "RAW_MARKET" h_on_tick
             (CandlestickAggregator_init ∅)))).

(** A bus on which both the router and the aggregator were constructed. *)
Definition routed_bus : gmap string (list (handler world payload)) :=
  CandlestickAggregator_init (StreamRouter_init ∅).

(** A caller that publishes signals one after the other, each publish
    awaited to completion; it stops at the first exception. *)
Definition publish_signals (fuel : nat)
           (b : gmap string (list (handler world payload)))
           (sigs : list signal) (w : world)
  : option (world * list emission * option exn) :=
  run (publish_in fuel b)
      (await_all Propagate
                 (map (fun s => ("SIGNAL"%string, PSignal s)) sigs) w).

(** The number of publishes on a topic in a trace. *)
Definition count_topic (topic : string) (tr : list emission) : nat :=
  length (List.filter (fun em : emission => String.eqb (fst em) topic) tr).

End Pipeline.

Arguments World {alpha_state}.
Arguments w_clock {alpha_state} w.
Arguments w_utcoffset {alpha_state} w.
Arguments w_router {alpha_state} w.
Arguments w_agg {alpha_state} w.
Arguments w_blender {alpha_state} w.
Arguments w_ledger {alpha_state} w.
Arguments w_exec {alpha_state} w.

End Pipeline.

(** ** A component fed a sequence of events

    The calls of one handler, one after the other, as a caller that awaits
    each call makes them; what the handler publishes is collected, not
    delivered. *)

Module Feed.
Import Events.

Fixpoint feed {S E : Type} (handle : S -> E -> reaction S) (st : S)
         (events : list E) : S * list emission * option exn :=
  match events with
  | [] => (st, [], None)
  | e :: rest =>
      let r := handle st e in
      match r_raise r with
      | Some x => (r_state r, r_publishes r, Some x)
      | None =>
          let '(st', ems, x) := feed handle (r_state r) rest in
          (st', r_publishes r ++ ems, x)
      end
  end.

End Feed.

(** ** The backtest loop of the engine ([src/core/engine.py]) *)

Module Engine.
Import Events EventBus Pipeline.

(** A row of the CSV file, its numbers read. *)
Record row : Type := Row {
  timestamp_utc : Z;
  close : Q;
  open : Q;
  high : Q;
  low : Q;
  volume : Q
}.

(** [type("Snapshot", (), snapshot)]: a class whose attributes are the keys
    of the dict, [timestamp], [payload] and [meta]; it has no [symbol],
    [last], [price] or [volume]. *)
Definition Snapshot (r : row) : snapshot :=
  SnapObj None None None None (Some (timestamp_utc r)).

Section Engine.
Variable alpha_state : Type.

(** The loop of [run_backtest] over the rows of an existing file: publish
    the snapshot, sleep 10 ms. *)
Fixpoint run_backtest_rows (rows : list row) (w : world alpha_state)
  : prog (world alpha_state) payload :=
  match rows with
  | [] => Done w None
  | r :: rest =>
      Await "MARKET_SNAPSHOT" (PSnapshot (Snapshot r)) w
            (fun w' e =>
               match e with
               | Some x => Done w' (Some x)
               | None => run_backtest_rows rest (sleep alpha_state 10000 w')
               end)
  end.

(** [TradingEngine.run_backtest] on the bus its constructor wires. *)
Definition run_backtest
           (alpha_score :
              string -> Blender.candle -> alpha_state -> option Q * alpha_state)
           (latency : Z -> Z) (fuel : nat) (rows : list row)
           (w : world alpha_state)
  : option (world alpha_state * list emission * option exn) :=
  run (publish_in fuel (engine_bus alpha_state alpha_score latency))
      (run_backtest_rows rows w).

End Engine.

End Engine.

(** ** Candidate weights ([src/backtest/compute_alpha_weights.py]) *)

Module Weights.

(** [w.sum()] *)
Definition qsum (w : list Q) : Q := foldr Qplus 0%Q w.

(** [_clip_and_norm(w)]: negative entries are clipped to 0 and the rest is
    scaled to sum to 1; equal weights when nothing is left. *)
Definition clip_and_norm (w : list Q) : list Q :=
  let w := map (fun x => Qmax x 0) w in                (* np.maximum(w, 0.0) *)
  let s := qsum w in
  if Qltb 0 s then map (fun x => (x / s)%Q) w
  else map (fun _ => (1 / inject_Z (Z.of_nat (length w)))%Q) w.

End Weights.

(** ** Two of the strategies the blender scores
       ([src/strategy/strategy_momentum.py],
        [src/strategy/strategy_macd_fibonacci.py])

    [score] returns the score, [None] when the call raises, and the state
    the call leaves.  [np.tanh] is a parameter. *)

Module MomentumStrategy.

Record state : Type := State {
  short_window : Z;
  long_window : Z;
  smooth_alpha : Q;                        (* smoothing for score *)
  ema_short : option Q;
  ema_long : option Q;
  prev_score : Q
}.

(** [MomentumStrategy(short_window, long_window, smooth_alpha)] *)
Definition init (short long : Z) (alpha : Q) : state :=
  State short long alpha None None 0.

(** [score(candle)], [close] being [candle["close"]] *)
Definition score (tanh : Q -> Q) (st : state) (close : Q)
  : option Q * state :=
  match ema_short st with
  | None =>
      (* Initialize EMAs *)
      (Some 0%Q,
       State (short_window st) (long_window st) (smooth_alpha st)
             (Some close) (Some close) (prev_score st))
  | Some es =>
      if (short_window st + 1 =? 0)%Z then (None, st)  (* ZeroDivisionError *)
      else if (long_window st + 1 =? 0)%Z then (None, st)
      else
        let k_short := (2 / inject_Z (short_window st + 1))%Q in
        let k_long := (2 / inject_Z (long_window st + 1))%Q in
        (* Update EMAs *)
        let es' := (es + k_short * (close - es))%Q in
        match ema_long st with
        | None =>                                      (* TypeError *)
            (None,
             State (short_window st) (long_window st) (smooth_alpha st)
                   (Some es') None (prev_score st))
        | Some el =>
            let el' := (el + k_long * (close - el))%Q in
            let spread := (es' - el')%Q in
            (* Normalize momentum into [-1, +1] *)
            let raw_score := tanh (spread * 4)%Q in
            (* Smooth to avoid thrashing *)
            let score := (smooth_alpha st * raw_score
                          + (1 - smooth_alpha st) * prev_score st)%Q in
            (* Ignore tiny noise *)
            (Some (if Qltb (Qabs score) 0.10 then 0%Q else score),
             State (short_window st) (long_window st) (smooth_alpha st)
                   (Some es') (Some el') score)
        end
  end.

(** The scores of a run of closes, one call after the other. *)
Fixpoint scores (tanh : Q -> Q) (st : state) (closes : list Q)
  : list (option Q) * state :=
  match closes with
  | [] => ([], st)
  | c :: rest =>
      let '(s, st1) := score tanh st c in
      let '(ss, st2) := scores tanh st1 rest in
      (s :: ss, st2)
  end.

End MomentumStrategy.

Module MACDFibonacciStrategy.

Record state : Type := State {
  fast : Z;
  slow : Z;
  signal : Z;
  sensitivity : Q;                         (* scale hist response *)
  smooth_alpha : Q;                        (* score smoothing factor *)
  ema_fast : option Q;
  ema_slow : option Q;
  ema_signal : option Q;
  prev_score : Q
}.

(** [MACDFibonacciStrategy(fast, slow, signal, sensitivity, smooth_alpha)] *)
Definition init (fast slow signal : Z) (sensitivity alpha : Q) : state :=
  State fast slow signal sensitivity alpha None None None 0.

(** [score(candle)], [close] being [candle["close"]] *)
Definition score (tanh : Q -> Q) (st : state) (close : Q)
  : option Q * state :=
  match ema_fast st with
  | None =>
      (* Initialize EMAs on first update *)
      (Some 0%Q,
       State (fast st) (slow st) (signal st) (sensitivity st)
             (smooth_alpha st) (Some close) (Some close) (Some 0%Q)
             (prev_score st))
  | Some ef =>
      (* EMA coefficients *)
      if (fast st + 1 =? 0)%Z then (None, st)          (* ZeroDivisionError *)
      else if (slow st + 1 =? 0)%Z then (None, st)
      else if (signal st + 1 =? 0)%Z then (None, st)
      else
        let k_fast := (2 / inject_Z (fast st + 1))%Q in
        let k_slow := (2 / inject_Z (slow st + 1))%Q in
        let k_signal := (2 / inject_Z (signal st + 1))%Q in
        (* Update EMAs *)
        let ef' := (ef + k_fast * (close - ef))%Q in
        match ema_slow st with
        | None =>                                      (* TypeError *)
            (None,
             State (fast st) (slow st) (signal st) (sensitivity st)
                   (smooth_alpha st) (Some ef') None (ema_signal st)
                   (prev_score st))
        | Some es =>
            let es' := (es + k_slow * (close - es))%Q in
            let macd := (ef' - es')%Q in
            match ema_signal st with
            | None =>                                  (* TypeError *)
                (None,
                 State (fast st) (slow st) (signal st) (sensitivity st)
                       (smooth_alpha st) (Some ef') (Some es') None
                       (prev_score st))
            | Some sg =>
                let sg' := (sg + k_signal * (macd - sg))%Q in
                let hist := (macd - sg')%Q in
                (* Base signal (tanh normalization) *)
                let raw_score := tanh (hist * sensitivity st)%Q in
                (* Smooth the score to prevent flip-flop *)
                let score := (smooth_alpha st * raw_score
                              + (1 - smooth_alpha st) * prev_score st)%Q in
                (* Deadband: reduce noise near zero *)
                (Some (if Qltb (Qabs score) 0.10 then 0%Q else score),
                 State (fast st) (slow st) (signal st) (sensitivity st)
                       (smooth_alpha st) (Some ef') (Some es') (Some sg')
                       score)
            end
        end
  end.

(** The scores of a run of closes, one call after the other. *)
Fixpoint scores (tanh : Q -> Q) (st : state) (closes : list Q)
  : list (option Q) * state :=
  match closes with
  | [] => ([], st)
  | c :: rest =>
      let '(s, st1) := score tanh st c in
      let '(ss, st2) := scores tanh st1 rest in
      (s :: ss, st2)
  end.

End MACDFibonacciStrategy.

(** ** Concrete runs *)

Module Examples.
Import Events.

Definition two_digits (n : nat) : string :=
  String (ascii_of_nat (48 + n / 10))
         (String (ascii_of_nat (48 + n mod 10)) EmptyString).

(** The instant [secs] seconds after the epoch, for less than an hour. *)
Definition iso_of_secs (secs : nat) : string :=
  ("1970-01-01T00:" +:+ two_digits (secs / 60) +:+ ":" +:+
   two_digits (secs mod 60) +:+ "Z")%string.

Definition btc_tick (secs : nat) : tick :=
  Tick "BINANCE" "BTCUSDT" 100 1 (iso_of_secs secs).

(** The tick stamped [secs], taken from the queue [ms] milliseconds after
    the consumer started. *)
Definition arrive (ms : nat) (secs : nat) : Router.arrival :=
  Router.Arrival (btc_tick secs) (Z.of_nat ms # 1000) (Z.of_nat ms # 1000).

(** 102 ticks in 102 milliseconds: 51 ticks stamped 100 s to 150 s, then 51
    ticks stamped 0 s to 50 s. *)
Definition burst : list Router.arrival :=
  map (fun i => arrive i (100 + i)) (seq 0 51) ++
  map (fun i => arrive (51 + i) i) (seq 0 51).

(** Three ticks out of order, the third one after the window. *)
Definition trio : list Router.arrival :=
  [arrive 10 5; arrive 20 3; arrive 250 4].

(** Two listeners on a counter, as in [src/tests/test_event_bus.py], made
    to fail: each counts its call, then raises. *)
Definition sync_listener : EventBus.handler nat unit :=
  EventBus.Sync "sync_listener" (fun _ n => (S n, Some (HandlerError 1))).

Definition async_listener : EventBus.handler nat unit :=
  EventBus.Async "async_listener"
                 (fun _ n => EventBus.Done (S n) (Some (HandlerError 2))).

Definition sync_only_bus : gmap string (list (EventBus.handler nat unit)) :=
  EventBus.subscribe "MARKET_SNAPSHOT" sync_listener ∅.

Definition both_bus : gmap string (list (EventBus.handler nat unit)) :=
  EventBus.subscribe "MARKET_SNAPSHOT" sync_listener
    (EventBus.subscribe "MARKET_SNAPSHOT" async_listener ∅).

(** The pipeline with strategies that score 0 and a latency of 100 ms. *)
Definition flat_score (name : string) (c : Blender.candle) (a : unit)
  : option Q * unit := (Some 0%Q, a).

Definition latency_100ms (clock : Z) : Z := 100000%Z.

(** The offsets of two local zones: UTC, and New York around the start of
    daylight saving time in 2025 (clocks go from 02:00 EST to 03:00 EDT on
    9 March; [timestamp()] reads a wall clock in the skipped hour with the
    offset before the change). *)
Definition utc_zone (wall : Z) : Z := 0%Z.


Definition world0 : Pipeline.world unit :=
  Pipeline.World 0 utc_zone (Router.State ∅)
    (Aggregator.State [("1m", 60); ("5m", 300); ("1h", 3600)]%Z ∅)
    (Blender.init unit None true tt)
    (Ledger.init 100000 None)
    (Execution.init "paper" true 3 1).

Definition routed_bus
  : gmap string (list (EventBus.handler (Pipeline.world unit) payload)) :=
  Pipeline.routed_bus unit Iso.fromisoformat.

Definition engine_bus
  : gmap string (list (EventBus.handler (Pipeline.world unit) payload)) :=
  Pipeline.engine_bus unit flat_score latency_100ms.

Definition tick_at (iso : string) (price : Q) : tick :=
  Tick "BINANCE" "btcusdt" price 1 iso.

(** Two raw ticks, the later one published first. *)
Definition late_tick : tick := tick_at "2025-11-06T12:01:05.123Z" 101.
Definition early_tick : tick := tick_at "2025-11-06T12:00:59.900Z" 100.

(** The signal of the sizing scenario: a score of 0.8 at price 100. *)
Definition signal_08 : signal :=
  Signal "btcusdt" (Some "TARGET") (Some 0.8%Q) 100
         (Some {["scores" := VDict {["momentum" := 0.8%Q]}]})%string.


(** The same signal with a meta that holds no [scores]. *)
Definition signal_08_bare : signal :=
  Signal "btcusdt" (Some "TARGET") (Some 0.8%Q) 100
         (Some {["alpha" := VStr "momentum"]})%string.

(** A signal whose target is within the noise floor of an empty position. *)
Definition signal_faint : signal :=
  Signal "btcusdt" (Some "TARGET") (Some 0.03%Q) 101 None.

Definition ledger0 : Ledger.state := Ledger.init 100000 None.

(** 2025-11-06 12:01:05.123456 UTC. *)
Definition clock0 : Z := 1762430465123456%Z.



(** The fill of that order at 3 bps of slippage and 1 bp of commission. *)
Definition fill_08 : fill :=
  Fill "BTCUSDT" 0.008 "BUY" 100.03 1762430465223456 0.000080024
       "ORD-1762430465.123456"
       {["scores" := VDict {["momentum" := 0.8%Q]}]}%string.

(** Strategies that all score 0.03, and strategies that all score 0.5. *)
Definition faint_score (name : string) (c : Blender.candle) (a : unit)
  : option Q * unit := (Some 0.03%Q, a).

Definition keen_score (name : string) (c : Blender.candle) (a : unit)
  : option Q * unit := (Some 0.5%Q, a).

Definition blender0 : Blender.state unit := Blender.init unit None true tt.

(** The 12:01 one-minute bar of BTCUSDT, as the aggregator publishes it. *)
Definition btc_bar : snapshot :=
  Aggregator.snapshot_msg "BINANCE" "BTCUSDT"
    (Aggregator.Candle 1762430460000000 "1m" 100 101 99 100 1).

End Examples.

(** * Properties *)

(** ** Comparisons on rationals *)

Module NumFacts.

Lemma Qltb_true (a b : Q) : Qltb a b = true <-> (a < b)%Q.
Proof.
  unfold Qltb. rewrite negb_true_iff.
  split.
  - intros H. apply Qnot_le_lt. intros Hle.
    apply Qle_bool_iff in Hle. congruence.
  - intros H. destruct (Qle_bool b a) eqn:E; [|done].
    apply Qle_bool_iff in E. exfalso. by apply (Qlt_not_le a b).
Qed.

Lemma Qltb_false (a b : Q) : Qltb a b = false <-> (b <= a)%Q.
Proof.
  unfold Qltb. rewrite negb_false_iff. apply Qle_bool_iff.
Qed.

Lemma py_max_Qmax (a b : Q) : py_max a b = Qmax a b.
Proof.
  unfold py_max, Qmax, GenericMinMax.gmax.
  destruct (Qltb a b) eqn:E.
  - apply Qltb_true in E. by rewrite (proj1 (Qlt_alt a b) E).
  - apply Qltb_false in E. destruct (a ?= b)%Q eqn:C; try done.
    apply Qlt_alt in C. exfalso. by apply (Qlt_not_le a b).
Qed.

Lemma py_min_Qmin (a b : Q) : py_min a b = Qmin a b.
Proof.
  unfold py_min, Qmin, GenericMinMax.gmin.
  destruct (Qltb b a) eqn:E.
  - apply Qltb_true in E. by rewrite (proj1 (Qgt_alt a b) E).
  - apply Qltb_false in E. by destruct (a ?= b)%Q eqn:C.
Qed.

Lemma Qltb_ge (a b : Q) : Qltb a b = false -> (b <= a)%Q.
Proof. apply Qltb_false. Qed.

Lemma Qltb_lt (a b : Q) : Qltb a b = true -> (a < b)%Q.
Proof. apply Qltb_true. Qed.

#[export] Instance Qltb_proper : Proper (Qeq ==> Qeq ==> eq) Qltb.
Proof. intros a a' Ha b b' Hb. unfold Qltb. by rewrite Ha, Hb. Qed.

Lemma upper_ascii_idemp (c : ascii) : upper_ascii (upper_ascii c) = upper_ascii c.
Proof. by destruct c as [[] [] [] [] [] [] [] []]. Qed.

Lemma upper_idemp (s : string) : upper (upper s) = upper s.
Proof.
  induction s as [|c s IH]; simpl; [done|].
  by rewrite upper_ascii_idemp, IH.
Qed.

Lemma dd_get_fst {V : Type} (d : V) (k : string) (m : gmap string V) :
  fst (dd_get d k m) = default d (m !! k).
Proof. unfold dd_get. by destruct (m !! k). Qed.

(** A [defaultdict] read leaves every value as it was. *)
Lemma dd_get_snd {V : Type} (d : V) (k k' : string) (m : gmap string V) :
  default d (snd (dd_get d k m) !! k') = default d (m !! k').
Proof.
  unfold dd_get. destruct (m !! k) eqn:E; simpl; [done|].
  destruct (decide (k = k')) as [<-|Hne].
  - by rewrite lookup_insert_eq, E.
  - by rewrite lookup_insert_ne.
Qed.

End NumFacts.

(** ** The heap of [heapq]

    [le] is a total preorder on items and [good] a set of items on which
    [lt] never raises and agrees with [le].  On such items [heappush] and
    [heappop] return, keep the heap shape and keep the items; [heappop]
    returns a least item. *)

Module HeapqSpec.
Import Heapq.
Section HeapqSpec.
Context {A : Type}.
Variable lt : A -> A -> res bool.
Variable le : A -> A -> Prop.
Variable good : A -> Prop.
Hypothesis le_refl : forall a, le a a.
Hypothesis le_trans : forall a b c, le a b -> le b c -> le a c.
Hypothesis lt_good : forall a b, good a -> good b ->
  exists c : bool, lt a b = Ok c /\ (if c then le a b else le b a).

(** The pair (parent of [i], [i]) is in order. *)
Definition ok_at (l : list A) (i : nat) : Prop :=
  forall x p, l !! i = Some x -> l !! ((i - 1) / 2) = Some p -> le p x.

Definition heap_inv (l : list A) : Prop :=
  forall i, 0 < i -> ok_at l i.

(** A heap except around [pos]: every pair whose child is not [pos] is in
    order, and the parent of [pos] is below the children of [pos]. *)
Definition hole_inv (v : list A) (pos : nat) : Prop :=
  (forall i, 0 < i -> i <> pos -> ok_at v i) /\
  (0 < pos -> forall c x g, 0 < c -> (c - 1) / 2 = pos ->
     v !! c = Some x -> v !! ((pos - 1) / 2) = Some g -> le g x).

(** A heap except below [pos]: every pair whose parent is not [pos] is in
    order, and the parent of [pos] is below the children of [pos]. *)
Definition sink_inv (h : list A) (pos : nat) : Prop :=
  (forall i, 0 < i -> (i - 1) / 2 <> pos -> ok_at h i) /\
  (0 < pos -> forall c x g, 0 < c -> (c - 1) / 2 = pos ->
     h !! c = Some x -> h !! ((pos - 1) / 2) = Some g -> le g x).

Lemma lookup_ins (l : list A) (i j : nat) (x : A) :
  i < length l ->
  <[i:=x]> l !! j = if decide (j = i) then Some x else l !! j.
Proof.
  intros Hi. destruct (decide (j = i)) as [->|Hne].
  - by apply list_lookup_insert_eq.
  - by apply list_lookup_insert_ne.
Qed.

Lemma getitem_lt (l : list A) (i : nat) :
  i < length l -> exists x, l !! i = Some x /\ getitem l i = Ok x.
Proof.
  intros Hi. destruct (lookup_lt_is_Some_2 l i Hi) as [x Hx].
  exists x. unfold getitem. by rewrite Hx.
Qed.

Lemma insert_Permutation_delete (l : list A) (i : nat) (x : A) :
  i < length l -> <[i:=x]> l ≡ₚ x :: delete i l.
Proof.
  revert i. induction l as [|a l IH]; intros [|i] Hi; simpl in *; try lia.
  - done.
  - rewrite (IH i) by lia. apply perm_swap.
Qed.

(** Moving the item at [j] to [i] and writing [x] at [j] is, up to order,
    writing [x] at [i]. *)
Lemma move_Permutation (l : list A) (i j : nat) (x b : A) :
  i <> j -> i < length l -> l !! j = Some b ->
  <[j:=x]> (<[i:=b]> l) ≡ₚ <[i:=x]> l.
Proof.
  intros Hij Hi Hj.
  assert (Hjl : j < length l) by (by eapply lookup_lt_Some).
  rewrite (insert_Permutation_delete (<[i:=b]> l) j x)
    by (by rewrite length_insert).
  rewrite (insert_Permutation_delete l i x) by done.
  apply Permutation_cons; [done|].
  apply (Permutation_cons_inv (a := b)).
  rewrite <- (insert_Permutation_delete l i b) by done.
  symmetry. apply delete_Permutation.
  by rewrite list_lookup_insert_ne.
Qed.

Lemma Forall_good_insert (l : list A) (i : nat) (x : A) :
  Forall good l -> good x -> Forall good (<[i:=x]> l).
Proof. intros Hl Hx. by apply Forall_insert. Qed.

Lemma Forall_good_lookup (l : list A) (i : nat) (x : A) :
  Forall good l -> l !! i = Some x -> good x.
Proof. intros Hl Hi. by eapply Forall_lookup_1. Qed.

(** *** [_siftdown] *)

Lemma hole_inv_step (heap : list A) (newitem parent : A) (pos : nat) :
  0 < pos -> pos < length heap ->
  heap !! ((pos - 1) / 2) = Some parent ->
  le newitem parent ->
  hole_inv (<[pos:=newitem]> heap) pos ->
  hole_inv (<[(pos - 1) / 2:=newitem]> (<[pos:=parent]> heap)) ((pos - 1) / 2).
Proof.
  intros Hpos Hlen Hpar Hle [H1 H2].
  set (pp := (pos - 1) / 2) in *.
  assert (Hpp : pp < pos) by (subst pp; lia).
  assert (Lv : forall k, <[pos:=newitem]> heap !! k =
      if decide (k = pos) then Some newitem else heap !! k)
    by (intros k; by apply lookup_ins).
  assert (Lv1 : forall k, <[pp:=newitem]> (<[pos:=parent]> heap) !! k =
      if decide (k = pp) then Some newitem
      else if decide (k = pos) then Some parent else heap !! k).
  { intros k. rewrite lookup_ins by (rewrite length_insert; lia).
    destruct (decide (k = pp)); [done|]. by apply lookup_ins. }
  assert (Hvpp : <[pos:=newitem]> heap !! pp = Some parent).
  { rewrite Lv. destruct (decide (pp = pos)); [lia|done]. }
  split.
  - intros i Hi Hne x p Hx Hp. rewrite Lv1 in Hx, Hp.
    destruct (decide (i = pp)) as [|_]; [done|].
    destruct (decide (i = pos)) as [->|Hip].
    + fold pp in Hp. destruct (decide (pp = pp)); [|done].
      injection Hx as <-. injection Hp as <-. done.
    + assert (Hvi : <[pos:=newitem]> heap !! i = Some x).
      { rewrite Lv. by destruct (decide (i = pos)). }
      destruct (decide ((i - 1) / 2 = pp)) as [Epp|Npp].
      * injection Hp as <-. apply le_trans with parent; [done|].
        apply (H1 i Hi Hip); [done|]. by rewrite Epp.
      * destruct (decide ((i - 1) / 2 = pos)) as [Epos|Npos].
        -- injection Hp as <-. by apply (H2 Hpos i x parent Hi Epos).
        -- apply (H1 i Hi Hip); [done|]. rewrite Lv.
           by destruct (decide ((i - 1) / 2 = pos)).
  - intros Hpp0 c x g Hc Hcp Hx Hg. rewrite Lv1 in Hx, Hg.
    destruct (decide ((pp - 1) / 2 = pp)); [lia|].
    destruct (decide ((pp - 1) / 2 = pos)); [lia|].
    destruct (decide (c = pp)); [lia|].
    assert (Hg' : <[pos:=newitem]> heap !! ((pp - 1) / 2) = Some g).
    { rewrite Lv. by destruct (decide ((pp - 1) / 2 = pos)); [lia|]. }
    assert (Hgp : le g parent).
    { apply (H1 pp Hpp0); [lia|done|done]. }
    destruct (decide (c = pos)) as [->|Hcpos].
    + by injection Hx as <-.
    + apply le_trans with parent; [done|].
      apply (H1 c Hc Hcpos); [rewrite Lv; by destruct (decide (c = pos))|].
      by rewrite Hcp.
Qed.

Lemma siftdown_loop_spec (fuel : nat) :
  forall (heap : list A) (newitem : A) (pos : nat),
    pos <= fuel -> pos < length heap ->
    Forall good heap -> good newitem ->
    hole_inv (<[pos:=newitem]> heap) pos ->
    exists l', siftdown_loop lt fuel heap newitem 0 pos = Ok l' /\
               heap_inv l' /\ Forall good l' /\
               l' ≡ₚ <[pos:=newitem]> heap.
Proof.
  induction fuel as [|fuel IH]; intros heap newitem pos Hfuel Hlen Hg Hn Hinv.
  - assert (pos = 0) as -> by lia. simpl.
    exists (<[0:=newitem]> heap). split; [done|]. split; [|split].
    + intros i Hi. apply Hinv; lia.
    + by apply Forall_good_insert.
    + done.
  - simpl. destruct (decide (0 < pos)) as [Hpos|Hpos].
    + destruct (getitem_lt heap ((pos - 1) / 2)) as (parent & Hpar & ->);
        [lia|]. simpl.
      assert (Hgp : good parent) by (by eapply Forall_good_lookup).
      destruct (lt_good newitem parent Hn Hgp) as (c & -> & Hc). simpl.
      destruct c.
      * destruct (IH (<[pos:=parent]> heap) newitem ((pos - 1) / 2))
          as (l' & -> & Hh & Hgl & Hperm).
        -- lia.
        -- rewrite length_insert. lia.
        -- by apply Forall_good_insert.
        -- done.
        -- by apply hole_inv_step.
        -- exists l'. split; [done|]. split; [done|]. split; [done|].
           rewrite Hperm. apply move_Permutation; [lia|done|done].
      * exists (<[pos:=newitem]> heap). split; [done|]. split; [|split].
        -- intros i Hi. destruct (decide (i = pos)) as [->|Hne].
           ++ intros x p Hx Hp. rewrite lookup_ins in Hx, Hp by done.
              destruct (decide (pos = pos)); [|done].
              destruct (decide ((pos - 1) / 2 = pos)); [lia|].
              by simplify_eq.
           ++ by apply Hinv.
        -- by apply Forall_good_insert.
        -- done.
    + assert (pos = 0) as -> by lia.
      exists (<[0:=newitem]> heap). split; [done|]. split; [|split].
      * intros i Hi. apply Hinv; lia.
      * by apply Forall_good_insert.
      * done.
Qed.

Lemma siftdown_spec (heap : list A) (pos : nat) :
  pos < length heap -> Forall good heap -> hole_inv heap pos ->
  exists l', siftdown lt heap 0 pos = Ok l' /\
             heap_inv l' /\ Forall good l' /\ l' ≡ₚ heap.
Proof.
  intros Hlen Hg Hinv. unfold siftdown.
  destruct (getitem_lt heap pos Hlen) as (x & Hx & ->). simpl.
  assert (Hid : <[pos:=x]> heap = heap) by (by apply list_insert_id).
  destruct (siftdown_loop_spec pos heap x pos) as (l' & -> & ? & ? & Hp);
    try done.
  - by eapply Forall_good_lookup.
  - by rewrite Hid.
  - exists l'. by rewrite Hid in Hp.
Qed.

(** *** [_siftup] *)

Lemma sink_inv_step (h : list A) (pos c' : nat) (child : A) :
  pos < length h ->
  (c' = 2 * pos + 1 \/ c' = 2 * pos + 2) ->
  h !! c' = Some child ->
  (forall s y, (s = 2 * pos + 1 \/ s = 2 * pos + 2) -> h !! s = Some y ->
               le child y) ->
  sink_inv h pos ->
  sink_inv (<[pos:=child]> h) c'.
Proof.
  intros Hlen Hc' Hchild Hmin [S1 S2].
  assert (L1 : forall k, <[pos:=child]> h !! k =
      if decide (k = pos) then Some child else h !! k)
    by (intros k; by apply lookup_ins).
  split.
  - intros i Hi Hpar x p Hx Hp. rewrite L1 in Hx, Hp.
    destruct (decide (i = pos)) as [->|Hip].
    + injection Hx as <-.
      destruct (decide ((pos - 1) / 2 = pos)); [lia|].
      apply (S2 Hi c' child p); [lia|lia|done|done].
    + destruct (decide ((i - 1) / 2 = pos)) as [Epos|Npos].
      * injection Hp as <-. apply (Hmin i x); [lia|done].
      * by apply (S1 i Hi Npos).
  - intros Hc0 d x g Hd Hdp Hx Hg. rewrite L1 in Hx, Hg.
    destruct (decide (d = pos)); [lia|].
    destruct (decide ((c' - 1) / 2 = pos)); [|lia].
    injection Hg as <-.
    apply (S1 d Hd); [lia|done|]. by rewrite Hdp.
Qed.

Lemma siftup_loop_spec (fuel : nat) :
  forall (h : list A) (pos : nat) (newitem : A),
    length h <= fuel + pos -> pos < length h ->
    Forall good h -> good newitem -> sink_inv h pos ->
    exists h' pos',
      siftup_loop lt fuel h pos = Ok (h', pos') /\
      length h' = length h /\ pos' < length h /\ length h <= 2 * pos' + 1 /\
      Forall good h' /\ sink_inv h' pos' /\
      <[pos':=newitem]> h' ≡ₚ <[pos:=newitem]> h.
Proof.
  induction fuel as [|fuel IH]; intros h pos newitem Hfuel Hlen Hg Hn Hinv.
  - simpl. destruct (decide (2 * pos + 1 < length h)) as [Hc|Hc]; [lia|].
    exists h, pos. repeat split; try done; try lia; apply Hinv.
  - simpl. destruct (decide (2 * pos + 1 < length h)) as [Hc|Hc].
    + assert (Hsel : exists c' child,
          (if decide (2 * pos + 1 + 1 < length h)
           then l ← getitem h (2 * pos + 1);
                r ← getitem h (2 * pos + 1 + 1);
                c ← lt l r;
                mret (if (c : bool) then 2 * pos + 1 else 2 * pos + 1 + 1)
           else mret (2 * pos + 1)) = Ok c' /\
          (c' = 2 * pos + 1 \/ c' = 2 * pos + 2) /\
          h !! c' = Some child /\ getitem h c' = Ok child /\
          forall s y, (s = 2 * pos + 1 \/ s = 2 * pos + 2) ->
                      h !! s = Some y -> le child y).
      { destruct (getitem_lt h (2 * pos + 1) Hc) as (l & Hl & El).
        destruct (decide (2 * pos + 1 + 1 < length h)) as [Hr|Hr].
        - destruct (getitem_lt h (2 * pos + 1 + 1) Hr) as (r & Hrr & Er).
          rewrite El, Er. simpl.
          destruct (lt_good l r) as (c & -> & Hcmp);
            [by eapply Forall_good_lookup|by eapply Forall_good_lookup|].
          simpl. destruct c.
          + exists (2 * pos + 1), l. repeat split; try done; [lia|].
            intros s y [->| ->] Hy.
            * rewrite Hl in Hy. injection Hy as <-. apply le_refl.
            * replace (2 * pos + 2) with (2 * pos + 1 + 1) in Hy by lia.
              rewrite Hrr in Hy. by injection Hy as <-.
          + exists (2 * pos + 1 + 1), r. repeat split; try done; [lia|].
            intros s y [->| ->] Hy.
            * rewrite Hl in Hy. by injection Hy as <-.
            * replace (2 * pos + 2) with (2 * pos + 1 + 1) in Hy by lia.
              rewrite Hrr in Hy. injection Hy as <-. apply le_refl.
        - exists (2 * pos + 1), l. repeat split; try done; [lia|].
          intros s y [->| ->] Hy.
          + rewrite Hl in Hy. injection Hy as <-. apply le_refl.
          + apply lookup_lt_Some in Hy. lia. }
      destruct Hsel as (c' & child & -> & Hc' & Hchild & Eg & Hmin). simpl.
      rewrite Eg. simpl.
      assert (Hc'len : c' < length h) by (by eapply lookup_lt_Some).
      destruct (IH (<[pos:=child]> h) c' newitem)
        as (h' & pos' & -> & Hl' & Hp' & Hleaf & Hg' & Hs' & Hperm).
      * rewrite length_insert. lia.
      * by rewrite length_insert.
      * apply Forall_good_insert; [done|]. by eapply Forall_good_lookup.
      * done.
      * by apply sink_inv_step.
      * rewrite length_insert in *.
        exists h', pos'. repeat split; try done; try apply Hs'.
        rewrite Hperm. apply move_Permutation; [lia|done|done].
    + exists h, pos. repeat split; try done; try lia; apply Hinv.
Qed.

Lemma siftup_spec (h : list A) :
  0 < length h -> Forall good h -> sink_inv h 0 ->
  exists l', siftup lt h 0 = Ok l' /\
             heap_inv l' /\ Forall good l' /\ l' ≡ₚ h.
Proof.
  intros Hlen Hg Hinv. unfold siftup.
  destruct (getitem_lt h 0 Hlen) as (x & Hx & ->). simpl.
  assert (Hgx : good x) by (by eapply Forall_good_lookup).
  destruct (siftup_loop_spec (length h) h 0 x)
    as (h' & pos' & -> & Hl' & Hp' & Hleaf & Hg' & [S1 S2] & Hperm);
    try done; [lia|]. simpl.
  destruct (siftdown_spec (<[pos':=x]> h') pos')
    as (l' & -> & Hh & Hgl & Hpl).
  - rewrite length_insert. lia.
  - by apply Forall_good_insert.
  - assert (L : forall k, <[pos':=x]> h' !! k =
        if decide (k = pos') then Some x else h' !! k)
      by (intros k; apply lookup_ins; lia).
    split.
    + intros i Hi Hne y p Hy Hp. rewrite L in Hy, Hp.
      destruct (decide (i = pos')); [done|].
      destruct (decide ((i - 1) / 2 = pos')) as [E|N].
      * apply lookup_lt_Some in Hy. lia.
      * by apply (S1 i Hi N).
    + intros _ c y g Hc Hcp Hy _. rewrite L in Hy.
      destruct (decide (c = pos')); [lia|].
      apply lookup_lt_Some in Hy. lia.
  - exists l'. repeat split; try done.
    rewrite Hpl, Hperm. by rewrite list_insert_id.
Qed.

(** *** [heappush] and [heappop] *)

Lemma heappush_spec (l : list A) (x : A) :
  heap_inv l -> Forall good l -> good x ->
  exists l', heappush lt l x = Ok l' /\
             heap_inv l' /\ Forall good l' /\ l' ≡ₚ x :: l.
Proof.
  intros Hh Hg Hx. unfold heappush.
  destruct (siftdown_spec (l ++ [x]) (length l)) as (l' & -> & ? & ? & Hp).
  - rewrite length_app. simpl. lia.
  - apply Forall_app. split; [done|]. by apply Forall_singleton.
  - split.
    + intros i Hi Hne y p Hy Hp.
      assert (i < length l).
      { apply lookup_lt_Some in Hy. rewrite length_app in Hy. simpl in Hy. lia. }
      rewrite lookup_app_l in Hy, Hp by lia.
      by apply (Hh i Hi).
    + intros _ c y g Hc Hcp Hy _.
      apply lookup_lt_Some in Hy. rewrite length_app in Hy. simpl in Hy. lia.
  - exists l'. repeat split; try done.
    rewrite Hp. symmetry. apply Permutation_cons_append.
Qed.

Lemma root_minimal (l : list A) (r : A) :
  heap_inv l -> l !! 0 = Some r ->
  forall i x, l !! i = Some x -> le r x.
Proof.
  intros Hh Hr i. induction (lt_wf i) as [i _ IH]. intros x Hx.
  destruct (decide (i = 0)) as [->|Hi].
  - rewrite Hr in Hx. injection Hx as <-. apply le_refl.
  - assert (Hlt : (i - 1) / 2 < length l).
    { apply lookup_lt_Some in Hx. lia. }
    destruct (lookup_lt_is_Some_2 l _ Hlt) as [p Hp].
    apply le_trans with p.
    + apply (IH ((i - 1) / 2)); [lia|done].
    + apply (Hh i); [lia|done|done].
Qed.

Lemma heappop_spec (l : list A) :
  heap_inv l -> Forall good l -> l <> [] ->
  exists m l', heappop lt l = Ok (m, l') /\
               heap_inv l' /\ Forall good l' /\
               l ≡ₚ m :: l' /\ Forall (le m) l'.
Proof.
  intros Hh Hg Hne. unfold heappop.
  destruct (List.rev l) as [|lastelt rest_rev] eqn:Hrev.
  - apply (f_equal (@List.rev A)) in Hrev. rewrite List.rev_involutive in Hrev.
    done.
  - assert (Hl : l = List.rev rest_rev ++ [lastelt]).
    { apply (f_equal (@List.rev A)) in Hrev.
      by rewrite List.rev_involutive in Hrev. }
    destruct (List.rev rest_rev) as [|r tl] eqn:Hheap'.
    + exists lastelt, []. subst l. split; [done|]. split.
      { intros i Hi y p Hy. by rewrite lookup_nil in Hy. }
      split; [done|]. split; [done|]. by apply Forall_nil.
    + assert (Hmin : forall y, y ∈ l -> le r y).
      { intros y Hy. apply list_elem_of_lookup in Hy as [i Hi].
        eapply (root_minimal l r); [done| |done]. by subst l. }
      destruct (siftup_spec (<[0:=lastelt]> (r :: tl)))
        as (l' & -> & Hh' & Hg' & Hp').
      * simpl. lia.
      * apply Forall_good_insert.
        -- subst l. apply Forall_app in Hg as [Hg1 _]. exact Hg1.
        -- subst l. apply Forall_app in Hg as [_ Hlast].
           by inversion Hlast.
      * split; [|intros; lia].
        intros i Hi Hpar y p Hy Hp.
        rewrite list_lookup_insert_ne in Hy, Hp by lia.
        apply (Hh i Hi); subst l.
        -- by apply lookup_app_l_Some.
        -- by apply lookup_app_l_Some.
      * simpl in Hp'. exists r, l'. simpl.
        assert (Hperm : l ≡ₚ r :: l').
        { subst l. rewrite Hp'. simpl. apply Permutation_cons; [done|].
          symmetry. apply Permutation_cons_append. }
        repeat split; try done.
        apply Forall_forall. intros y Hy. apply Hmin.
        rewrite Hperm. by apply list_elem_of_further.
Qed.

End HeapqSpec.
End HeapqSpec.

(** ** The Stream Router *)

Module RouterSpec.
Import Events Router NumFacts.

(** Entries are ordered by their epoch. *)
Definition epoch_le (a b : entry) : Prop := (fst a <= fst b)%Q.

Lemma epoch_le_refl (a : entry) : epoch_le a a.
Proof. apply Qle_refl. Qed.

Lemma epoch_le_trans (a b c : entry) :
  epoch_le a b -> epoch_le b c -> epoch_le a c.
Proof. apply Qle_trans. Qed.

Lemma tick_eqb_refl (t : tick) : tick_eqb t t = true.
Proof.
  unfold tick_eqb. rewrite !String.eqb_refl, !Qeq_bool_refl. done.
Qed.

(** No two entries of [U] make [<] raise: entries with equal epochs carry
    equal ticks. *)
Definition no_clash (U : list entry) : Prop :=
  forall a b, a ∈ U -> b ∈ U -> (fst a == fst b)%Q ->
              tick_eqb (snd a) (snd b) = true.

(** The entries at two different positions have different epochs. *)
Definition distinct_epochs (U : list entry) : Prop :=
  forall i j a b, i <> j -> U !! i = Some a -> U !! j = Some b ->
                  ~ (fst a == fst b)%Q.

Lemma distinct_no_clash (U : list entry) : distinct_epochs U -> no_clash U.
Proof.
  intros Hd a b Ha Hb Heq.
  apply list_elem_of_lookup in Ha as [i Hi].
  apply list_elem_of_lookup in Hb as [j Hj].
  destruct (decide (i = j)) as [->|Hne].
  - rewrite Hi in Hj. injection Hj as <-. apply tick_eqb_refl.
  - exfalso. by apply (Hd i j a b).
Qed.

Lemma entry_lt_good (U : list entry) :
  no_clash U ->
  forall a b, a ∈ U -> b ∈ U ->
    exists c : bool, entry_lt a b = Ok c /\
                     (if c then epoch_le a b else epoch_le b a).
Proof.
  intros HU a b Ha Hb. unfold entry_lt, epoch_le.
  destruct (Qeq_bool (fst a) (fst b)) eqn:E.
  - apply Qeq_bool_iff in E. rewrite (HU a b Ha Hb E).
    exists false. split; [done|]. rewrite E. apply Qle_refl.
  - destruct (Qltb (fst a) (fst b)) eqn:L.
    + exists true. split; [done|]. apply Qlt_le_weak. by apply Qltb_true.
    + exists false. split; [done|]. by apply Qltb_false.
Qed.

Section WithUniverse.
Variable U : list entry.
Hypothesis HU : no_clash U.

Definition good (e : entry) : Prop := e ∈ U.

Abbreviation heap_inv := (HeapqSpec.heap_inv epoch_le).

Lemma flush_loop_spec (fuel : nat) :
  forall buf : list entry,
    length buf <= fuel -> heap_inv buf -> Forall good buf ->
    exists out, flush_loop fuel buf = Ok out /\
                StronglySorted epoch_le out /\ out ≡ₚ buf.
Proof.
  induction fuel as [|fuel IH]; intros buf Hlen Hh Hg.
  - destruct buf; [|simpl in Hlen; lia].
    exists []. repeat split; [constructor|done].
  - destruct buf as [|e0 buf0] eqn:Hbuf.
    { exists []. repeat split; [constructor|done]. }
    rewrite <- Hbuf in *.
    destruct (HeapqSpec.heappop_spec entry_lt epoch_le good
                epoch_le_refl epoch_le_trans (entry_lt_good U HU) buf)
      as (m & l' & Hpop & Hh' & Hg' & Hperm & Hmin); [done|done|by subst|].
    assert (Hl' : length l' <= fuel).
    { apply Permutation_length in Hperm. simpl in Hperm. lia. }
    destruct (IH l' Hl' Hh' Hg') as (out & Hout & Hs & Hp).
    exists (m :: out). subst buf. cbn [flush_loop].
    rewrite Hpop. simpl. rewrite Hout. simpl.
    split; [done|]. split.
    + constructor; [done|]. by rewrite Hp.
    + rewrite Hperm. by constructor.
Qed.

Lemma flush_buffer_spec (buf : list entry) :
  heap_inv buf -> Forall good buf ->
  exists out, flush_buffer buf = Ok out /\
              StronglySorted epoch_le out /\ out ≡ₚ buf.
Proof. intros. by apply flush_loop_spec. Qed.

Lemma heap_inv_nil : heap_inv [].
Proof. intros i Hi x p Hx. by rewrite lookup_nil in Hx. Qed.

Section WithConfig.
Variable fromisoformat : string -> option Z.
Variable buffer_ms : Q.

(** The heap entry the consumer builds for an arrival. *)
Definition entry_of (a : arrival) : entry :=
  (parse_epoch fromisoformat (tk_timestamp (arr_item a)) (arr_clock a),
   arr_item a).

(** Whether the flush test of the turn succeeds, for a buffer of [n] items
    after the push. *)
Definition flushes (last : Q) (a : arrival) (n : nat) : bool :=
  Qle_bool buffer_ms ((arr_now a - last) * 1000) || bool_decide (50 < n).

Lemma consumer_step_spec (st : consumer) (a : arrival) :
  heap_inv (buffer st) -> Forall good (buffer st) -> good (entry_of a) ->
  exists st' out,
    consumer_step fromisoformat buffer_ms st a = Ok (st', out) /\
    heap_inv (buffer st') /\ Forall good (buffer st') /\
    StronglySorted epoch_le out /\
    out ++ buffer st' ≡ₚ entry_of a :: buffer st /\
    (if flushes (last_flush st) a (S (length (buffer st)))
     then buffer st' = [] /\ last_flush st' = arr_now a
     else out = [] /\ last_flush st' = last_flush st).
Proof.
  intros Hh Hg Ha. unfold consumer_step.
  destruct (HeapqSpec.heappush_spec entry_lt epoch_le good
              epoch_le_trans (entry_lt_good U HU)
              (buffer st) (entry_of a) Hh Hg Ha)
    as (buf & Hpush & Hh' & Hg' & Hperm).
  fold (entry_of a). rewrite Hpush. simpl.
  assert (Hlen : length buf = S (length (buffer st))).
  { apply Permutation_length in Hperm. by simpl in Hperm. }
  unfold flushes. rewrite Hlen.
  destruct (Qle_bool buffer_ms ((arr_now a - last_flush st) * 1000)
            || bool_decide (50 < S (length (buffer st)))) eqn:Hf.
  - destruct (flush_buffer_spec buf Hh' Hg') as (out & -> & Hs & Hp).
    simpl. eexists _, out. split; [done|]. simpl.
    split; [apply heap_inv_nil|]. split; [done|]. split; [done|].
    split; [|done]. by rewrite app_nil_r, Hp.
  - eexists _, []. split; [done|]. simpl.
    repeat split; try done. constructor.
Qed.

Lemma run_consumer_spec (arrivals : list arrival) :
  forall st : consumer,
    heap_inv (buffer st) -> Forall good (buffer st) ->
    Forall (fun a => good (entry_of a)) arrivals ->
    exists st' outs,
      run_consumer fromisoformat buffer_ms st arrivals = Ok (st', outs) /\
      heap_inv (buffer st') /\ Forall good (buffer st') /\
      Forall (StronglySorted epoch_le) outs /\
      emitted outs ++ buffer st' ≡ₚ buffer st ++ map entry_of arrivals.
Proof.
  induction arrivals as [|a rest IH]; intros st Hh Hg Ha.
  - exists st, []. simpl. repeat split; try done.
    by rewrite app_nil_r.
  - apply Forall_cons in Ha as [Ha Hrest].
    destruct (consumer_step_spec st a Hh Hg Ha)
      as (st1 & out & Hstep & Hh1 & Hg1 & Hs1 & Hp1 & _).
    destruct (IH st1 Hh1 Hg1 Hrest) as (st2 & outs & Hrun & Hh2 & Hg2 & Hs2 & Hp2).
    exists st2, (out :: outs). simpl. rewrite Hstep. simpl. rewrite Hrun. simpl.
    repeat split; try done.
    + by constructor.
    + unfold emitted in *. simpl. rewrite <- app_assoc, Hp2.
      rewrite app_assoc, Hp1. simpl.
      by rewrite Permutation_middle.
Qed.

(** While the window has not elapsed and at most 50 items are buffered, no
    turn flushes: the items accumulate. *)
Lemma run_consumer_no_flush (pre : list arrival) :
  forall st : consumer,
    heap_inv (buffer st) -> Forall good (buffer st) ->
    Forall (fun a => good (entry_of a)) pre ->
    Forall (fun a => Qle_bool buffer_ms ((arr_now a - last_flush st) * 1000)
                     = false) pre ->
    length (buffer st) + length pre <= 50 ->
    exists st' outs,
      run_consumer fromisoformat buffer_ms st pre = Ok (st', outs) /\
      heap_inv (buffer st') /\ Forall good (buffer st') /\
      emitted outs = [] /\ last_flush st' = last_flush st /\
      buffer st' ≡ₚ buffer st ++ map entry_of pre.
Proof.
  induction pre as [|a rest IH]; intros st Hh Hg Ha Hw Hlen.
  - exists st, []. simpl. repeat split; try done. by rewrite app_nil_r.
  - apply Forall_cons in Ha as [Ha Hrest].
    apply Forall_cons in Hw as [Hw Hwrest].
    simpl in Hlen.
    destruct (consumer_step_spec st a Hh Hg Ha)
      as (st1 & out & Hstep & Hh1 & Hg1 & _ & Hp1 & Hfl).
    unfold flushes in Hfl. rewrite Hw in Hfl.
    rewrite bool_decide_eq_false_2 in Hfl by lia. simpl in Hfl.
    destruct Hfl as [-> Hlast]. simpl in Hp1.
    destruct (IH st1) as (st2 & outs & Hrun & Hh2 & Hg2 & He & Hl2 & Hp2);
      try done.
    + by rewrite Hlast.
    + apply Permutation_length in Hp1. simpl in Hp1. lia.
    + exists st2, ([] :: outs). simpl. rewrite Hstep. simpl.
      rewrite Hrun. simpl. repeat split; try done.
      * congruence.
      * rewrite Hp2, Hp1. simpl. by rewrite Permutation_middle.
Qed.

Lemma run_consumer_app (l1 l2 : list arrival) :
  forall st : consumer,
    run_consumer fromisoformat buffer_ms st (l1 ++ l2) =
    '(st1, o1) ← run_consumer fromisoformat buffer_ms st l1;
    '(st2, o2) ← run_consumer fromisoformat buffer_ms st1 l2;
    Ok (st2, o1 ++ o2).
Proof.
  induction l1 as [|a l1 IH]; intros st; simpl.
  - destruct (run_consumer fromisoformat buffer_ms st l2) as [[st2 o2]|e];
      done.
  - destruct (consumer_step fromisoformat buffer_ms st a) as [[st1 out]|e];
      [|done]. simpl. rewrite IH.
    destruct (run_consumer fromisoformat buffer_ms st1 l1) as [[st2 o1]|e];
      [|done]. simpl.
    destruct (run_consumer fromisoformat buffer_ms st2 l2) as [[st3 o2]|e];
      done.
Qed.

(** Items that arrive before the window has elapsed, at most 50 of them,
    followed by the item whose turn flushes: one flush, of all of them. *)
Lemma run_consumer_single_flush (start : Q) (pre : list arrival)
      (last : arrival) :
  Forall (fun a => good (entry_of a)) (pre ++ [last]) ->
  Forall (fun a => Qle_bool buffer_ms ((arr_now a - start) * 1000) = false)
         pre ->
  length pre <= 50 ->
  flushes start last (S (length pre)) = true ->
  exists outs,
    run_consumer fromisoformat buffer_ms (Consumer [] start) (pre ++ [last])
    = Ok (Consumer [] (arr_now last), outs) /\
    StronglySorted epoch_le (emitted outs) /\
    emitted outs ≡ₚ map entry_of (pre ++ [last]).
Proof.
  intros Hg Hw Hlen Hfl.
  apply Forall_app in Hg as [Hgpre Hglast].
  apply Forall_cons in Hglast as [Hglast _].
  destruct (run_consumer_no_flush pre (Consumer [] start) heap_inv_nil
              (Forall_nil_2 _) Hgpre Hw Hlen)
    as (st1 & o1 & Hrun1 & Hh1 & Hg1 & He1 & Hl1 & Hp1).
  simpl in Hl1, Hp1.
  destruct (consumer_step_spec st1 last Hh1 Hg1 Hglast)
    as (st2 & out & Hstep & _ & _ & Hs & Hp2 & Hfl2).
  assert (Hlen1 : length (buffer st1) = length pre).
  { apply Permutation_length in Hp1. by rewrite length_map in Hp1. }
  rewrite Hl1, Hlen1, Hfl in Hfl2. destruct Hfl2 as [Hb2 Hl2].
  assert (Hst2 : st2 = Consumer [] (arr_now last)).
  { destruct st2 as [b2 l2]. simpl in *. by subst. }
  exists (o1 ++ [out]).
  rewrite run_consumer_app, Hrun1. simpl. rewrite Hstep. simpl.
  rewrite Hst2. split; [done|].
  unfold emitted in *. rewrite concat_app, He1. simpl. rewrite app_nil_r.
  split; [done|].
  rewrite Hb2, app_nil_r in Hp2. rewrite Hp2, Hp1, map_app. simpl.
  by rewrite Permutation_cons_append.
Qed.

End WithConfig.
End WithUniverse.

End RouterSpec.

(** ** The Stream Router: ordering (C3) and equal timestamps (C9) *)

Module RouterClaims.
Import Events Router RouterSpec NumFacts.

(** A check of [distinct_epochs] that computes. *)
Fixpoint distinct_epochsb (U : list entry) : bool :=
  match U with
  | [] => true
  | a :: r =>
      forallb (fun b => negb (Qeq_bool (fst a) (fst b))) r
      && distinct_epochsb r
  end.

Lemma distinct_epochsb_sound (U : list entry) :
  distinct_epochsb U = true -> distinct_epochs U.
Proof.
  induction U as [|a r IH]; intros Hb i j x y Hne Hi Hj.
  - by rewrite lookup_nil in Hi.
  - simpl in Hb. apply andb_true_iff in Hb as [Hhead Htail].
    rewrite forallb_forall in Hhead.
    destruct i as [|i], j as [|j]; simpl in Hi, Hj.
    + done.
    + injection Hi as <-. intros Heq.
      assert (Hy : In y r).
      { apply list_elem_of_In. by eapply list_elem_of_lookup_2. }
      specialize (Hhead y Hy). apply negb_true_iff in Hhead.
      apply Qeq_bool_neq in Hhead. done.
    + injection Hj as <-. intros Heq.
      assert (Hx : In x r).
      { apply list_elem_of_In. by eapply list_elem_of_lookup_2. }
      specialize (Hhead x Hx). apply negb_true_iff in Hhead.
      apply Qeq_bool_neq in Hhead. apply Hhead. by symmetry.
    + apply (IH Htail i j x y); [lia|done|done].
Qed.

Lemma good_arrivals (fromisoformat : string -> option Z)
      (arrivals : list arrival) :
  Forall (fun a => good (map (entry_of fromisoformat) arrivals)
                        (entry_of fromisoformat a)) arrivals.
Proof.
  apply Forall_forall. intros a Ha. unfold good.
  apply list_elem_of_fmap. by exists a.
Qed.

(** C3 (as amended).  Whatever the arrivals, as long as no comparison of two
    buffered entries raises: the consumer returns; every flush publishes the
    entries buffered since the flush before in non-decreasing order of
    timestamp, and loses none; and when the arrivals are at most 50 items
    that come before the buffer window since the last flush has elapsed,
    followed by the item whose turn flushes, what the router publishes for
    the whole sequence is non-decreasing in timestamp. *)
Theorem C3_each_flush_is_sorted (fromisoformat : string -> option Z)
        (buffer_ms start : Q) (arrivals : list arrival) :
  no_clash (map (entry_of fromisoformat) arrivals) ->
  exists st outs,
    run_consumer fromisoformat buffer_ms (Consumer [] start) arrivals
    = Ok (st, outs) /\
    Forall (StronglySorted epoch_le) outs /\
    emitted outs ++ buffer st ≡ₚ map (entry_of fromisoformat) arrivals /\
    (forall pre last,
        arrivals = pre ++ [last] ->
        Forall (fun a => Qle_bool buffer_ms ((arr_now a - start) * 1000)
                         = false) pre ->
        length pre <= 50 ->
        flushes buffer_ms start last (S (length pre)) = true ->
        buffer st = [] /\ StronglySorted epoch_le (emitted outs)).
Proof.
  intros HU.
  destruct (run_consumer_spec _ HU fromisoformat buffer_ms arrivals
              (Consumer [] start) (heap_inv_nil) (Forall_nil_2 _)
              (good_arrivals fromisoformat arrivals))
    as (st & outs & Hrun & _ & _ & Hs & Hp).
  exists st, outs. split; [done|]. split; [done|]. split; [done|].
  intros pre last -> Hw Hlen Hfl.
  destruct (run_consumer_single_flush _ HU fromisoformat buffer_ms start
              pre last (good_arrivals fromisoformat (pre ++ [last]))
              Hw Hlen Hfl)
    as (outs' & Hrun' & Hs' & _).
  rewrite Hrun in Hrun'. injection Hrun' as -> ->. done.
Qed.

(** The claim fails on a burst: 102 ticks of one symbol arrive within 102 ms
    (inside the 200 ms window), none of them malformed, no two with the same
    timestamp; the 51st buffered item forces a flush, and the router
    publishes the tick stamped 150 s and then the tick stamped 0 s. *)
Lemma C3_burst_is_not_sorted :
  forallb (fun a => Qltb ((arr_now a - 0) * 1000) 200) Examples.burst = true /\
  distinct_epochsb (map (entry_of Iso.fromisoformat) Examples.burst) = true /\
  exists st outs e1 e2,
    run_consumer Iso.fromisoformat 200 (Consumer [] 0) Examples.burst
    = Ok (st, outs) /\
    emitted outs !! 50 = Some e1 /\ emitted outs !! 51 = Some e2 /\
    fst e1 = timestamp 150000000 /\ fst e2 = timestamp 0 /\
    Qltb (fst e2) (fst e1) = true.
Proof.
  split; [by vm_compute|]. split; [by vm_compute|].
  eexists _, _, _, _.
  split; [vm_compute; reflexivity|].
  split; [vm_compute; reflexivity|].
  split; [vm_compute; reflexivity|].
  by vm_compute.
Qed.

Lemma C3_each_flush_is_sorted_witness :
  exists st outs,
    run_consumer Iso.fromisoformat 200 (Consumer [] 0) Examples.trio
    = Ok (st, outs) /\
    Forall (StronglySorted epoch_le) outs /\
    emitted outs ++ buffer st
      ≡ₚ map (entry_of Iso.fromisoformat) Examples.trio /\
    (forall pre last,
        Examples.trio = pre ++ [last] ->
        Forall (fun a => Qle_bool 200 ((arr_now a - 0) * 1000) = false) pre ->
        length pre <= 50 ->
        flushes 200 0 last (S (length pre)) = true ->
        buffer st = [] /\ StronglySorted epoch_le (emitted outs)).
Proof.
  apply (C3_each_flush_is_sorted Iso.fromisoformat 200 0 Examples.trio).
  apply distinct_no_clash, distinct_epochsb_sound. vm_compute. reflexivity.
Defined.









Section Stamped.
Variable fromisoformat : string -> option Z.
Variable buffer_ms : Q.





End Stamped.




End RouterClaims.

(** ** The Candlestick Aggregator: closed candles (C4) *)

Module AggregatorClaims.
Import Events Aggregator.

(** The shape of a candle: the high is above the open and the close, the
    low below them. *)
Definition ohlc_ok (c : candle) : Prop :=
  (c_open c <= c_high c)%Q /\ (c_close c <= c_high c)%Q /\
  (c_low c <= c_open c)%Q /\ (c_low c <= c_close c)%Q.

Definition buffers_ok (b : gmap string (gmap string (list candle))) : Prop :=
  forall symbol per tf buf,
    b !! symbol = Some per -> per !! tf = Some buf -> Forall ohlc_ok buf.

Lemma py_max_l (a b : Q) : (a <= py_max a b)%Q.
Proof.
  unfold py_max. destruct (Qltb a b) eqn:E.
  - apply Qlt_le_weak. by apply NumFacts.Qltb_true.
  - apply Qle_refl.
Qed.

Lemma py_max_r (a b : Q) : (b <= py_max a b)%Q.
Proof.
  unfold py_max. destruct (Qltb a b) eqn:E.
  - apply Qle_refl.
  - by apply NumFacts.Qltb_false.
Qed.

Lemma py_min_l (a b : Q) : (py_min a b <= a)%Q.
Proof.
  unfold py_min. destruct (Qltb b a) eqn:E.
  - apply Qlt_le_weak. by apply NumFacts.Qltb_true.
  - apply Qle_refl.
Qed.

Lemma py_min_r (a b : Q) : (py_min a b <= b)%Q.
Proof.
  unfold py_min. destruct (Qltb b a) eqn:E.
  - apply Qle_refl.
  - by apply NumFacts.Qltb_false.
Qed.

Lemma insert_last {A : Type} (l : list A) (x y : A) :
  <[length (l ++ [x]) - 1 := y]> (l ++ [x]) = l ++ [y].
Proof.
  rewrite length_app. simpl.
  replace (length l + 1 - 1) with (length l + 0) by lia.
  by rewrite insert_app_r.
Qed.

Lemma update_one_ok (b : gmap string (gmap string (list candle)))
      (symbol tf : string) (secs : Z) (price volume : Q) (ts : Z)
      (b' : gmap string (gmap string (list candle))) (closed : list candle) :
  buffers_ok b ->
  update_one b symbol tf secs price volume ts = Ok (b', closed) ->
  buffers_ok b' /\ Forall ohlc_ok closed.
Proof.
  intros Hb. unfold update_one.
  destruct (get_bucket_start ts secs) as [start|e]; [|done]. simpl.
  set (per := default ∅ (b !! symbol)).
  set (buf := default [] (per !! tf)).
  assert (Hbuf : Forall ohlc_ok buf).
  { subst buf per. destruct (b !! symbol) as [per|] eqn:Es; simpl.
    - destruct (per !! tf) as [buf|] eqn:Et; simpl; [|constructor].
      by apply (Hb symbol per tf buf).
    - rewrite lookup_empty. constructor. }
  assert (Hper : forall tf' buf', per !! tf' = Some buf' -> Forall ohlc_ok buf').
  { intros tf' buf' H'. subst per.
    destruct (b !! symbol) as [per|] eqn:Es; simpl in H'.
    - by apply (Hb symbol per tf' buf').
    - by rewrite lookup_empty in H'. }
  assert (Hstore : forall nb, Forall ohlc_ok nb ->
             buffers_ok (<[symbol:=<[tf:=nb]> per]> b)).
  { intros nb Hnb s p t bf Hs Ht.
    destruct (decide (symbol = s)) as [<-|Hne].
    - rewrite lookup_insert_eq in Hs. injection Hs as <-.
      destruct (decide (tf = t)) as [<-|Hnt].
      + rewrite lookup_insert_eq in Ht. by injection Ht as <-.
      + rewrite lookup_insert_ne in Ht by done. by apply (Hper t).
    - rewrite lookup_insert_ne in Hs by done. by apply (Hb s p t bf). }
  assert (Hfresh : ohlc_ok (Candle start tf price price price price volume)).
  { repeat split; apply Qle_refl. }
  destruct (last buf) as [bar|] eqn:Hlast.
  - apply last_Some in Hlast as [l' Hl'].
    assert (Hbar : ohlc_ok bar).
    { rewrite Hl' in Hbuf. apply Forall_app in Hbuf as [_ Hb1].
      by apply Forall_cons in Hb1 as [? _]. }
    assert (Hl'ok : Forall ohlc_ok l').
    { rewrite Hl' in Hbuf. by apply Forall_app in Hbuf as [? _]. }
    rewrite Hl', !insert_last.
    destruct (bool_decide (c_start bar <> start)).
    + assert (Hclosed : ohlc_ok (Candle (c_start bar) tf (c_open bar)
                (c_high bar) (c_low bar) (c_close bar) (c_volume bar)))
        by exact Hbar.
      intros [= <- <-]. split.
      * apply Hstore. apply Forall_app. split.
        -- apply Forall_app. split; [done|]. by apply Forall_cons.
        -- by apply Forall_cons.
      * by apply Forall_cons.
    + intros [= <- <-]. split; [|constructor].
      apply Hstore. apply Forall_app. split; [done|].
      apply Forall_cons. split; [|constructor].
      destruct Hbar as (Ho & Hc & Hlo & Hlc).
      unfold ohlc_ok. simpl. split; [|split; [|split]].
      * eapply Qle_trans; [exact Ho|apply py_max_l].
      * apply py_max_r.
      * eapply Qle_trans; [apply py_min_l|exact Hlo].
      * apply py_min_r.
  - intros [= <- <-]. split; [|constructor].
    apply Hstore. by apply Forall_cons.
Qed.

Lemma update_loop_ok (tfs : list (string * Z)) :
  forall (b : gmap string (gmap string (list candle))) (symbol : string)
         (price volume : Q) (ts : Z) (finished : list candle),
    buffers_ok b -> Forall ohlc_ok finished ->
    buffers_ok (fst (update_loop tfs b symbol price volume ts finished)) /\
    forall out,
      snd (update_loop tfs b symbol price volume ts finished) = Ok out ->
      Forall ohlc_ok out.
Proof.
  induction tfs as [|[tf secs] r IH]; intros b symbol price volume ts fin Hb Hf.
  - simpl. split; [done|]. by intros out [= <-].
  - simpl.
    destruct (update_one b symbol tf secs price volume ts)
      as [[b' closed]|e] eqn:E.
    + destruct (update_one_ok _ _ _ _ _ _ _ _ _ Hb E) as [Hb' Hc].
      apply IH; [done|]. apply Forall_app. by split.
    + simpl. by split.
Qed.

(** Every candle [update_tick] returns as finished has the shape of a
    candle, and the buffers keep it. *)
Lemma update_tick_ok (st : state) (symbol : string) (price volume : Q)
      (ts : Z) :
  buffers_ok (buffers st) ->
  buffers_ok (buffers (fst (update_tick st symbol price volume ts))) /\
  forall out, snd (update_tick st symbol price volume ts) = Ok out ->
              Forall ohlc_ok out.
Proof.
  intros Hb. unfold update_tick.
  destruct (update_loop_ok (timeframes st) (buffers st) symbol price volume
              ts [] Hb (Forall_nil_2 _)) as [H1 H2].
  destruct (update_loop (timeframes st) (buffers st) symbol price volume ts [])
    as [b' r]. simpl in *. by split.
Qed.

(** The bucket start is the multiple of the timeframe at or before the
    tick when the timeframe is a number of minutes that divides the hour. *)
Lemma get_bucket_start_aligned (ts secs : Z) :
  (0 < secs)%Z -> (60 | secs)%Z -> (secs | 3600)%Z ->
  exists b, get_bucket_start ts secs = Ok b /\
            (secs * 1000000 | b)%Z /\
            (b <= ts < b + secs * 1000000)%Z.
Proof.
  intros Hpos [s' Hs'] [k Hk]. unfold get_bucket_start.
  destruct (secs =? 0)%Z eqn:E0; [lia|].
  eexists. split; [reflexivity|].
  unfold dt_minute, dt_second, dt_replace_second0.
  set (M := (ts / 60000000)%Z).
  assert (Hts : (ts - ts mod 60000000 = 60000000 * M)%Z).
  { subst M. pose proof (Z.div_mod ts 60000000). lia. }
  rewrite Hts.
  replace (60000000 * M / 60000000)%Z with M
    by (symmetry; rewrite Z.mul_comm; apply Z.div_mul; lia).
  replace (60000000 * M / 1000000)%Z with (60 * M)%Z
    by (replace (60000000 * M)%Z with ((60 * M) * 1000000)%Z by lia;
        symmetry; apply Z.div_mul; lia).
  replace ((60 * M) mod 60)%Z with 0%Z
    by (symmetry; rewrite Z.mul_comm; apply Z.mod_mul; lia).
  rewrite Z.add_0_r.
  set (m := (M mod 60)%Z).
  set (H := (M / 60)%Z).
  assert (HM : (M = 60 * H + m)%Z) by (subst H m; apply Z.div_mod; lia).
  set (d := ((m * 60) mod secs)%Z).
  set (q := ((m * 60) / secs)%Z).
  assert (Hd : (m * 60 = secs * q + d)%Z) by (subst q d; apply Z.div_mod; lia).
  assert (Hdb : (0 <= d < secs)%Z) by (subst d; apply Z.mod_pos_bound; lia).
  assert (Hr : (0 <= ts mod 60000000 < 60000000)%Z)
    by (apply Z.mod_pos_bound; lia).
  assert (Hd60 : (d = 60 * (m - s' * q))%Z) by nia.
  assert (Hroom : (d + 60 <= secs)%Z) by nia.
  split.
  - exists (k * H + q)%Z. nia.
  - nia.
Qed.

(** C4, on a two-hour timeframe.  [_parse_timeframes] accepts ["2h"] (7200
    seconds); a tick at 13:30:00 opens a candle and a tick at 14:10:00 closes
    it; the closed candle is published with [bucket_start] 13:00:00, which is
    3600 s past a multiple of 7200 s since the epoch. *)
Theorem C4_two_hour_bucket_is_not_aligned :
  exists st0 st1 st2 c,
    init ["2h"%string] = Ok st0 /\
    timeframes st0 = [("2h"%string, 7200%Z)] /\
    on_tick Iso.fromisoformat st0
            (Examples.tick_at "2025-11-06T13:30:00Z" 100)
    = Reaction st1 [] Propagate None /\
    on_tick Iso.fromisoformat st1
            (Examples.tick_at "2025-11-06T14:10:00Z" 101)
    = Reaction st2
        [("MARKET_SNAPSHOT"%string,
          PSnapshot (snapshot_msg "BINANCE" "BTCUSDT" c))]
        Propagate None /\
    c_tf c = "2h"%string /\
    Iso.fromisoformat "2025-11-06T13:00:00+00:00" = Some (c_start c) /\
    (c_start c mod (7200 * 1000000) = 3600 * 1000000)%Z.
Proof.
  eexists _, _, _, (Candle 1762434000000000 "2h" 100 100 100 100 1).
  split; [vm_compute; reflexivity|].
  split; [reflexivity|].
  split; [vm_compute; reflexivity|].
  split; [vm_compute; reflexivity|].
  split; [reflexivity|].
  split; [vm_compute; reflexivity|].
  reflexivity.
Qed.

End AggregatorClaims.

(** ** The Event Bus: a handler that raises (C1) *)

Module EventBusClaims.
Import EventBus.

Section Facts.
Context {W P : Type}.

Lemma call_loop_tasks (callbacks : list (handler W P)) :
  forall (data : P) (w : W) (tasks : list (P -> W -> prog W P)),
    snd (call_loop callbacks data w tasks) = tasks ++ coroutines callbacks.
Proof.
  induction callbacks as [|cb rest IH]; intros data w tasks; simpl.
  - by rewrite app_nil_r.
  - destruct cb as [name f|name f].
    + destruct (f data w) as [w' e]. apply IH.
    + rewrite IH. by rewrite <- app_assoc.
Qed.

Lemma first_exn_raised (es : list (option exn)) (i : nat) (e : exn) :
  es !! i = Some (Some e) -> exists e', first_exn es = Some e'.
Proof.
  revert i. induction es as [|x es IH]; intros i Hi.
  - by rewrite lookup_nil in Hi.
  - destruct x as [e0|]; simpl; [by exists e0|].
    destruct i as [|i]; simpl in Hi; [done|]. by apply (IH i).
Qed.

Lemma first_exn_none (es : list (option exn)) :
  first_exn es = None <-> Forall (fun x => x = None) es.
Proof.
  induction es as [|x es IH]; simpl.
  - split; [constructor|done].
  - destruct x as [e|].
    + split; [done|]. intros H. by apply Forall_cons in H as [? _].
    + rewrite IH. split.
      * intros H. by constructor.
      * intros H. by apply Forall_cons in H as [_ ?].
Qed.

Lemma coroutines_sync_only (callbacks : list (handler W P)) :
  Forall (fun h => iscoroutinefunction h = false) callbacks ->
  coroutines callbacks = [].
Proof.
  induction 1 as [|h rest Hh _ IH]; [done|].
  destruct h; simpl in *; [done|discriminate].
Qed.

Lemma gather_results_length (rec : string -> P -> W ->
                                   option (W * list (string * P) * option exn))
      (tasks : list (P -> W -> prog W P)) :
  forall data w w' tr es,
    gather_results rec tasks data w = Some (w', tr, es) ->
    length es = length tasks.
Proof.
  induction tasks as [|f rest IH]; intros data w w' tr es; simpl.
  - by intros [= _ _ <-].
  - destruct (run rec (f data w)) as [[[w1 tr1] e1]|]; [|done].
    destruct (gather_results rec rest data w1) as [[[w2 tr2] es2]|] eqn:E;
      [|done].
    intros [= _ _ <-]. simpl. f_equal. by eapply IH.
Qed.

(** C1 (as amended).  A call of [publish] that returns or raises leaves
    the subscriber table as it was.  The synchronous subscribers run first,
    and what they raise is dropped; then the coroutines of the subscribed
    coroutine functions run, in subscription order, and the exception that
    reaches the caller of [publish] is the first one a coroutine ended with:
    if some coroutine raised, [publish] raises, and with synchronous
    subscribers only it never does. *)
Theorem C1_coroutine_exception_propagates
        (fuel : nat) (b : gmap string (list (handler W P)))
        (topic : string) (data : P) (w : W) (o : outcome W P) :
  publish fuel b topic data w = Some o ->
  out_bus o = b /\
  subscribers (out_bus o) topic = subscribers b topic /\
  exists fuel' w1 tr es,
    fuel = S fuel' /\
    call_loop (subscribers b topic) data w []
    = (w1, coroutines (subscribers b topic)) /\
    gather_results (publish_in fuel' b) (coroutines (subscribers b topic))
                   data w1 = Some (out_state o, tr, es) /\
    length es = length (coroutines (subscribers b topic)) /\
    out_trace o = (topic, data) :: tr /\
    out_exn o = first_exn es /\
    (forall i e, es !! i = Some (Some e) -> exists e', out_exn o = Some e') /\
    (Forall (fun h => iscoroutinefunction h = false) (subscribers b topic) ->
     out_exn o = None).
Proof.
  unfold publish. destruct fuel as [|fuel']; [done|]. simpl.
  unfold publish_body.
  pose proof (call_loop_tasks (subscribers b topic) data w []) as Htasks.
  destruct (call_loop (subscribers b topic) data w []) as [w1 tasks] eqn:Hloop.
  simpl in Htasks. subst tasks.
  assert (Hres :
    match subscribers b topic with
    | [] => Some (w, [], None)
    | _ :: _ =>
        match coroutines (subscribers b topic) with
        | [] => Some (w1, [], None)
        | _ :: _ => gather (publish_in fuel' b)
                           (coroutines (subscribers b topic)) data w1
        end
    end = match gather_results (publish_in fuel' b)
                  (coroutines (subscribers b topic)) data w1 with
          | Some (w', tr', es') => Some (w', tr', first_exn es')
          | None => None
          end).
  { destruct (subscribers b topic) as [|h rest] eqn:Hs.
    - simpl in Hloop. injection Hloop as <-. done.
    - destruct (coroutines (h :: rest)) eqn:Hc; [done|]. done. }
  destruct (subscribers b topic) as [|h rest] eqn:Hs.
  - simpl in *. injection Hloop as <-. intros [= <-]. simpl.
    split; [done|]. split; [done|].
    exists fuel', w, [], []. split; [done|]. split; [done|].
    split; [done|]. split; [done|]. split; [done|]. split; [done|].
    split; [|done]. intros i e Hi. by rewrite lookup_nil in Hi.
  - rewrite Hloop, Hres.
    destruct (gather_results (publish_in fuel' b) (coroutines (h :: rest))
                data w1) as [[[w' tr'] es']|] eqn:Hg; [|done].
    intros [= <-]. simpl. split; [done|]. split; [done|].
    exists fuel', w1, tr', es'. split; [done|]. split; [done|].
    split; [done|]. split; [by eapply gather_results_length|].
    split; [done|]. split; [done|]. split.
    + intros i e Hi. by eapply first_exn_raised.
    + intros Hsync. rewrite (coroutines_sync_only _ Hsync) in Hg.
      simpl in Hg. by injection Hg as _ _ <-.
Qed.

End Facts.

(** The claim fails for a synchronous subscriber: [sync_listener] raises
    when it is called, and the call of [publish] that calls it returns
    without an exception. *)
Lemma C1_sync_exception_is_swallowed :
  subscribers Examples.sync_only_bus "MARKET_SNAPSHOT"
  = [Examples.sync_listener] /\
  Examples.sync_listener
  = Sync "sync_listener" (fun _ n => (S n, Some (HandlerError 1))) /\
  exists o,
    publish 1 Examples.sync_only_bus "MARKET_SNAPSHOT" tt 0 = Some o /\
    out_state o = 1 /\ out_exn o = None.
Proof.
  split; [by vm_compute|]. split; [done|].
  eexists. split; [vm_compute; reflexivity|]. by split.
Qed.

Lemma C1_coroutine_exception_propagates_witness :
  exists o,
    publish 1 Examples.both_bus "MARKET_SNAPSHOT" tt 0 = Some o /\
    out_bus o = Examples.both_bus /\
    out_state o = 2 /\ out_exn o = Some (HandlerError 2).
Proof.
  assert (H : publish 1 Examples.both_bus "MARKET_SNAPSHOT" tt 0
              = Some (Outcome Examples.both_bus 2
                        [("MARKET_SNAPSHOT"%string, tt)]
                        (Some (HandlerError 2)))) by (vm_compute; reflexivity).
  eexists. split; [exact H|].
  destruct (C1_coroutine_exception_propagates 1 Examples.both_bus
              "MARKET_SNAPSHOT" tt 0 _ H) as (Hb & _).
  split; [exact Hb|]. by split.
Defined.

End EventBusClaims.

(** ** The wiring of router and aggregator (C2) *)

Module WiringClaims.
Import Events EventBus.

(** [publish] is [publish_in] with the subscriber table put back. *)
Lemma publish_of_in {W P : Type} (fuel : nat)
      (b : gmap string (list (handler W P))) (topic : string) (data : P)
      (w w' : W) (tr : list (string * P)) (e : option Py.exn) :
  publish_in fuel b topic data w = Some (w', tr, e) ->
  publish fuel b topic data w = Some (Outcome b w' tr e).
Proof. intros H. unfold publish. by rewrite H. Qed.

(** C2, on a bus where both the router and the aggregator were constructed.
    The aggregator's handler is subscribed to [RAW_MARKET], next to the
    router's, and [ORDERED_MARKET], where the router publishes, has no
    subscriber.  A raw tick stamped 12:01:05 and then a raw tick stamped
    12:00:59 are published: the aggregator handles each at once, in this
    order (on the second it closes and publishes the 12:01 candle), while
    both ticks still wait in the router's queue; an event the router
    publishes on [ORDERED_MARKET] reaches no handler. *)
Theorem C2_aggregator_handles_raw_ticks :
  map handler_name (subscribers Examples.routed_bus "RAW_MARKET")
  = ["StreamRouter.on_raw"; "CandlestickAggregator.on_tick"]%string /\
  subscribers Examples.routed_bus "ORDERED_MARKET" = [] /\
  exists o1 o2 c,
    publish 2 Examples.routed_bus "RAW_MARKET" (PTick Examples.late_tick)
            Examples.world0 = Some o1 /\
    out_trace o1 = [("RAW_MARKET"%string, PTick Examples.late_tick)] /\
    publish 2 Examples.routed_bus "RAW_MARKET" (PTick Examples.early_tick)
            (out_state o1) = Some o2 /\
    out_trace o2
    = [("RAW_MARKET"%string, PTick Examples.early_tick);
       ("MARKET_SNAPSHOT"%string,
        PSnapshot (Aggregator.snapshot_msg "BINANCE" "BTCUSDT" c))] /\
    Iso.fromisoformat "2025-11-06T12:01:00+00:00"
    = Some (Aggregator.c_start c) /\
    Router.queues (Pipeline.w_router (out_state o2)) !! "BTCUSDT"%string
    = Some [Examples.late_tick; Examples.early_tick] /\
    publish 1 Examples.routed_bus "ORDERED_MARKET"
            (PTick Examples.early_tick) (out_state o2)
    = Some (Outcome Examples.routed_bus (out_state o2)
              [("ORDERED_MARKET"%string, PTick Examples.early_tick)] None).
Proof.
  split; [by vm_compute|]. split; [by vm_compute|].
  eexists (Outcome _ _ _ _), (Outcome _ _ _ _),
          (Aggregator.Candle 1762430460000000 "1m" 101 101 101 101 1).
  split; [apply publish_of_in; vm_compute; reflexivity|].
  split; [reflexivity|].
  split; [apply publish_of_in; vm_compute; reflexivity|].
  split; [reflexivity|].
  split; [vm_compute; reflexivity|].
  split; [vm_compute; reflexivity|].
  apply publish_of_in. vm_compute. reflexivity.
Qed.

End WiringClaims.

(** ** The Strategy Blender: blend, threshold, clip, anti-spam (C5) *)

Module BlenderClaims.
Import Events Blender NumFacts.

Section BlenderClaims.
Variable alpha_state : Type.
Variable alpha_score :
  string -> candle -> alpha_state -> option Q * alpha_state.

(** The scores loop gives every strategy a score. *)
Lemma score_all_covers (names : list string) (c : candle) :
  forall (a : alpha_state) (scores : gmap string Q) (n : string),
    n ∈ names \/ is_Some (scores !! n) ->
    is_Some ((score_all alpha_state alpha_score names c a scores).1 !! n).
Proof.
  induction names as [|name r IH]; intros a scores n Hn; simpl.
  - destruct Hn as [Hn|Hn]; [by apply elem_of_nil in Hn|done].
  - destruct (alpha_score name c a) as [s a']. apply IH.
    destruct (decide (n = name)) as [->|Hne].
    + right. rewrite lookup_insert_eq. by eexists.
    + destruct Hn as [Hn|Hn].
      * apply elem_of_cons in Hn as [Hn|Hn]; [done|by left].
      * right. by rewrite lookup_insert_ne.
Qed.

(** [sum(...)] over covered names returns the weighted sum. *)
Lemma combine_weighted_sum (names : list string)
      (weights scores : gmap string Q) :
  forall acc : Q,
    Forall (fun n => is_Some (weights !! n) /\ is_Some (scores !! n)) names ->
    exists r, combine names weights scores acc = Ok r /\
              (r == acc + weighted_sum weights scores names)%Q.
Proof.
  induction names as [|name r IH]; intros acc Hcov; simpl.
  - exists acc. split; [done|]. ring.
  - apply Forall_cons in Hcov as [[[w Hw] [s Hs]] Hcov].
    rewrite Hw, Hs. simpl.
    destruct (IH (acc + w * s)%Q Hcov) as (x & Hx & Hxe).
    exists x. split; [done|]. rewrite Hxe. ring.
Qed.

Lemma threshold_clip_hold (raw : Q) :
  (Qabs raw < 0.05)%Q -> threshold_clip raw = 0%Q.
Proof.
  intros H. unfold threshold_clip, THRESHOLD.
  apply Qltb_true in H. by rewrite H.
Qed.

Lemma threshold_clip_clip (raw : Q) :
  (0.05 <= Qabs raw)%Q -> threshold_clip raw = Qmax (-1) (Qmin 1 raw).
Proof.
  intros H. unfold threshold_clip, THRESHOLD.
  apply Qltb_false in H. rewrite H. by rewrite py_max_Qmax, py_min_Qmin.
Qed.

Lemma threshold_clip_range (raw : Q) :
  (-1 <= threshold_clip raw /\ threshold_clip raw <= 1)%Q.
Proof.
  destruct (Qlt_le_dec (Qabs raw) 0.05) as [H|H].
  - rewrite (threshold_clip_hold raw H). by split.
  - rewrite (threshold_clip_clip raw H). split.
    + apply Q.le_max_l.
    + apply Q.max_lub; [done|]. apply Q.le_min_l.
Qed.

(** C5.  For an enabled blender whose weights cover its strategies and a
    snapshot a candle is extracted from: the raw score is the weighted sum
    of the scores of all the strategies; the blended score is 0 when
    [|raw| < 0.05] and the raw score clipped to [-1, 1] otherwise; nothing
    is published, and the last published scores stay, when the blended
    score is within 0.05 of the last published score of the symbol (0 when
    there is none); otherwise exactly one TARGET signal with the blended
    score is published on [SIGNAL] and recorded as the last published
    score.  A raw score of 0.03 with last published score 0 publishes
    nothing. *)
Theorem C5_blend_threshold_publish
        (st : state alpha_state) (now : Z) (snap : snapshot)
        (symbol : string) (price : Q) (c : candle) :
  enabled st = true ->
  extract_candle now snap = Some (symbol, price, c) ->
  Forall (fun name => is_Some (alpha_weights st !! name)) alphas ->
  let scores :=
    (score_all alpha_state alpha_score alphas c (strategies st) ∅).1 in
  let last := default 0%Q (last_published_score st !! symbol) in
  let r := on_market_snapshot alpha_state alpha_score st now snap in
  exists raw blended : Q,
    combine alphas (alpha_weights st) scores 0 = Ok raw /\
    (raw == weighted_sum (alpha_weights st) scores alphas)%Q /\
    Forall (fun name => is_Some (scores !! name)) alphas /\
    ((Qabs raw < 0.05)%Q -> blended = 0%Q) /\
    ((0.05 <= Qabs raw)%Q -> blended = Qmax (-1) (Qmin 1 raw)) /\
    (-1 <= blended /\ blended <= 1)%Q /\
    r_raise r = None /\
    ((Qabs (blended - last) < 0.05)%Q ->
     r_publishes r = [] /\
     forall s, default 0%Q (last_published_score (r_state r) !! s)
               = default 0%Q (last_published_score st !! s)) /\
    ((0.05 <= Qabs (blended - last))%Q ->
     exists sg,
       r_publishes r = [("SIGNAL"%string, PSignal sg)] /\
       sg_symbol sg = symbol /\ sg_direction sg = Some "TARGET"%string /\
       sg_score sg = Some blended /\ sg_price sg = price /\
       last_published_score (r_state r) !! symbol = Some blended) /\
    ((raw == 0.03)%Q -> (last == 0)%Q -> r_publishes r = []).
Proof.
  intros Hen Hext Hw scores last r.
  assert (Hsc : Forall (fun name => is_Some (scores !! name)) alphas).
  { apply Forall_forall. intros n Hn. apply score_all_covers. by left. }
  destruct (combine_weighted_sum alphas (alpha_weights st) scores 0)
    as (raw & Hraw & Hsum).
  { apply Forall_forall. intros n Hn. split.
    - by apply (proj1 (Forall_forall _ _) Hw).
    - by apply (proj1 (Forall_forall _ _) Hsc). }
  rewrite Qplus_0_l in Hsum.
  exists raw, (threshold_clip raw).
  split; [done|]. split; [done|]. split; [done|].
  split; [apply threshold_clip_hold|].
  split; [apply threshold_clip_clip|].
  split; [apply threshold_clip_range|].
  assert (Hr : r =
    let st2 := update_attribution alpha_state
                 (State (enabled st) (alpha_weights st) (virt_pos st)
                        (last_price st) (last_published_score st)
                        (score_all alpha_state alpha_score alphas c
                                   (strategies st) ∅).2)
                 symbol price (map (fun a => (a, 0%Q)) alphas) in
    let lps := (dd_get 0%Q symbol (last_published_score st)).2 in
    if Qltb (Qabs (threshold_clip raw - last)) 0.05 then
      Reaction
        (State (enabled st2) (alpha_weights st2) (virt_pos st2)
               (last_price st2) lps (strategies st2))
        [] Propagate None
    else
      Reaction
        (State (enabled st2) (alpha_weights st2) (virt_pos st2)
               (last_price st2) (<[symbol := threshold_clip raw]> lps)
               (strategies st2))
        [("SIGNAL"%string,
          PSignal (Signal symbol (Some "TARGET"%string)
                     (Some (threshold_clip raw)) price
                     (Some (<["alpha"%string := VStr "multi"]>
                            (<["weights"%string := VDict (alpha_weights st)]>
                            (<["scores"%string := VDict scores]> ∅))))))]
        Propagate None).
  { subst r. unfold on_market_snapshot. rewrite Hen, Hext.
    cbn [negb]. subst scores.
    destruct (score_all alpha_state alpha_score alphas c (strategies st) ∅)
      as [sc a'] eqn:Hs.
    cbn [fst snd] in Hraw |- *. rewrite Hraw.
    change (last_published_score (update_attribution _ _ _ _ _))
      with (last_published_score st).
    pose proof (dd_get_fst 0%Q symbol (last_published_score st)) as Hl.
    destruct (dd_get 0%Q symbol (last_published_score st)) as [l lps].
    cbn [fst snd] in Hl |- *. subst l. done. }
  cbv zeta in Hr.
  assert (Hquiet : (Qabs (threshold_clip raw - last) < 0.05)%Q ->
                   r_publishes r = []).
  { intros Hlt. apply Qltb_true in Hlt. rewrite Hr, Hlt. done. }
  split; [|split; [|split]].
  - rewrite Hr. by destruct (Qltb (Qabs (threshold_clip raw - last)) 0.05).
  - intros Hlt. split; [by apply Hquiet|].
    apply Qltb_true in Hlt. rewrite Hr, Hlt. cbn [r_state].
    cbn [last_published_score]. intros s. apply dd_get_snd.
  - intros Hge. apply Qltb_false in Hge. rewrite Hr, Hge.
    eexists. split; [reflexivity|]. cbn [r_state last_published_score].
    split; [done|]. split; [done|]. split; [done|]. split; [done|].
    by rewrite lookup_insert_eq.
  - intros H03 Hl0. apply Hquiet.
    rewrite threshold_clip_hold by (by rewrite H03).
    rewrite Hl0. by vm_compute.
Qed.

End BlenderClaims.

Lemma C5_blend_threshold_publish_witness :
  r_publishes (on_market_snapshot unit Examples.faint_score Examples.blender0
                 Examples.clock0 Examples.btc_bar) = [] /\
  exists sg b,
    r_publishes (on_market_snapshot unit Examples.keen_score Examples.blender0
                   Examples.clock0 Examples.btc_bar)
    = [("SIGNAL"%string, PSignal sg)] /\
    sg_direction sg = Some "TARGET"%string /\
    sg_score sg = Some b /\ (b == 0.5)%Q.
Proof.
  assert (Hw : Forall (fun name => is_Some (alpha_weights Examples.blender0
                                              !! name)) alphas).
  { repeat constructor; by eexists. }
  split.
  - destruct (C5_blend_threshold_publish unit Examples.faint_score
                Examples.blender0 Examples.clock0 Examples.btc_bar
                "BTCUSDT" 100
                (Candle "BTCUSDT" 100 100 101 99 1 1762430460000000)
                eq_refl eq_refl Hw)
      as (raw & blended & Hraw & _ & _ & _ & _ & _ & _ & _ & _ & H03).
    apply H03; [|reflexivity].
    injection Hraw as <-. reflexivity.
  - destruct (C5_blend_threshold_publish unit Examples.keen_score
                Examples.blender0 Examples.clock0 Examples.btc_bar
                "BTCUSDT" 100
                (Candle "BTCUSDT" 100 100 101 99 1 1762430460000000)
                eq_refl eq_refl Hw)
      as (raw & blended & Hraw & _ & _ & _ & Hclip & _ & _ & _ & Hpub & _).
    injection Hraw as <-.
    assert (Hb : (blended == 0.5)%Q).
    { rewrite Hclip; [reflexivity|by vm_compute]. }
    destruct Hpub as (sg & Hsg & _ & Hdir & Hscore & _).
    { change (default 0%Q (last_published_score Examples.blender0
                             !! "BTCUSDT"%string)) with 0%Q.
      rewrite Hb. by vm_compute. }
    exists sg, blended. by repeat split.
Defined.

End BlenderClaims.

(** ** The Portfolio Ledger: sizing (C6) and discarded signals (C10) *)

Module LedgerClaims.
Import Events Ledger NumFacts.

Lemma length_append (a b : string) :
  String.length (a +:+ b) = String.length a + String.length b.
Proof. induction a as [|x a IH]; simpl; [done|]. by rewrite IH. Qed.

(** Two concatenations with suffixes of one length are equal part by
    part. *)
Lemma append_inj_suffix (a b c d : string) :
  String.length c = String.length d -> a +:+ c = b +:+ d -> a = b /\ c = d.
Proof.
  revert b. induction a as [|x a IH]; intros [|y b] Hl H.
  - done.
  - change (c = String y (b +:+ d)) in H. rewrite H in Hl. simpl in Hl.
    rewrite length_append in Hl. lia.
  - change (String x (a +:+ c) = d) in H. rewrite <- H in Hl. simpl in Hl.
    rewrite length_append in Hl. lia.
  - change (String x (a +:+ c) = String y (b +:+ d)) in H.
    injection H as -> H. by destruct (IH b Hl H) as [-> ->].
Qed.

Lemma digit_char_inj (a b : Z) :
  digit_char a = digit_char b -> (a mod 10 = b mod 10)%Z.
Proof.
  unfold digit_char. intros H. apply (f_equal nat_of_ascii) in H.
  pose proof (Z.mod_pos_bound a 10 eq_refl).
  pose proof (Z.mod_pos_bound b 10 eq_refl).
  rewrite !nat_ascii_embedding in H by lia. lia.
Qed.

Lemma frac6_inj (m n : Z) :
  (0 <= m < 1000000)%Z -> (0 <= n < 1000000)%Z ->
  frac6 m = frac6 n -> m = n.
Proof.
  intros Hm Hn H. unfold frac6 in H.
  injection H as H5 H4 H3 H2 H1 H0.
  apply digit_char_inj in H0, H1, H2, H3, H4, H5. lia.
Qed.

(** Two readings of [datetime.utcnow().timestamp()] that differ, to the
    microsecond, give different ids. *)
Lemma order_id_at_inj (now now' : Z) :
  (0 <= now)%Z -> (0 <= now')%Z ->
  order_id_at now = order_id_at now' -> now = now'.
Proof.
  intros H0 H0' H. unfold order_id_at in H.
  rewrite !Z.abs_eq in H by done.
  destruct (Z.ltb_spec now 0) as [?|_]; [lia|].
  destruct (Z.ltb_spec now' 0) as [?|_]; [lia|].
  apply (String.app_inj "ORD-") in H.
  change (pretty (now / 1000000)%Z +:+ ("." +:+ frac6 (now mod 1000000)%Z)
          = pretty (now' / 1000000)%Z
            +:+ ("." +:+ frac6 (now' mod 1000000)%Z)) in H.
  apply append_inj_suffix in H as [Hq Hr]; [|reflexivity].
  apply (inj pretty) in Hq.
  apply (String.app_inj ".") in Hr.
  apply frac6_inj in Hr; [lia|..]; by apply Z.mod_pos_bound.
Qed.

Lemma noise_floor : py_max DELTA_THRESHOLD MIN_TRADE_UNITS = Qmax 1e-6 0.0004.
Proof. reflexivity. Qed.

(** The outcome of [on_signal] on a TARGET signal, in the terms of its
    code. *)
Lemma on_signal_target (st : state) (now : Z) (sg : signal) :
  sg_direction sg = Some "TARGET"%string ->
  let symbol := upper (sg_symbol sg) in
  let score := default 0%Q (sg_score sg) in
  let units := default DEFAULT_MAX_UNITS (max_units st !! symbol) in
  let current := default 0%Q (positions st !! symbol) in
  let delta := (Qmax (-1) (Qmin 1 score) * units - current)%Q in
  let st' := State (cash st)
                   (snd (dd_get 0%Q symbol (positions st)))
                   (<[symbol := sg_price sg]> (last_prices st))
                   (snd (dd_get DEFAULT_MAX_UNITS symbol (max_units st)))
                   (alpha_virtual_pos st) in
  on_signal st now sg =
  if Qltb (Qabs delta) (Qmax 1e-6 0.0004)
  then Reaction st' [] Propagate None
  else Reaction st'
         [("ORDER"%string,
           POrder (Order symbol (Qabs delta)
                         (if Qltb 0 delta then "BUY" else "SELL")%string
                         (sg_price sg) (order_id_at now)
                         (order_meta sg score)))]
         Propagate None.
Proof.
  intros Hdir. unfold on_signal. rewrite Hdir.
  rewrite bool_decide_eq_true_2 by done. simpl.
  pose proof (dd_get_fst DEFAULT_MAX_UNITS (upper (sg_symbol sg))
                         (max_units st)) as Hu.
  pose proof (dd_get_fst 0%Q (upper (sg_symbol sg)) (positions st)) as Hc.
  destruct (dd_get DEFAULT_MAX_UNITS (upper (sg_symbol sg)) (max_units st))
    as [units mu].
  destruct (dd_get 0%Q (upper (sg_symbol sg)) (positions st)) as [current pos].
  simpl in *. subst units current.
  rewrite noise_floor, py_max_Qmax, py_min_Qmin. done.
Qed.

(** The meta of an order always holds a [scores] dict. *)
Lemma order_meta_scores (sg : signal) (score : Q) :
  exists d, order_meta sg score !! "scores"%string = Some (VDict d).
Proof.
  unfold order_meta. destruct (lacks_scores _) eqn:E.
  - eexists. by rewrite lookup_insert_eq.
  - unfold lacks_scores in E.
    destruct (default ∅ (sg_meta sg) !! "scores"%string) as [[]|];
      try done. by eexists.
Qed.

(** [on_fill] on a fill whose meta holds a [scores] dict: the position of
    the symbol moves by the signed quantity, [max_units] stays, and only
    marks are published. *)
Lemma on_fill_scored (st : state) (now : Z) (f : fill) (d : gmap string Q) :
  f_meta f !! "scores"%string = Some (VDict d) ->
  let symbol := upper (f_symbol f) in
  let qty_signed :=
    if String.eqb (upper (f_direction f)) "BUY"
    then f_quantity f else (- f_quantity f)%Q in
  exists cash' lp' avp msgs,
    on_fill st now f =
    Reaction
      (State cash'
             (<[symbol := (default 0 (positions st !! symbol) + qty_signed)%Q]>
                (positions st))
             lp' (max_units st) avp)
      msgs Swallow None /\
    Forall (fun em : emission =>
              fst em = "PORTFOLIO_MARK"%string \/
              fst em = "ALPHA_PNL_TICK"%string) msgs.
Proof.
  intros Hm symbol qty_signed. unfold on_fill. rewrite Hm.
  fold symbol. fold qty_signed.
  destruct (mark_to_market _ _) as [unreal lp'].
  eexists _, _, _, _. split; [reflexivity|].
  constructor; [by left|].
  apply Forall_map, Forall_forall. intros [a v] _. by right.
Qed.




(** C10.  A TARGET signal whose [|delta|] is below the noise floor
    publishes nothing and still sets [last_prices[symbol]] to the price of
    the signal; the cash, the quantity of every position (the read of
    [positions[symbol]] may create the key, with 0), the attribution map and
    the last price of every other symbol are as before. *)
Theorem C10_discarded_signal_marks_price (st : state) (now : Z)
        (sg : signal) :
  sg_direction sg = Some "TARGET"%string ->
  let symbol := upper (sg_symbol sg) in
  let score := default 0%Q (sg_score sg) in
  let units := default DEFAULT_MAX_UNITS (max_units st !! symbol) in
  let current := default 0%Q (positions st !! symbol) in
  let delta := (Qmax (-1) (Qmin 1 score) * units - current)%Q in
  (Qabs delta < Qmax 1e-6 0.0004)%Q ->
  let r := on_signal st now sg in
  r_publishes r = [] /\ r_raise r = None /\
  last_prices (r_state r) !! symbol = Some (sg_price sg) /\
  (forall s, s <> symbol ->
             last_prices (r_state r) !! s = last_prices st !! s) /\
  cash (r_state r) = cash st /\
  (forall s, default 0%Q (positions (r_state r) !! s)
             = default 0%Q (positions st !! s)) /\
  alpha_virtual_pos (r_state r) = alpha_virtual_pos st.
Proof.
  intros Hdir symbol score units current delta Hlt r.
  subst r. rewrite (on_signal_target st now sg Hdir).
  fold symbol score units current delta.
  apply Qltb_true in Hlt. rewrite Hlt. simpl.
  split; [done|]. split; [done|].
  split; [by rewrite lookup_insert_eq|].
  split; [by intros s Hs; rewrite lookup_insert_ne|].
  split; [done|]. split; [|done].
  intros s. apply dd_get_snd.
Qed.

Lemma C10_discarded_signal_marks_price_witness :
  r_publishes (on_signal Examples.ledger0 Examples.clock0
                         Examples.signal_faint) = [] /\
  last_prices (r_state (on_signal Examples.ledger0 Examples.clock0
                                  Examples.signal_faint))
    !! "BTCUSDT"%string = Some 101%Q /\
  cash (r_state (on_signal Examples.ledger0 Examples.clock0
                           Examples.signal_faint)) = 100000%Q.
Proof.
  destruct (C10_discarded_signal_marks_price Examples.ledger0 Examples.clock0
              Examples.signal_faint eq_refl)
    as (Hp & _ & Hl & _ & Hc & _); [reflexivity|].
  split; [exact Hp|]. split; [exact Hl|exact Hc].
Defined.

End LedgerClaims.

(** ** The Execution Simulator: one fill per order (C7) *)

Module ExecutionClaims.
Import Events Execution.

(** [on_order] with a bus: one Fill, with the meta of the order. *)
Lemma on_order_fills (st : state) (now : Z) (o : order) :
  has_bus st = true ->
  exists fp comm,
    on_order st now o =
    Reaction
      (State (mode st) true (slippage_bps st) (commission_bps st)
             (delete (o_order_id o)
                     (<[o_order_id o := o_meta o]> (order_meta st))))
      [("FILL"%string,
        PFill (Fill (o_symbol o) (o_quantity o) (o_direction o) fp now comm
                    (o_order_id o) (o_meta o)))]
      Propagate None.
Proof.
  intros Hbus. unfold on_order, execute_real, simulate_fill. cbn [has_bus
    mode slippage_bps commission_bps order_meta]. rewrite Hbus.
  rewrite lookup_insert_eq. cbn [default id].
  destruct (String.eqb (mode st) "paper" || String.eqb (mode st) "backtest");
    by eexists _, _.
Qed.




End ExecutionClaims.

(** ** Signal to order to fill to position: the noise floor (C8) *)

Module PipelineClaims.
Import Events EventBus Pipeline NumFacts.

Section Steps.
Context {W P : Type}.

Lemma publish_in_nosub (fuel : nat) (b : gmap string (list (handler W P)))
      (topic : string) (data : P) (w : W) :
  subscribers b topic = [] ->
  publish_in (S fuel) b topic data w = Some (w, [(topic, data)], None).
Proof. intros H. simpl. unfold publish_body. by rewrite H. Qed.

(** A topic with one coroutine function subscribed: [publish] is the run
    of its coroutine. *)
Lemma publish_in_single (fuel : nat) (b : gmap string (list (handler W P)))
      (topic : string) (data : P) (w : W)
      (name : string) (h : P -> W -> prog W P) :
  subscribers b topic = [Async name h] ->
  publish_in (S fuel) b topic data w =
  match run (publish_in fuel b) (h data w) with
  | None => None
  | Some (w1, tr, e) => Some (w1, (topic, data) :: tr, e)
  end.
Proof.
  intros H. simpl. unfold publish_body. rewrite H. simpl. unfold gather.
  simpl. destruct (run _ _) as [[[w1 tr] e]|]; [|done]. simpl.
  rewrite app_nil_r. by destruct e.
Qed.

End Steps.

Section Chain.
Variable alpha_state : Type.
Variable latency : Z -> Z.
Variable b : gmap string (list (handler (world alpha_state) payload)).
Hypothesis signal_wired : subscribers b "SIGNAL" = [h_on_signal alpha_state].
Hypothesis order_wired :
  subscribers b "ORDER" = [h_on_order alpha_state latency].
Hypothesis fill_wired : subscribers b "FILL" = [h_on_fill alpha_state].
Hypothesis mark_unheard : subscribers b "PORTFOLIO_MARK" = [].
Hypothesis pnl_unheard : subscribers b "ALPHA_PNL_TICK" = [].

(** A handler that publishes nothing. *)
Lemma run_react_quiet {S : Type}
      (rec : string -> payload -> world alpha_state ->
             option (world alpha_state * list emission * option exn))
      (set : S -> world alpha_state -> world alpha_state)
      (st : S) (policy : on_error) (w : world alpha_state) :
  run rec (react alpha_state set (Reaction st [] policy None) w)
  = Some (set st w, [], None).
Proof. reflexivity. Qed.

(** A handler whose one publish returns. *)
Lemma run_react_one {S : Type}
      (rec : string -> payload -> world alpha_state ->
             option (world alpha_state * list emission * option exn))
      (set : S -> world alpha_state -> world alpha_state)
      (st : S) (policy : on_error) (w w1 : world alpha_state)
      (topic : string) (data : payload) (tr : list emission) :
  rec topic data (set st w) = Some (w1, tr, None) ->
  run rec (react alpha_state set (Reaction st [(topic, data)] policy None) w)
  = Some (w1, tr, None).
Proof.
  intros H. unfold react. simpl. rewrite H. simpl. by rewrite app_nil_r.
Qed.

(** Publishes nobody listens to. *)
Lemma run_await_unheard (fuel : nat) (policy : on_error)
      (ems : list emission) (w : world alpha_state) :
  Forall (fun em : emission => subscribers b (fst em) = []) ems ->
  run (publish_in (S fuel) b) (await_all alpha_state policy ems w)
  = Some (w, ems, None).
Proof.
  induction ems as [|[topic data] rest IH]; intros Hall; [done|].
  apply Forall_cons in Hall as [Hh Hrest].
  cbn [await_all run]. rewrite (publish_in_nosub fuel b topic data w Hh).
  rewrite (IH Hrest). done.
Qed.

Lemma count_topic_marks (msgs : list emission) :
  Forall (fun em : emission =>
            fst em = "PORTFOLIO_MARK"%string \/
            fst em = "ALPHA_PNL_TICK"%string) msgs ->
  count_topic "ORDER" msgs = 0.
Proof.
  unfold count_topic. induction 1 as [|em rest [H|H] _ IH]; [done|..];
    simpl; by rewrite H.
Qed.

Lemma count_topic_app (topic : string) (tr1 tr2 : list emission) :
  count_topic topic (tr1 ++ tr2)
  = count_topic topic tr1 + count_topic topic tr2.
Proof. unfold count_topic. by rewrite List.filter_app, length_app. Qed.

Lemma count_topic_signals (sigs : list signal) :
  count_topic "ORDER" (map (fun s => ("SIGNAL"%string, PSignal s)) sigs) = 0.
Proof. induction sigs as [|s r IH]; [done|exact IH]. Qed.

Lemma settled_score (symbol : string) (s s' : Q) (l : Ledger.state) :
  (s == s')%Q -> Ledger.settled symbol s l -> Ledger.settled symbol s' l.
Proof. unfold Ledger.settled. intros H. by rewrite H. Qed.

(** [FILL]: the ledger applies the fill and publishes marks. *)
Lemma publish_fill (fuel : nat) (w : world alpha_state) (f : fill)
      (d : gmap string Q) :
  f_meta f !! "scores"%string = Some (VDict d) ->
  let symbol := upper (f_symbol f) in
  let qty_signed :=
    if String.eqb (upper (f_direction f)) "BUY"
    then f_quantity f else (- f_quantity f)%Q in
  exists l' msgs,
    publish_in (S (S fuel)) b "FILL" (PFill f) w
    = Some (set_ledger alpha_state l' w, ("FILL"%string, PFill f) :: msgs,
            None) /\
    count_topic "ORDER" msgs = 0 /\
    Ledger.max_units l' = Ledger.max_units (w_ledger w) /\
    Ledger.positions l'
    = <[symbol := (default 0 (Ledger.positions (w_ledger w) !! symbol)
                   + qty_signed)%Q]> (Ledger.positions (w_ledger w)).
Proof.
  intros Hm symbol qty_signed.
  destruct (LedgerClaims.on_fill_scored (w_ledger w) (w_clock w) f d Hm)
    as (cash' & lp' & avp & msgs & Hf & Hmsgs).
  fold symbol qty_signed in Hf.
  eexists _, msgs.
  rewrite (publish_in_single _ _ _ _ _ _ _ fill_wired).
  unfold Pipeline.on_fill. rewrite Hf. unfold react.
  cbn [r_state r_raise r_on_error r_publishes].
  rewrite run_await_unheard.
  - split; [reflexivity|]. split; [by apply count_topic_marks|]. by split.
  - eapply Forall_impl; [exact Hmsgs|]. intros em [H|H]; by rewrite H.
Qed.

(** [ORDER]: the simulator sleeps, then publishes the fill. *)
Lemma publish_order (fuel : nat) (w : world alpha_state) (o : order)
      (d : gmap string Q) :
  Execution.has_bus (w_exec w) = true ->
  o_meta o !! "scores"%string = Some (VDict d) ->
  let symbol := upper (o_symbol o) in
  let qty_signed :=
    if String.eqb (upper (o_direction o)) "BUY"
    then o_quantity o else (- o_quantity o)%Q in
  exists w' tr,
    publish_in (S (S (S fuel))) b "ORDER" (POrder o) w
    = Some (w', ("ORDER"%string, POrder o) :: tr, None) /\
    count_topic "ORDER" tr = 0 /\
    Execution.has_bus (w_exec w') = true /\
    Ledger.max_units (w_ledger w') = Ledger.max_units (w_ledger w) /\
    Ledger.positions (w_ledger w')
    = <[symbol := (default 0 (Ledger.positions (w_ledger w) !! symbol)
                   + qty_signed)%Q]> (Ledger.positions (w_ledger w)).
Proof.
  intros Hbus Hm symbol qty_signed.
  set (w1 := sleep alpha_state (latency (w_clock w)) w).
  destruct (ExecutionClaims.on_order_fills (w_exec w) (w_clock w1) o Hbus)
    as (fp & comm & Ho).
  set (f := Fill (o_symbol o) (o_quantity o) (o_direction o) fp (w_clock w1)
                 comm (o_order_id o) (o_meta o)) in Ho.
  set (est := Execution.State (Execution.mode (w_exec w)) true
                (Execution.slippage_bps (w_exec w))
                (Execution.commission_bps (w_exec w))
                (delete (o_order_id o)
                   (<[o_order_id o := o_meta o]>
                      (Execution.order_meta (w_exec w))))) in Ho.
  destruct (publish_fill fuel (set_exec alpha_state est w1) f d Hm)
    as (l' & msgs & Hf & Hc & Hu & Hp).
  eexists _, (("FILL"%string, PFill f) :: msgs).
  rewrite (publish_in_single _ _ _ _ _ _ _ order_wired).
  unfold Pipeline.on_order. fold w1. rewrite Ho.
  rewrite (run_react_one _ _ _ _ _ _ _ _ _ Hf).
  split; [reflexivity|]. split; [|split; [done|split; [done|]]].
  - unfold count_topic in *. simpl. exact Hc.
  - exact Hp.
Qed.

(** [SIGNAL]: one TARGET signal through the chain.  At most one order is
    published; afterwards the position is within the noise floor of the
    target; and a signal that finds it there is discarded. *)
Lemma publish_signal (fuel : nat) (w : world alpha_state) (sg : signal) :
  sg_direction sg = Some "TARGET"%string ->
  Execution.has_bus (w_exec w) = true ->
  let symbol := upper (sg_symbol sg) in
  let score := default 0%Q (sg_score sg) in
  exists w' tr,
    publish_in (S (S (S (S fuel)))) b "SIGNAL" (PSignal sg) w
    = Some (w', ("SIGNAL"%string, PSignal sg) :: tr, None) /\
    count_topic "ORDER" tr <= 1 /\
    Execution.has_bus (w_exec w') = true /\
    Ledger.settled symbol score (w_ledger w') /\
    (Ledger.settled symbol score (w_ledger w) -> tr = []).
Proof.
  intros Hdir Hbus symbol score.
  pose proof (LedgerClaims.on_signal_target
                (w_ledger w)
                (Ledger.utcnow_timestamp (w_utcoffset w) (w_clock w)) sg Hdir)
    as Hs. cbv zeta in Hs. fold symbol score in Hs.
  set (units := default Ledger.DEFAULT_MAX_UNITS
                        (Ledger.max_units (w_ledger w) !! symbol)) in *.
  set (current := default 0%Q (Ledger.positions (w_ledger w) !! symbol)) in *.
  set (delta := (Qmax (-1) (Qmin 1 score) * units - current)%Q) in *.
  set (st' := Ledger.State _ _ _ _ _) in Hs.
  assert (Hu' : default Ledger.DEFAULT_MAX_UNITS
                        (Ledger.max_units st' !! symbol) = units).
  { subst st'. cbn [Ledger.max_units]. apply dd_get_snd. }
  assert (Hc' : default 0%Q (Ledger.positions st' !! symbol) = current).
  { subst st'. cbn [Ledger.positions]. apply dd_get_snd. }
  rewrite (publish_in_single _ _ _ _ _ _ _ signal_wired).
  unfold Pipeline.on_signal. rewrite Hs.
  destruct (Qltb (Qabs delta) (Qmax 1e-6 0.0004)) eqn:Hnoise.
  - (* discarded *)
    rewrite run_react_quiet. eexists _, []. split; [reflexivity|].
    split; [unfold count_topic; simpl; lia|]. split; [done|].
    split; [|done].
    unfold Ledger.settled. cbn [w_ledger set_ledger]. rewrite Hu', Hc'.
    by apply Qltb_true.
  - (* one order *)
    set (o := Order symbol (Qabs delta)
                    (if Qltb 0 delta then "BUY" else "SELL")%string
                    (sg_price sg) (Ledger.order_id_at
                       (Ledger.utcnow_timestamp (w_utcoffset w)
                                                (w_clock w)))
                    (Ledger.order_meta sg score)).
    destruct (LedgerClaims.order_meta_scores sg score) as [d Hd].
    destruct (publish_order fuel (set_ledger alpha_state st' w) o d Hbus Hd)
      as (w' & tr & Ho & Hcount & Hbus' & Hu & Hp).
    rewrite (run_react_one _ _ _ _ _ _ _ _ _ Ho).
    eexists w', (("ORDER"%string, POrder o) :: tr).
    split; [reflexivity|].
    split; [unfold count_topic in *; simpl; lia|]. split; [done|]. split.
    + unfold Ledger.settled. rewrite Hu, Hp.
      cbn [w_ledger set_ledger o_symbol o_direction o_quantity o].
      assert (Hsym : upper symbol = symbol) by apply upper_idemp.
      rewrite Hsym, lookup_insert_eq, Hu', Hc'. cbn [default id].
      fold delta.
      assert (Hq : ((if String.eqb
                          (upper (if Qltb 0 delta then "BUY" else "SELL"))
                          "BUY"
                     then Qabs delta else - Qabs delta) == delta)%Q).
      { destruct (Qltb 0 delta) eqn:Hpos.
        - change (Qabs delta == delta)%Q.
          apply Qabs_pos. apply Qlt_le_weak. by apply Qltb_true.
        - change (- Qabs delta == delta)%Q.
          rewrite Qabs_neg by (by apply Qltb_false). ring. }
      rewrite Hq.
      assert (Hz : (Qmax (-1) (Qmin 1 score) * units - (current + delta)
                    == 0)%Q) by (unfold delta; ring).
      rewrite Hz. reflexivity.
    + intros Hset. unfold Ledger.settled in Hset. fold units current in Hset.
      fold delta in Hset. apply Qltb_true in Hset. congruence.
Qed.

(** Signals that find the position settled are all discarded. *)
Lemma publish_settled (fuel : nat) (symbol : string) (score : Q)
      (sigs : list signal) :
  Forall (fun sg => sg_direction sg = Some "TARGET"%string /\
                    upper (sg_symbol sg) = symbol /\
                    (default 0 (sg_score sg) == score)%Q) sigs ->
  forall w : world alpha_state,
    Execution.has_bus (w_exec w) = true ->
    Ledger.settled symbol score (w_ledger w) ->
    exists w',
      publish_signals alpha_state (S (S (S (S fuel)))) b sigs w
      = Some (w', map (fun s => ("SIGNAL"%string, PSignal s)) sigs, None) /\
      Ledger.settled symbol score (w_ledger w').
Proof.
  unfold publish_signals.
  induction 1 as [|sg rest (Hdir & Hsym & Hscore) _ IH]; intros w Hbus Hset.
  - by exists w.
  - destruct (publish_signal fuel w sg Hdir Hbus)
      as (w1 & tr & Hp & _ & Hbus1 & Hset1 & Hquiet).
    rewrite Hsym in Hset1, Hquiet.
    rewrite Hquiet in Hp
      by (by apply (settled_score symbol score); [symmetry|]).
    destruct (IH w1 Hbus1) as (w' & Hrun & Hset').
    { by apply (settled_score symbol (default 0%Q (sg_score sg))). }
    exists w'. split; [|done].
    cbn [map await_all run]. rewrite Hp. rewrite Hrun. done.
Qed.

(** C8.  On a bus where [SIGNAL], [ORDER] and [FILL] reach the ledger, the
    simulator and the ledger, and nobody listens to the marks: TARGET
    signals for one symbol with one score, published one after the other,
    each publish awaited to completion, all return without an exception,
    and at most one order is published, in the chain of the first signal;
    the position is then within the noise floor of the target, and every
    later signal is discarded: its publish reaches no further publish. *)
Theorem C8_same_score_at_most_one_order
        (fuel : nat) (w : world alpha_state) (symbol : string) (score : Q)
        (sigs : list signal) :
  Execution.has_bus (w_exec w) = true ->
  4 <= fuel ->
  Forall (fun sg => sg_direction sg = Some "TARGET"%string /\
                    upper (sg_symbol sg) = symbol /\
                    (default 0 (sg_score sg) == score)%Q) sigs ->
  exists w' tr,
    publish_signals alpha_state fuel b sigs w = Some (w', tr, None) /\
    count_topic "ORDER" tr <= 1 /\
    match sigs with
    | [] => tr = []
    | sg :: rest =>
        Ledger.settled symbol score (w_ledger w') /\
        exists chain,
          tr = ("SIGNAL"%string, PSignal sg) :: chain
               ++ map (fun s => ("SIGNAL"%string, PSignal s)) rest /\
          (Ledger.settled symbol score (w_ledger w) -> chain = [])
    end.
Proof.
  intros Hbus Hfuel Hall.
  destruct fuel as [|[|[|[|fuel]]]]; try lia. clear Hfuel.
  destruct Hall as [|sg rest (Hdir & Hsym & Hscore) Hrest].
  - exists w, []. split; [done|]. split; [unfold count_topic; simpl; lia|done].
  - destruct (publish_signal fuel w sg Hdir Hbus)
      as (w1 & chain & Hp & Hcount & Hbus1 & Hset1 & Hquiet).
    rewrite Hsym in Hset1, Hquiet.
    destruct (publish_settled fuel symbol score rest Hrest w1 Hbus1)
      as (w' & Hrun & Hset').
    { by apply (settled_score symbol (default 0%Q (sg_score sg))). }
    exists w', (("SIGNAL"%string, PSignal sg) :: chain
                ++ map (fun s => ("SIGNAL"%string, PSignal s)) rest).
    split; [|split; [|split; [done|]]].
    + unfold publish_signals in *. cbn [map await_all run].
      rewrite Hp, Hrun. done.
    + change (count_topic "ORDER"
                (chain ++ map (fun s => ("SIGNAL"%string, PSignal s)) rest)
              <= 1).
      rewrite count_topic_app, count_topic_signals. lia.
    + exists chain. split; [done|]. intros Hset. apply Hquiet.
      by apply (settled_score symbol score); [symmetry|].
Qed.

End Chain.

(** Three times the signal of the sizing scenario on the bus of the engine:
    the first is sized, ordered, filled and marked, the others are
    discarded. *)
Lemma three_signals_one_order :
  exists w' tr,
    publish_signals unit 4 Examples.engine_bus
      [Examples.signal_08; Examples.signal_08; Examples.signal_08]
      Examples.world0 = Some (w', tr, None) /\
    map fst tr = ["SIGNAL"; "ORDER"; "FILL"; "PORTFOLIO_MARK";
                  "ALPHA_PNL_TICK"; "SIGNAL"; "SIGNAL"]%string /\
    (default 0 (Ledger.positions (w_ledger w') !! "BTCUSDT"%string)
     == 0.008)%Q.
Proof.
  eexists _, _. split; [vm_compute; reflexivity|].
  split; [reflexivity|]. reflexivity.
Qed.

Lemma C8_same_score_at_most_one_order_witness :
  exists w' tr,
    publish_signals unit 4 Examples.engine_bus
      [Examples.signal_08; Examples.signal_08_bare; Examples.signal_08]
      Examples.world0 = Some (w', tr, None) /\
    count_topic "ORDER" tr <= 1.
Proof.
  assert (Hsigs :
    Forall (fun sg => sg_direction sg = Some "TARGET"%string /\
                      upper (sg_symbol sg) = "BTCUSDT"%string /\
                      (default 0 (sg_score sg) == 0.8)%Q)
           [Examples.signal_08; Examples.signal_08_bare;
            Examples.signal_08]).
  { repeat constructor. }
  destruct (C8_same_score_at_most_one_order unit Examples.latency_100ms
              Examples.engine_bus eq_refl eq_refl eq_refl eq_refl eq_refl
              4 Examples.world0 "BTCUSDT" 0.8 _ eq_refl (le_n 4) Hsigs)
    as (w' & tr & Hrun & Hcount & _).
  exists w', tr. by split.
Defined.

End PipelineClaims.

(** ** The Event Bus: subscriptions *)

Module EventBusFacts.
Import EventBus.

Section Subscriptions.
Context {W P : Type}.

Lemma remove_first_found (name : string) (l1 l2 : list (handler W P))
      (h : handler W P) :
  Forall (fun g => handler_name g <> name) l1 ->
  handler_name h = name ->
  remove_first W P name (l1 ++ h :: l2) = l1 ++ l2.
Proof.
  intros Hl1 Hh. induction Hl1 as [|g l1 Hg _ IH]; simpl.
  - by rewrite (proj2 (String.eqb_eq _ _) Hh).
  - rewrite (proj2 (String.eqb_neq _ _) Hg). by rewrite IH.
Qed.

Lemma existsb_named (name : string) (l : list (handler W P)) :
  existsb (fun h => String.eqb (handler_name h) name) l = true <->
  Exists (fun h => handler_name h = name) l.
Proof.
  rewrite existsb_exists, Exists_exists. split.
  - intros (h & Hin & Hh). exists h. split; [by apply list_elem_of_In|].
    by apply String.eqb_eq.
  - intros (h & Hin & Hh). exists h. split; [by apply list_elem_of_In|].
    by apply String.eqb_eq.
Qed.

(** X1.  [unsubscribe] removes the earliest subscription of the callback
    on the topic and nothing else: the handlers subscribed before it and
    after it (later subscriptions of the same callback among them) stay, in
    their order, and the other topics keep their handlers.  When the
    callback is not subscribed on the topic, [unsubscribe] changes
    nothing. *)
Theorem unsubscribe_removes_earliest
        (b : gmap string (list (handler W P))) (topic name : string)
        (l1 l2 : list (handler W P)) (h : handler W P) :
  Forall (fun g => handler_name g <> name) l1 ->
  handler_name h = name ->
  (subscribers b topic = l1 ++ h :: l2 ->
   subscribers (unsubscribe topic name b) topic = l1 ++ l2 /\
   forall t, t <> topic ->
             subscribers (unsubscribe topic name b) t = subscribers b t) /\
  (subscribers b topic = l1 -> unsubscribe topic name b = b).
Proof.
  intros Hl1 Hh. split.
  - intros Hs. unfold unsubscribe.
    assert (He : existsb (fun g => String.eqb (handler_name g) name)
                         (subscribers b topic) = true).
    { apply existsb_named. rewrite Hs. apply Exists_app. right.
      by constructor. }
    rewrite He. unfold subscribers at 1 3. split.
    + rewrite lookup_insert_eq. simpl. rewrite Hs.
      by apply remove_first_found.
    + intros t Ht. unfold subscribers. by rewrite lookup_insert_ne.
  - intros Hs. unfold unsubscribe.
    destruct (existsb _ _) eqn:He; [|done].
    apply existsb_named in He. rewrite Hs in He.
    apply Exists_exists in He as (g & Hin & Hg).
    by destruct (proj1 (Forall_forall _ _) Hl1 g Hin).
Qed.

(** X2.  After [clear()] no topic has a subscriber, and a [publish] on any
    topic returns at once: no handler runs, the state is as it was and no
    exception is raised. *)
Theorem publish_after_clear
        (fuel : nat) (b : gmap string (list (handler W P)))
        (topic : string) (data : P) (w : W) :
  subscribers (clear b) topic = [] /\
  publish (S fuel) (clear b) topic data w
  = Some (Outcome (clear b) w [(topic, data)] None).
Proof.
  assert (Hs : subscribers (clear b) topic = []).
  { unfold subscribers, clear. by rewrite lookup_empty. }
  split; [done|]. unfold publish. simpl. unfold publish_body. by rewrite Hs.
Qed.

End Subscriptions.

Lemma unsubscribe_removes_earliest_witness :
  map handler_name
      (subscribers
         (unsubscribe "MARKET_SNAPSHOT" "sync_listener"
            (subscribe "MARKET_SNAPSHOT" Examples.sync_listener
               Examples.both_bus))
         "MARKET_SNAPSHOT")
  = ["async_listener"; "sync_listener"]%string.
Proof.
  destruct (unsubscribe_removes_earliest
              (subscribe "MARKET_SNAPSHOT" Examples.sync_listener
                         Examples.both_bus)
              "MARKET_SNAPSHOT" "sync_listener"
              [Examples.async_listener] [Examples.sync_listener]
              Examples.sync_listener)
    as [H _].
  - repeat constructor. discriminate.
  - reflexivity.
  - destruct H as [H _]; [reflexivity|]. by rewrite H.
Defined.

End EventBusFacts.

(** ** The Candlestick Aggregator: the buffers *)

Module AggregatorFacts.
Import Events Aggregator Feed.

(** [self.buffers[symbol][tf]], empty when it was never touched. *)
Definition buf_of (b : gmap string (gmap string (list candle)))
           (symbol tf : string) : list candle :=
  default [] (default ∅ (b !! symbol) !! tf).

(** The body of the loop of [update_tick] on the buffer of its timeframe:
    the buffer after it and the candle it closed. *)
Definition bar_step (tf : string) (bs : Z) (price volume : Q)
           (buf : list candle) : list candle * list candle :=
  let fresh := Candle bs tf price price price price volume in
  match last buf with
  | None => ([fresh], [])
  | Some bar =>
      if bool_decide (c_start bar <> bs) then
        let closed := Candle (c_start bar) tf (c_open bar) (c_high bar)
                             (c_low bar) (c_close bar) (c_volume bar) in
        (<[length buf - 1 := closed]> buf ++ [fresh], [closed])
      else
        (<[length buf - 1 :=
             Candle (c_start bar) (c_tf bar) (c_open bar)
                    (py_max (c_high bar) price) (py_min (c_low bar) price)
                    price (c_volume bar + volume)%Q]> buf, [])
  end.

Lemma update_one_bar_step (b : gmap string (gmap string (list candle)))
      (symbol tf : string) (secs : Z) (price volume : Q) (ts : Z) :
  update_one b symbol tf secs price volume ts =
  match get_bucket_start ts secs with
  | Raise e => Raise e
  | Ok bs =>
      Ok (<[symbol := <[tf := (bar_step tf bs price volume
                                         (buf_of b symbol tf)).1]>
                        (default ∅ (b !! symbol))]> b,
          (bar_step tf bs price volume (buf_of b symbol tf)).2)
  end.
Proof.
  unfold update_one, bar_step, buf_of.
  destruct (get_bucket_start ts secs) as [bs|e]; [|done]. simpl.
  destruct (last _) as [bar|]; [|done].
  by destruct (bool_decide (c_start bar <> bs)).
Qed.

Lemma buf_of_store (b : gmap string (gmap string (list candle)))
      (symbol tf : string) (nb : list candle) (s t : string) :
  buf_of (<[symbol := <[tf := nb]> (default ∅ (b !! symbol))]> b) s t
  = if decide (s = symbol /\ t = tf) then nb else buf_of b s t.
Proof.
  unfold buf_of. destruct (decide (s = symbol)) as [->|Hs].
  - rewrite lookup_insert_eq. simpl. destruct (decide (t = tf)) as [->|Ht].
    + rewrite lookup_insert_eq. by rewrite decide_True.
    + rewrite lookup_insert_ne by done. rewrite decide_False; [done|].
      by intros [_ ?].
  - rewrite lookup_insert_ne by done. rewrite decide_False; [done|].
    by intros [? _].
Qed.

Lemma get_bucket_start_raises (ts secs : Z) (e : exn) :
  get_bucket_start ts secs = Raise e -> e = ZeroDivisionError /\ secs = 0%Z.
Proof.
  unfold get_bucket_start. destruct (Z.eqb_spec secs 0); [|done].
  by intros [= <-].
Qed.

Lemma bar_step_length (tf : string) (bs : Z) (price volume : Q)
      (buf : list candle) :
  length buf <= length (bar_step tf bs price volume buf).1 /\
  length (bar_step tf bs price volume buf).2 <= 1.
Proof.
  unfold bar_step. destruct (last buf) as [bar|] eqn:E.
  - destruct (bool_decide (c_start bar <> bs)); simpl.
    + rewrite length_app, length_insert. simpl. lia.
    + rewrite length_insert. lia.
  - apply last_None in E as ->. simpl. lia.
Qed.

(** After the body of the loop the last candle of the buffer is the candle
    of the bucket of the tick. *)
Lemma bar_step_last (tf : string) (bs : Z) (price volume : Q)
      (buf : list candle) :
  exists c, last (bar_step tf bs price volume buf).1 = Some c /\
            c_start c = bs.
Proof.
  unfold bar_step. destruct (last buf) as [bar|] eqn:E.
  - apply last_Some in E as [l' ->].
    rewrite !AggregatorClaims.insert_last.
    destruct (bool_decide (c_start bar <> bs)) eqn:Eb; cbn [fst].
    + eexists. by rewrite last_snoc.
    + eexists. rewrite last_snoc. split; [done|]. cbn [c_start].
      apply bool_decide_eq_false in Eb. by apply dec_stable.
  - eexists. by split.
Qed.

(** A tick in the bucket of the last candle updates it, closing nothing. *)
Lemma bar_step_same (tf : string) (price volume : Q) (l : list candle)
      (bar : candle) :
  bar_step tf (c_start bar) price volume (l ++ [bar])
  = (l ++ [Candle (c_start bar) (c_tf bar) (c_open bar)
                  (py_max (c_high bar) price) (py_min (c_low bar) price)
                  price (c_volume bar + volume)%Q], []).
Proof.
  unfold bar_step. rewrite last_snoc, !AggregatorClaims.insert_last.
  by rewrite bool_decide_eq_false_2 by (intros H; by apply H).
Qed.

Lemma update_loop_grows (tfs : list (string * Z)) :
  forall (b : gmap string (gmap string (list candle))) (symbol : string)
         (price volume : Q) (ts : Z) (fin : list candle),
    (forall s t,
        length (buf_of b s t)
        <= length (buf_of (update_loop tfs b symbol price volume ts fin).1
                          s t)) /\
    (forall out,
        (update_loop tfs b symbol price volume ts fin).2 = Ok out ->
        length out <= length fin + length tfs) /\
    (forall tf, (tf, 0%Z) ∈ tfs ->
        (update_loop tfs b symbol price volume ts fin).2
        = Raise ZeroDivisionError).
Proof.
  induction tfs as [|[tf secs] r IH]; intros b symbol price volume ts fin.
  - simpl. split; [done|]. split.
    + intros out [= <-]. lia.
    + intros tf H. by apply elem_of_nil in H.
  - simpl. rewrite update_one_bar_step.
    destruct (get_bucket_start ts secs) as [bs|e] eqn:Eb.
    + pose proof (bar_step_length tf bs price volume (buf_of b symbol tf))
        as [Hlen Hcl].
      match goal with |- context [update_loop r ?B _ _ _ _ ?F] =>
        destruct (IH B symbol price volume ts F) as (H1 & H2 & H3) end.
      split; [|split].
      * intros s t. etrans; [|apply H1]. rewrite buf_of_store.
        destruct (decide (s = symbol /\ t = tf)) as [[-> ->]|_]; [done|lia].
      * intros out Hout. apply H2 in Hout. rewrite length_app in Hout.
        simpl. lia.
      * intros tf' Hin. apply elem_of_cons in Hin as [[= -> <-]|Hin].
        -- unfold get_bucket_start in Eb. by simpl in Eb.
        -- by apply (H3 tf').
    + apply get_bucket_start_raises in Eb as [-> ->]. simpl.
      split; [done|]. split; [done|]. done.
Qed.

(** X3.  A timeframe of zero minutes or hours is accepted by the
    constructor (["0m"] parses to 0 seconds) and makes every well-formed
    tick raise [ZeroDivisionError] out of [on_tick], which publishes
    nothing. *)
Theorem zero_timeframe_raises (fromisoformat : string -> option Z)
        (st : state) (t : tick) (tf : string) (ts : Z) :
  (tf, 0%Z) ∈ timeframes st ->
  fromisoformat (replace_Z (tk_timestamp t)) = Some ts ->
  init ["0m"%string] = Ok (State [("0m"%string, 0%Z)] ∅) /\
  r_raise (on_tick fromisoformat st t) = Some ZeroDivisionError /\
  r_publishes (on_tick fromisoformat st t) = [].
Proof.
  intros Hin Hts. split; [reflexivity|].
  unfold on_tick, update_tick. rewrite Hts.
  pose proof (update_loop_grows (timeframes st) (buffers st)
                (upper (tk_symbol t)) (tk_price t) (tk_volume t) ts [])
    as (_ & _ & H).
  specialize (H tf Hin).
  destruct (update_loop _ _ _ _ _ _ _) as [b' r]. simpl in H. subst r.
  by split.
Qed.

(** X4.  A tick closes at most one candle per timeframe, so [on_tick]
    publishes at most as many snapshots as there are timeframes; and no
    call ever shortens a buffer: every candle, closed or not, stays in
    [self.buffers]. *)
Theorem tick_closes_one_candle_per_timeframe
        (fromisoformat : string -> option Z) (st : state) (t : tick) :
  length (r_publishes (on_tick fromisoformat st t))
  <= length (timeframes st) /\
  forall symbol tf,
    length (buf_of (buffers st) symbol tf)
    <= length (buf_of (buffers (r_state (on_tick fromisoformat st t)))
                      symbol tf).
Proof.
  unfold on_tick, update_tick.
  destruct (fromisoformat (replace_Z (tk_timestamp t))) as [ts|];
    [|simpl; split; [lia|done]].
  pose proof (update_loop_grows (timeframes st) (buffers st)
                (upper (tk_symbol t)) (tk_price t) (tk_volume t) ts [])
    as (H1 & H2 & _).
  destruct (update_loop _ _ _ _ _ _ _) as [b' r]. simpl in H1, H2.
  destruct r as [out|e]; simpl.
  - split; [|done]. rewrite length_map. by apply H2.
  - split; [lia|done].
Qed.

Lemma zero_timeframe_raises_witness :
  r_raise (on_tick Iso.fromisoformat (State [("0m"%string, 0%Z)] ∅)
                   Examples.late_tick) = Some ZeroDivisionError.
Proof.
  destruct (zero_timeframe_raises Iso.fromisoformat
              (State [("0m"%string, 0%Z)] ∅) Examples.late_tick "0m"
              1762430465123000%Z) as (_ & H & _).
  - apply list_elem_of_here.
  - vm_compute. reflexivity.
  - exact H.
Defined.

End AggregatorFacts.

(** ** The Candlestick Aggregator: sequences of ticks *)

Module AggregatorRuns.
Import Events Aggregator Feed AggregatorFacts.

(** What one call of [update_tick] does to the buffers when the names of
    the timeframes are distinct (they are the keys of a dict): each
    timeframe's buffer makes its own step, the others stay. *)
Lemma update_loop_effect (symbol : string) (price volume : Q) (ts : Z)
      (tfs : list (string * Z)) :
  forall (b b' : gmap string (gmap string (list candle)))
         (fin out : list candle),
    NoDup tfs.*1 ->
    update_loop tfs b symbol price volume ts fin = (b', Ok out) ->
    (forall s t, ~ (s = symbol /\ t ∈ tfs.*1) ->
                 buf_of b' s t = buf_of b s t) /\
    (forall tf secs, (tf, secs) ∈ tfs ->
       exists bs, get_bucket_start ts secs = Ok bs /\
                  buf_of b' symbol tf
                  = (bar_step tf bs price volume (buf_of b symbol tf)).1) /\
    (forall c, c ∈ out ->
       c ∈ fin \/
       exists tf secs bs,
         (tf, secs) ∈ tfs /\ get_bucket_start ts secs = Ok bs /\
         c ∈ (bar_step tf bs price volume (buf_of b symbol tf)).2).
Proof.
  induction tfs as [|[tf secs] r IH]; intros b b' fin out Hnd Hrun.
  - simpl in Hrun. injection Hrun as <- <-. split; [done|]. split.
    + intros tf secs H. by apply elem_of_nil in H.
    + intros c Hc. by left.
  - simpl in Hrun, Hnd. apply NoDup_cons in Hnd as [Hnotin Hnd].
    rewrite update_one_bar_step in Hrun.
    destruct (get_bucket_start ts secs) as [bs|e] eqn:Eb; [|done].
    destruct (IH _ _ _ _ Hnd Hrun) as (H1 & H2 & H3).
    assert (Hother : forall t, t ∈ r.*1 ->
      buf_of (<[symbol := <[tf := (bar_step tf bs price volume
                                            (buf_of b symbol tf)).1]>
                            (default ∅ (b !! symbol))]> b) symbol t
      = buf_of b symbol t).
    { intros t Ht. rewrite buf_of_store. rewrite decide_False; [done|].
      intros [_ ->]. done. }
    split; [|split].
    + intros s t Hst. rewrite H1.
      * rewrite buf_of_store. rewrite decide_False; [done|].
        intros [-> ->]. apply Hst. split; [done|]. apply list_elem_of_here.
      * intros [-> Ht]. apply Hst. split; [done|].
        by apply list_elem_of_further.
    + intros tf' secs' Hin. apply elem_of_cons in Hin as [[= -> ->]|Hin].
      * exists bs. split; [done|]. rewrite H1.
        -- rewrite buf_of_store. by rewrite decide_True.
        -- by intros [_ ?].
      * destruct (H2 tf' secs' Hin) as (bs' & Hbs' & Hbuf).
        exists bs'. split; [done|]. rewrite Hbuf. rewrite Hother; [done|].
        apply list_elem_of_fmap. by exists (tf', secs').
    + intros c Hc. destruct (H3 c Hc) as [Hfin|(tf' & secs' & bs' & Hin & Hbs' & Hcl)].
      * apply elem_of_app in Hfin as [Hfin|Hcl]; [by left|].
        right. exists tf, secs, bs. split; [apply list_elem_of_here|].
        by split.
      * right. exists tf', secs', bs'.
        split; [by apply list_elem_of_further|]. split; [done|].
        rewrite Hother in Hcl; [done|].
        apply list_elem_of_fmap. by exists (tf', secs').
Qed.

Lemma dict_set_keys (m : list (string * Z)) (k : string) (v : Z) :
  NoDup m.*1 -> NoDup (dict_set m k v).*1 /\
  forall x, x ∈ (dict_set m k v).*1 <-> x = k \/ x ∈ m.*1.
Proof.
  induction m as [|[k' v'] m IH]; intros Hnd; simpl.
  - split; [apply NoDup_singleton|]. intros x.
    rewrite list_elem_of_singleton, elem_of_nil. tauto.
  - apply NoDup_cons in Hnd as [Hnotin Hnd].
    destruct (String.eqb_spec k' k) as [->|Hne]; simpl.
    + split; [by apply NoDup_cons|]. intros x. rewrite elem_of_cons. tauto.
    + destruct (IH Hnd) as [IH1 IH2]. split.
      * apply NoDup_cons. split; [|done]. rewrite IH2.
        intros [?|?]; [by apply Hne|done].
      * intros x. rewrite !elem_of_cons, IH2. tauto.
Qed.

(** [_parse_timeframes] builds a dict: no timeframe name occurs twice. *)
Lemma parse_timeframes_keys (tfs : list string) (m : list (string * Z)) :
  parse_timeframes tfs = Ok m -> NoDup m.*1.
Proof.
  unfold parse_timeframes.
  assert (H : forall m0 m, NoDup m0.*1 ->
                           parse_timeframes_from m0 tfs = Ok m -> NoDup m.*1).
  { induction tfs as [|tf r IH]; intros m0 m1 Hnd; simpl.
    - by intros [= <-].
    - destruct (parse_timeframe tf) as [secs|e]; [|done]. simpl.
      apply IH. by apply dict_set_keys. }
  apply H. constructor.
Qed.

(** The shape of a published snapshot: a bar with
    [low <= open, close <= high]. *)
Definition snapshot_ohlc (em : emission) : Prop :=
  match em with
  | (topic, PSnapshot (SnapDict _ (Some pl) _ _ _)) =>
      topic = "MARKET_SNAPSHOT"%string /\
      match bp_open pl, bp_high pl, bp_low pl, bp_close pl with
      | Some o, Some h, Some l, Some c =>
          (o <= h)%Q /\ (c <= h)%Q /\ (l <= o)%Q /\ (l <= c)%Q
      | _, _, _, _ => False
      end
  | _ => False
  end.

Lemma on_tick_ohlc (fromisoformat : string -> option Z) (st : state)
      (t : tick) :
  AggregatorClaims.buffers_ok (buffers st) ->
  AggregatorClaims.buffers_ok (buffers (r_state (on_tick fromisoformat st t)))
  /\ Forall snapshot_ohlc (r_publishes (on_tick fromisoformat st t)).
Proof.
  intros Hb. unfold on_tick.
  destruct (fromisoformat (replace_Z (tk_timestamp t))) as [ts|];
    [|by split].
  pose proof (AggregatorClaims.update_tick_ok st (upper (tk_symbol t))
                (tk_price t) (tk_volume t) ts Hb) as [H1 H2].
  destruct (update_tick st (upper (tk_symbol t)) (tk_price t) (tk_volume t) ts)
    as [st' [out|e]]; simpl in *; [|by split].
  split; [done|]. apply Forall_map.
  eapply Forall_impl; [by apply H2|].
  intros c (Ho & Hc & Hlo & Hlc). simpl. by repeat split.
Qed.

(** X5.  Whatever the timeframes and whatever the ticks whose price and
    volume are numbers (in order or not, with a timestamp that parses or
    not; a NaN, which [float] lets through, is not a number), from the
    empty buffers on: every candle the aggregator publishes and every
    candle it holds has [low <= open <= high] and
    [low <= close <= high]. *)
Theorem candles_keep_their_shape (fromisoformat : string -> option Z)
        (tfs : list (string * Z)) (ticks : list tick) :
  Forall snapshot_ohlc
         (feed (on_tick fromisoformat) (State tfs ∅) ticks).1.2 /\
  AggregatorClaims.buffers_ok
    (buffers (feed (on_tick fromisoformat) (State tfs ∅) ticks).1.1).
Proof.
  assert (H : forall st, AggregatorClaims.buffers_ok (buffers st) ->
    Forall snapshot_ohlc (feed (on_tick fromisoformat) st ticks).1.2 /\
    AggregatorClaims.buffers_ok
      (buffers (feed (on_tick fromisoformat) st ticks).1.1)).
  { induction ticks as [|t rest IH]; intros st Hb; simpl.
    - by split.
    - destruct (on_tick_ohlc fromisoformat st t Hb) as [Hb' Hp].
      destruct (r_raise (on_tick fromisoformat st t)); simpl; [by split|].
      destruct (IH _ Hb') as [IH1 IH2].
      destruct (feed (on_tick fromisoformat)
                     (r_state (on_tick fromisoformat st t)) rest)
        as [[st' ems] x]. simpl in *. split; [|done].
      apply Forall_app. by split. }
  apply H. intros symbol per tf buf Hs. cbn [buffers] in Hs.
  by rewrite lookup_empty in Hs.
Qed.

(** *** Alignment of the buckets *)

(** A timeframe of whole minutes that divides the hour. *)
Definition within_hour (secs : Z) : Prop :=
  (0 < secs)%Z /\ (60 | secs)%Z /\ (secs | 3600)%Z.

Definition buffers_aligned (tfs : list (string * Z))
           (b : gmap string (gmap string (list candle))) : Prop :=
  forall s tf secs c,
    (tf, secs) ∈ tfs -> c ∈ buf_of b s tf -> (secs * 1000000 | c_start c)%Z.

Definition snapshot_aligned (tfs : list (string * Z)) (em : emission)
  : Prop :=
  match em with
  | (_, PSnapshot (SnapDict _ _ (Some start) _ tf)) =>
      forall secs, (tf, secs) ∈ tfs -> (secs * 1000000 | start)%Z
  | _ => False
  end.

Lemma lookup_unique (tfs : list (string * Z)) (tf : string) (s1 s2 : Z) :
  NoDup tfs.*1 -> (tf, s1) ∈ tfs -> (tf, s2) ∈ tfs -> s1 = s2.
Proof.
  induction tfs as [|[k v] r IH]; intros Hnd H1 H2.
  - by apply elem_of_nil in H1.
  - simpl in Hnd. apply NoDup_cons in Hnd as [Hnotin Hnd].
    assert (Hk : forall s, (tf, s) ∈ r -> tf ∈ r.*1).
    { intros s Hs. apply list_elem_of_fmap. by exists (tf, s). }
    apply elem_of_cons in H1 as [E1|H1];
      apply elem_of_cons in H2 as [E2|H2].
    + congruence.
    + injection E1 as -> ->. destruct Hnotin. by apply (Hk s2).
    + injection E2 as -> ->. destruct Hnotin. by apply (Hk s1).
    + by apply IH.
Qed.

Lemma bar_step_aligned (tf : string) (bs : Z) (price volume : Q)
      (buf : list candle) (d : Z) :
  (d | bs)%Z -> Forall (fun c => (d | c_start c)%Z) buf ->
  Forall (fun c => (d | c_start c)%Z) (bar_step tf bs price volume buf).1 /\
  Forall (fun c => (d | c_start c)%Z /\ c_tf c = tf)
         (bar_step tf bs price volume buf).2.
Proof.
  intros Hbs Hbuf. unfold bar_step. destruct (last buf) as [bar|] eqn:E.
  - apply last_Some in E as [l' ->].
    rewrite !AggregatorClaims.insert_last.
    apply Forall_app in Hbuf as [Hl' Hbar].
    apply Forall_cons in Hbar as [Hbar _].
    destruct (bool_decide (c_start bar <> bs)); cbn [fst snd].
    + split.
      * apply Forall_app. split; [|by repeat constructor].
        apply Forall_app. split; [done|]. by repeat constructor.
      * by repeat constructor.
    + split; [|constructor]. apply Forall_app. split; [done|].
      by repeat constructor.
  - cbn [fst snd]. split; [|constructor]. by repeat constructor.
Qed.

Lemma update_loop_returns (tfs : list (string * Z)) :
  forall (b : gmap string (gmap string (list candle))) (symbol : string)
         (price volume : Q) (ts : Z) (fin : list candle),
    Forall (fun p => p.2 <> 0%Z) tfs ->
    exists out,
      (update_loop tfs b symbol price volume ts fin).2 = Ok out.
Proof.
  induction tfs as [|[tf secs] r IH];
    intros b symbol price volume ts fin Hnz.
  - by exists fin.
  - apply Forall_cons in Hnz as [Hs Hnz]. simpl in Hs. simpl.
    rewrite update_one_bar_step.
    destruct (get_bucket_start ts secs) as [bs|e] eqn:Eb.
    + by apply IH.
    + by apply get_bucket_start_raises in Eb as [_ ?].
Qed.

Lemma on_tick_aligned (fromisoformat : string -> option Z) (st : state)
      (t : tick) :
  NoDup (timeframes st).*1 ->
  Forall (fun p => within_hour p.2) (timeframes st) ->
  buffers_aligned (timeframes st) (buffers st) ->
  let r := on_tick fromisoformat st t in
  r_raise r = None /\ timeframes (r_state r) = timeframes st /\
  buffers_aligned (timeframes st) (buffers (r_state r)) /\
  Forall (snapshot_aligned (timeframes st)) (r_publishes r).
Proof.
  intros Hnd Hnice Hal r. subst r. unfold on_tick.
  destruct (fromisoformat (replace_Z (tk_timestamp t))) as [ts|];
    [|by repeat split].
  unfold update_tick.
  destruct (update_loop_returns (timeframes st) (buffers st)
              (upper (tk_symbol t)) (tk_price t) (tk_volume t) ts [])
    as [out Hout].
  { eapply Forall_impl; [exact Hnice|]. intros p (Hp & _). lia. }
  destruct (update_loop (timeframes st) (buffers st) (upper (tk_symbol t))
              (tk_price t) (tk_volume t) ts []) as [b' r] eqn:Hrun.
  simpl in Hout. subst r.
  destruct (update_loop_effect _ _ _ _ _ _ _ _ _ Hnd Hrun)
    as (H1 & H2 & H3).
  assert (Hstep : forall tf secs, (tf, secs) ∈ timeframes st ->
    exists bs, (secs * 1000000 | bs)%Z /\
      buf_of b' (upper (tk_symbol t)) tf
      = (bar_step tf bs (tk_price t) (tk_volume t)
                  (buf_of (buffers st) (upper (tk_symbol t)) tf)).1 /\
      get_bucket_start ts secs = Ok bs).
  { intros tf secs Hin. destruct (H2 tf secs Hin) as (bs & Hbs & Hbuf).
    exists bs. split; [|by split].
    destruct (proj1 (Forall_forall _ _) Hnice _ Hin) as (Hp & H60 & H3600).
    destruct (AggregatorClaims.get_bucket_start_aligned ts secs Hp H60 H3600)
      as (bs' & Hbs' & Hdiv & _).
    simpl in Hbs'. rewrite Hbs in Hbs'. by injection Hbs' as ->. }
  cbn [r_raise r_state r_publishes timeframes buffers].
  split; [done|]. split; [done|]. split.
  - intros s tf secs c Hin Hc.
    destruct (decide (s = upper (tk_symbol t))) as [->|Hs].
    + destruct (Hstep tf secs Hin) as (bs & Hdiv & Hbuf & _).
      rewrite Hbuf in Hc.
      destruct (bar_step_aligned tf bs (tk_price t) (tk_volume t)
                  (buf_of (buffers st) (upper (tk_symbol t)) tf)
                  (secs * 1000000) Hdiv) as [Hok _].
      { apply Forall_forall. intros c' Hc'.
        by apply (Hal (upper (tk_symbol t)) tf secs). }
      by apply (proj1 (Forall_forall _ _) Hok).
    + rewrite H1 in Hc by (by intros [? _]). by apply (Hal s tf secs).
  - apply Forall_map, Forall_forall. intros c Hc.
    destruct (H3 c Hc) as [Hnil|(tf & secs & bs & Hin & Hbs & Hcl)];
      [by apply elem_of_nil in Hnil|].
    destruct (Hstep tf secs Hin) as (bs' & Hdiv & _ & Hbs').
    rewrite Hbs in Hbs'. injection Hbs' as <-.
    destruct (bar_step_aligned tf bs (tk_price t) (tk_volume t)
                (buf_of (buffers st) (upper (tk_symbol t)) tf)
                (secs * 1000000) Hdiv) as [_ Hok].
    { apply Forall_forall. intros c' Hc'.
      by apply (Hal (upper (tk_symbol t)) tf secs). }
    destruct (proj1 (Forall_forall _ _) Hok c Hcl) as [Hd Htf].
    cbn [snapshot_aligned snapshot_msg]. intros secs' Hin'.
    rewrite Htf in Hin'.
    by rewrite (lookup_unique _ _ _ _ Hnd Hin' Hin).
Qed.

(** The tick is stamped in UTC: its timestamp ends in [Z] or in [+00:00],
    as in the format the aggregator documents.  The wall-clock minute and
    second [_get_bucket_start] reads are then those of the UTC instant. *)
Definition stamped_in_utc (t : tick) : Prop :=
  exists body : string,
    replace_Z (tk_timestamp t) = (body +:+ "+00:00")%string.

(** X6.  With timeframes of whole minutes that divide the hour (the
    default 1m, 5m and 1h are such), whatever the ticks stamped in UTC,
    from the empty buffers on: no call raises, and the [bucket_start] of
    every candle published or held is an exact multiple of the length of
    its timeframe since the epoch.  (A tick stamped with another offset,
    such as [+05:30], is bucketed by its own wall clock, and its one-hour
    bucket starts half an hour off.) *)
Theorem candles_aligned_within_the_hour
        (fromisoformat : string -> option Z) (tfs : list (string * Z))
        (ticks : list tick) :
  NoDup tfs.*1 ->
  Forall (fun p => within_hour p.2) tfs ->
  Forall stamped_in_utc ticks ->
  (feed (on_tick fromisoformat) (State tfs ∅) ticks).2 = None /\
  Forall (snapshot_aligned tfs)
         (feed (on_tick fromisoformat) (State tfs ∅) ticks).1.2 /\
  buffers_aligned tfs
    (buffers (feed (on_tick fromisoformat) (State tfs ∅) ticks).1.1).
Proof.
  intros Hnd Hnice _.
  assert (H : forall st, timeframes st = tfs ->
    buffers_aligned tfs (buffers st) ->
    (feed (on_tick fromisoformat) st ticks).2 = None /\
    Forall (snapshot_aligned tfs)
           (feed (on_tick fromisoformat) st ticks).1.2 /\
    buffers_aligned tfs (buffers (feed (on_tick fromisoformat) st ticks).1.1)).
  { induction ticks as [|t rest IH]; intros st Htf Hal; simpl.
    - by repeat split.
    - destruct (on_tick_aligned fromisoformat st t) as (Hr & Htf' & Hal' & Hp).
      { by rewrite Htf. } { by rewrite Htf. } { by rewrite Htf. }
      rewrite Htf in Htf', Hal', Hp. rewrite Hr.
      destruct (IH _ Htf' Hal') as (IH1 & IH2 & IH3).
      destruct (feed (on_tick fromisoformat)
                     (r_state (on_tick fromisoformat st t)) rest)
        as [[st' ems] x]. simpl in *. split; [done|]. split; [|done].
      apply Forall_app. by split. }
  apply H; [done|]. intros s tf secs c _ Hc. unfold buf_of in Hc.
  cbn [buffers] in Hc. rewrite lookup_empty in Hc. simpl in Hc.
  rewrite lookup_empty in Hc. by apply elem_of_nil in Hc.
Qed.

Lemma candles_aligned_within_the_hour_witness :
  (feed (on_tick Iso.fromisoformat)
        (State [("1m", 60); ("5m", 300); ("1h", 3600)]%Z ∅)
        [Examples.late_tick; Examples.early_tick]).2 = None /\
  Forall (snapshot_aligned [("1m", 60); ("5m", 300); ("1h", 3600)]%Z)
         (feed (on_tick Iso.fromisoformat)
               (State [("1m", 60); ("5m", 300); ("1h", 3600)]%Z ∅)
               [Examples.late_tick; Examples.early_tick]).1.2.
Proof.
  destruct (candles_aligned_within_the_hour Iso.fromisoformat
              [("1m", 60); ("5m", 300); ("1h", 3600)]%Z
              [Examples.late_tick; Examples.early_tick])
    as (H1 & H2 & _).
  - apply (bool_decide_unpack _). vm_compute. exact I.
  - apply Forall_cons_2; [|apply Forall_cons_2; [|apply Forall_cons_2;
                                                   [|apply Forall_nil_2]]].
    + split; [reflexivity|]. split; [by exists 1%Z|by exists 60%Z].
    + split; [reflexivity|]. split; [by exists 5%Z|by exists 12%Z].
    + split; [reflexivity|]. split; [by exists 60%Z|by exists 1%Z].
  - apply Forall_cons_2; [|apply Forall_cons_2; [|apply Forall_nil_2]].
    + by exists "2025-11-06T12:01:05.123"%string.
    + by exists "2025-11-06T12:00:59.900"%string.
  - by split.
Defined.

(** A second call with the same tick finds the candle the first call left
    for the bucket: it closes nothing and adds the volume of the tick once
    more. *)
Lemma bar_step_again (tf : string) (bs : Z) (price volume : Q)
      (buf : list candle) :
  exists l bar,
    (bar_step tf bs price volume buf).1 = l ++ [bar] /\
    bar_step tf bs price volume (l ++ [bar])
    = (l ++ [Candle (c_start bar) (c_tf bar) (c_open bar) (c_high bar)
                    (c_low bar) (c_close bar) (c_volume bar + volume)%Q],
       []).
Proof.
  assert (Hmax : forall h, py_max (py_max h price) price = py_max h price).
  { intros h. unfold py_max. destruct (Qltb h price) eqn:E.
    - destruct (Qltb price price) eqn:E'; [done|done].
    - by rewrite E. }
  assert (Hmin : forall h, py_min (py_min h price) price = py_min h price).
  { intros h. unfold py_min. destruct (Qltb price h) eqn:E.
    - destruct (Qltb price price) eqn:E'; [done|done].
    - by rewrite E. }
  assert (Hpp : Qltb price price = false).
  { apply NumFacts.Qltb_false. apply Qle_refl. }
  assert (Hfresh : forall l,
    bar_step tf bs price volume
             (l ++ [Candle bs tf price price price price volume])
    = (l ++ [Candle bs tf price price price price (volume + volume)%Q], [])).
  { intros l.
    pose proof (bar_step_same tf price volume l
                  (Candle bs tf price price price price volume)) as H.
    cbn [c_start c_tf c_open c_high c_low c_close c_volume] in H.
    rewrite H. unfold py_max, py_min. by rewrite Hpp. }
  unfold bar_step at 1. destruct (last buf) as [bar|] eqn:E.
  - apply last_Some in E as [l' ->].
    rewrite !AggregatorClaims.insert_last.
    destruct (bool_decide (c_start bar <> bs)) eqn:Eb; cbn [fst].
    + eexists _, _. split; [reflexivity|]. apply Hfresh.
    + apply bool_decide_eq_false in Eb. apply dec_stable in Eb. subst bs.
      eexists _, _. split; [reflexivity|].
      match goal with |- bar_step _ _ _ _ (_ ++ [?B]) = _ =>
        pose proof (bar_step_same tf price volume l' B) as H end.
      cbn [c_start c_tf c_open c_high c_low c_close c_volume] in H.
      rewrite H. cbn [c_start c_tf c_open c_high c_low c_close c_volume].
      by rewrite Hmax, Hmin.
  - cbn [fst]. exists [], (Candle bs tf price price price price volume).
    split; [done|]. apply (Hfresh []).
Qed.

(** [on_tick] called a second time with the tick it was just called
    with. *)
Lemma on_tick_again (fromisoformat : string -> option Z) (st : state)
      (t : tick) (ts : Z) :
  NoDup (timeframes st).*1 ->
  fromisoformat (replace_Z (tk_timestamp t)) = Some ts ->
  r_raise (on_tick fromisoformat st t) = None ->
  let st1 := r_state (on_tick fromisoformat st t) in
  exists st2,
    on_tick fromisoformat st1 t = Reaction st2 [] Propagate None /\
    forall tf secs, (tf, secs) ∈ timeframes st ->
      exists l bar,
        buf_of (buffers st1) (upper (tk_symbol t)) tf = l ++ [bar] /\
        buf_of (buffers st2) (upper (tk_symbol t)) tf
        = l ++ [Candle (c_start bar) (c_tf bar) (c_open bar) (c_high bar)
                       (c_low bar) (c_close bar)
                       (c_volume bar + tk_volume t)%Q].
Proof.
  intros Hnd Hts. unfold on_tick. rewrite Hts. unfold update_tick.
  destruct (update_loop (timeframes st) (buffers st) (upper (tk_symbol t))
              (tk_price t) (tk_volume t) ts []) as [b1 [out1|e]] eqn:Hrun1;
    [|done].
  intros _. cbn [r_state timeframes buffers].
  destruct (update_loop_effect _ _ _ _ _ _ _ _ _ Hnd Hrun1)
    as (_ & H2 & _).
  destruct (update_loop_returns (timeframes st) b1 (upper (tk_symbol t))
              (tk_price t) (tk_volume t) ts []) as [out2 Hout2].
  { apply Forall_forall. intros [tf secs] Hin Hz. simpl in Hz. subst secs.
    destruct (H2 tf 0%Z Hin) as (bs & Hbs & _). by vm_compute in Hbs. }
  destruct (update_loop (timeframes st) b1 (upper (tk_symbol t))
              (tk_price t) (tk_volume t) ts []) as [b2 r2] eqn:Hrun2.
  simpl in Hout2. subst r2.
  destruct (update_loop_effect _ _ _ _ _ _ _ _ _ Hnd Hrun2)
    as (_ & H2' & H3').
  assert (Hstep : forall tf secs, (tf, secs) ∈ timeframes st ->
    exists l bar,
      buf_of b1 (upper (tk_symbol t)) tf = l ++ [bar] /\
      exists bs, get_bucket_start ts secs = Ok bs /\
      bar_step tf bs (tk_price t) (tk_volume t) (l ++ [bar])
      = (l ++ [Candle (c_start bar) (c_tf bar) (c_open bar) (c_high bar)
                      (c_low bar) (c_close bar)
                      (c_volume bar + tk_volume t)%Q], [])).
  { intros tf secs Hin. destruct (H2 tf secs Hin) as (bs & Hbs & Hbuf).
    destruct (bar_step_again tf bs (tk_price t) (tk_volume t)
                (buf_of (buffers st) (upper (tk_symbol t)) tf))
      as (l & bar & Hl & Hagain).
    exists l, bar. split; [by rewrite Hbuf|]. exists bs. by split. }
  assert (Hnil : out2 = []).
  { destruct out2 as [|c out2]; [done|].
    destruct (H3' c (list_elem_of_here _ _))
      as [Hc|(tf & secs & bs & Hin & Hbs & Hc)];
      [by apply elem_of_nil in Hc|].
    destruct (Hstep tf secs Hin) as (l & bar & Hl & bs' & Hbs' & Hagain).
    rewrite Hbs in Hbs'. injection Hbs' as <-.
    rewrite Hl, Hagain in Hc. by apply elem_of_nil in Hc. }
  subst out2. eexists. split; [reflexivity|].
  cbn [buffers]. intros tf secs Hin.
  destruct (Hstep tf secs Hin) as (l & bar & Hl & bs & Hbs & Hagain).
  exists l, bar. split; [done|].
  destruct (H2' tf secs Hin) as (bs' & Hbs' & Hbuf').
  rewrite Hbs in Hbs'. injection Hbs' as <-.
  by rewrite Hbuf', Hl, Hagain.
Qed.

End AggregatorRuns.

(** ** A handler subscribed twice *)

Module WiringFacts.
Import Events EventBus Pipeline AggregatorFacts.

Section Twice.
Variable alpha_state : Type.
Variable fromisoformat : string -> option Z.
Variable b : gmap string (list (handler (world alpha_state) payload)).

(** X7.  [subscribe] keeps no set: on a bus where the aggregator's
    [on_tick] is subscribed twice to [RAW_MARKET] (its constructor
    subscribes it, [main] of [run_engine.py] and of [run_backtest.py]
    subscribe it again), one published tick is handled twice.  For a tick
    whose first handling closes no candle, the second handling closes none
    either and adds the volume of the tick once more to the open candle of
    every timeframe: each tick counts twice in the volume. *)
Theorem tick_handled_twice (fuel : nat) (w : world alpha_state) (t : tick)
        (ts : Z) :
  subscribers b "RAW_MARKET"
  = [h_on_tick alpha_state fromisoformat;
     h_on_tick alpha_state fromisoformat] ->
  NoDup (Aggregator.timeframes (w_agg w)).*1 ->
  fromisoformat (replace_Z (tk_timestamp t)) = Some ts ->
  r_raise (Aggregator.on_tick fromisoformat (w_agg w) t) = None ->
  r_publishes (Aggregator.on_tick fromisoformat (w_agg w) t) = [] ->
  let st1 := r_state (Aggregator.on_tick fromisoformat (w_agg w) t) in
  exists st2,
    publish (S fuel) b "RAW_MARKET" (PTick t) w
    = Some (Outcome b (set_agg alpha_state st2 w)
                    [("RAW_MARKET"%string, PTick t)] None) /\
    forall tf secs, (tf, secs) ∈ Aggregator.timeframes (w_agg w) ->
      exists l bar,
        buf_of (Aggregator.buffers st1) (upper (tk_symbol t)) tf
        = l ++ [bar] /\
        buf_of (Aggregator.buffers st2) (upper (tk_symbol t)) tf
        = l ++ [Aggregator.Candle
                  (Aggregator.c_start bar) (Aggregator.c_tf bar)
                  (Aggregator.c_open bar) (Aggregator.c_high bar)
                  (Aggregator.c_low bar) (Aggregator.c_close bar)
                  (Aggregator.c_volume bar + tk_volume t)%Q].
Proof.
  intros Hsub Hnd Hts Hraise Hpub st1.
  destruct (AggregatorRuns.on_tick_again fromisoformat (w_agg w) t ts
              Hnd Hts Hraise) as (st2 & Hsecond & Hvol).
  fold st1 in Hsecond, Hvol.
  exists st2. split; [|exact Hvol].
  unfold publish. cbn [publish_in]. unfold publish_body. rewrite Hsub.
  cbn [h_on_tick call_loop app]. unfold gather. cbn [gather_results].
  unfold on_tick at 1.
  destruct (Aggregator.on_tick fromisoformat (w_agg w) t)
    as [s1 p1 pol1 e1] eqn:Hfirst.
  cbn [r_raise r_publishes r_state] in Hraise, Hpub, st1. subst e1 p1 st1.
  unfold react at 1. cbn [r_state r_raise r_publishes r_on_error await_all run].
  unfold on_tick at 1. cbn [w_agg set_agg]. rewrite Hsecond.
  reflexivity.
Qed.

End Twice.

Lemma tick_handled_twice_witness :
  exists st2,
    publish 1 (Pipeline.run_engine_bus unit Examples.flat_score
                 Iso.fromisoformat Examples.latency_100ms)
            "RAW_MARKET" (PTick Examples.late_tick) Examples.world0
    = Some (Outcome
              (Pipeline.run_engine_bus unit Examples.flat_score
                 Iso.fromisoformat Examples.latency_100ms)
              (set_agg unit st2 Examples.world0)
              [("RAW_MARKET"%string, PTick Examples.late_tick)] None) /\
    exists l bar,
      buf_of (Aggregator.buffers st2) "BTCUSDT" "1m" = l ++ [bar] /\
      (Aggregator.c_volume bar == 2)%Q.
Proof.
  destruct (tick_handled_twice unit Iso.fromisoformat
              (Pipeline.run_engine_bus unit Examples.flat_score
                 Iso.fromisoformat Examples.latency_100ms)
              0 Examples.world0 Examples.late_tick 1762430465123000%Z)
    as (st2 & Hpub & Hvol).
  - reflexivity.
  - apply (bool_decide_unpack _). vm_compute. exact I.
  - vm_compute. reflexivity.
  - vm_compute. reflexivity.
  - vm_compute. reflexivity.
  - exists st2. split; [exact Hpub|].
    destruct (Hvol "1m"%string 60%Z) as (l & bar & H1 & H2);
      [apply list_elem_of_here|].
    eexists _, _. split; [exact H2|]. cbn [Aggregator.c_volume].
    assert (Hb : Aggregator.c_volume bar = 1%Q).
    { assert (Hl : last (l ++ [bar])
                   = Some (Aggregator.Candle 1762430460000000 "1m" 101 101
                                             101 101 1)).
      { rewrite <- H1. vm_compute. reflexivity. }
      rewrite last_snoc in Hl. by injection Hl as ->. }
    rewrite Hb. reflexivity.
Defined.

End WiringFacts.

(** ** The Stream Router: ticks that wait *)

Module RouterFacts.
Import Events Router RouterSpec.

(** X8.  The consumer tests its flush condition only when an item
    arrives: at most 50 ticks that arrive before the buffer window since
    the last flush has elapsed are buffered and none of them is published,
    however long ago they arrived, until a later arrival flushes. *)
Theorem ticks_wait_for_a_later_arrival
        (fromisoformat : string -> option Z) (buffer_ms start : Q)
        (arrivals : list arrival) :
  no_clash (map (entry_of fromisoformat) arrivals) ->
  Forall (fun a => Qle_bool buffer_ms ((arr_now a - start) * 1000) = false)
         arrivals ->
  length arrivals <= 50 ->
  exists st outs,
    run_consumer fromisoformat buffer_ms (Consumer [] start) arrivals
    = Ok (st, outs) /\
    emitted outs = [] /\
    buffer st ≡ₚ map (entry_of fromisoformat) arrivals.
Proof.
  intros HU Hwin Hlen.
  destruct (run_consumer_no_flush _ HU fromisoformat buffer_ms arrivals
              (Consumer [] start) heap_inv_nil (Forall_nil_2 _)
              (RouterClaims.good_arrivals fromisoformat arrivals)
              Hwin Hlen)
    as (st & outs & Hrun & _ & _ & Hout & _ & Hbuf).
  exists st, outs. by repeat split.
Qed.

Lemma ticks_wait_for_a_later_arrival_witness :
  exists st outs,
    run_consumer Iso.fromisoformat 200 (Consumer [] 0)
                 [Examples.arrive 10 5; Examples.arrive 20 3]
    = Ok (st, outs) /\
    emitted outs = [] /\
    buffer st ≡ₚ map (entry_of Iso.fromisoformat)
                     [Examples.arrive 10 5; Examples.arrive 20 3].
Proof.
  apply (ticks_wait_for_a_later_arrival Iso.fromisoformat 200 0
           [Examples.arrive 10 5; Examples.arrive 20 3]).
  - apply distinct_no_clash, RouterClaims.distinct_epochsb_sound.
    vm_compute. reflexivity.
  - repeat constructor.
  - simpl. lia.
Defined.

End RouterFacts.

(** ** The Strategy Blender: what it drops and what it keeps *)

Module BlenderFacts.
Import Events Blender NumFacts.

(** X9.  What the aggregator publishes is what the blender extracts: from
    the snapshot built for a closed candle, [_extract_candle] gives the
    upper-cased symbol, the close as the price and the bar of the candle.
    The one exception is a candle that closed at 0: the payload has no
    [price] to fall back to, the extraction raises and the snapshot is
    dropped. *)
Theorem closed_candle_is_extracted (now : Z) (source symbol : string)
        (c : Aggregator.candle) :
  extract_candle now (Aggregator.snapshot_msg source symbol c)
  = if Qeq_bool (Aggregator.c_close c) 0 then None
    else Some (upper symbol, Aggregator.c_close c,
               Candle (upper symbol) (Aggregator.c_close c)
                      (Aggregator.c_open c) (Aggregator.c_high c)
                      (Aggregator.c_low c) (Aggregator.c_volume c)
                      (Aggregator.c_start c)).
Proof.
  unfold extract_candle, Aggregator.snapshot_msg. cbn [bp_close bp_price].
  by destruct (Qeq_bool (Aggregator.c_close c) 0).
Qed.

Section Blender.
Variable alpha_state : Type.
Variable alpha_score :
  string -> candle -> alpha_state -> option Q * alpha_state.

(** [self.virt_pos[alpha][symbol]], 0 when it was never touched. *)
Definition virt_at (vp : gmap string (gmap string Q)) (alpha symbol : string)
  : Q :=
  default 0%Q (default ∅ (vp !! alpha) !! symbol).

Lemma update_attribution_zero (names : list string) (symbol : string) :
  forall (vp : gmap string (gmap string Q)) (alpha s : string),
    (virt_at
       (fold_left
          (fun vp '(alpha, du) =>
             let per := default ∅ (vp !! alpha) in
             <[alpha := <[symbol := (default 0 (per !! symbol) + du)%Q]> per]>
               vp)
          (map (fun a => (a, 0%Q)) names) vp) alpha s
     == virt_at vp alpha s)%Q.
Proof.
  induction names as [|n r IH]; intros vp alpha s; simpl; [reflexivity|].
  rewrite IH. unfold virt_at.
  destruct (decide (alpha = n)) as [->|Hn].
  - rewrite lookup_insert_eq. simpl.
    destruct (decide (s = symbol)) as [->|Hs].
    + rewrite lookup_insert_eq. simpl. ring.
    + rewrite lookup_insert_ne by done. reflexivity.
  - rewrite lookup_insert_ne by done. reflexivity.
Qed.

Lemma on_market_snapshot_virt (st : state alpha_state) (now : Z)
      (snap : snapshot) (alpha s : string) :
  (virt_at (virt_pos (r_state (on_market_snapshot alpha_state alpha_score
                                 st now snap))) alpha s
   == virt_at (virt_pos st) alpha s)%Q.
Proof.
  unfold on_market_snapshot.
  destruct (negb (enabled st)); [reflexivity|].
  destruct (extract_candle now snap) as [[[symbol price] c]|];
    [|reflexivity].
  destruct (score_all alpha_state alpha_score alphas c (strategies st) ∅)
    as [scores a'].
  destruct (combine alphas (alpha_weights st) scores 0) as [combined|e];
    [|reflexivity].
  cbn [last_published_score update_attribution].
  destruct (dd_get 0%Q symbol (last_published_score st)) as [last lps].
  destruct (Qltb _ _); cbn [r_state virt_pos update_attribution];
    apply update_attribution_zero.
Qed.

(** X10.  The virtual positions of the blender never move: each snapshot
    adds 0 units for every strategy, so after any sequence of snapshots,
    from the constructor on, every [virt_pos[alpha][symbol]] is 0. *)
Theorem virtual_positions_stay_zero
        (weights : option (gmap string Q)) (enable : bool) (a : alpha_state)
        (snaps : list (Z * snapshot)) (alpha s : string) :
  (virt_at
     (virt_pos
        (Feed.feed
           (fun st e => on_market_snapshot alpha_state alpha_score st
                                           (fst e) (snd e))
           (init alpha_state weights enable a) snaps).1.1) alpha s
   == 0)%Q.
Proof.
  assert (H : forall st,
    (virt_at
       (virt_pos
          (Feed.feed
             (fun st e => on_market_snapshot alpha_state alpha_score st
                                             (fst e) (snd e))
             st snaps).1.1) alpha s
     == virt_at (virt_pos st) alpha s)%Q).
  { induction snaps as [|[now snap] rest IH]; intros st; simpl;
      [reflexivity|].
    destruct (r_raise (on_market_snapshot alpha_state alpha_score st now
                                          snap)); simpl.
    - apply on_market_snapshot_virt.
    - specialize (IH (r_state (on_market_snapshot alpha_state alpha_score
                                 st now snap))).
      destruct (Feed.feed _ _ rest) as [[st' ems] x]. simpl in *.
      rewrite IH. apply on_market_snapshot_virt. }
  rewrite H. unfold virt_at, init. cbn [virt_pos].
  rewrite lookup_empty. simpl. by rewrite lookup_empty.
Qed.

Lemma combine_missing (names : list string) (weights scores : gmap string Q) :
  forall acc : Q,
    Forall (fun n => is_Some (scores !! n)) names ->
    Exists (fun n => weights !! n = None) names ->
    combine names weights scores acc = Raise KeyError.
Proof.
  induction names as [|n r IH]; intros acc Hsc Hex.
  - by apply Exists_nil in Hex.
  - apply Forall_cons in Hsc as [[s Hs] Hsc]. simpl. rewrite Hs.
    destruct (weights !! n) as [w|] eqn:Hw; [|done].
    apply Exists_cons in Hex as [Hn|Hex]; [congruence|]. by apply IH.
Qed.

(** X11.  Custom weights that leave out a strategy make every snapshot a
    candle is extracted from raise [KeyError] out of
    [on_market_snapshot]: nothing is published and no score is recorded
    as published. *)
Theorem missing_weight_raises (st : state alpha_state) (now : Z)
        (snap : snapshot) (symbol : string) (price : Q) (c : candle) :
  enabled st = true ->
  extract_candle now snap = Some (symbol, price, c) ->
  Exists (fun name => alpha_weights st !! name = None) alphas ->
  let r := on_market_snapshot alpha_state alpha_score st now snap in
  r_raise r = Some KeyError /\ r_publishes r = [] /\
  last_published_score (r_state r) = last_published_score st.
Proof.
  intros Hen Hext Hmiss r. subst r. unfold on_market_snapshot.
  rewrite Hen, Hext. cbn [negb].
  pose proof (BlenderClaims.score_all_covers alpha_state alpha_score alphas c
                (strategies st) ∅) as Hcov.
  destruct (score_all alpha_state alpha_score alphas c (strategies st) ∅)
    as [scores a']. cbn [fst] in Hcov.
  rewrite (combine_missing alphas (alpha_weights st) scores 0); [done| |done].
  apply Forall_forall. intros n Hn. apply Hcov. by left.
Qed.

End Blender.

Lemma missing_weight_raises_witness :
  r_raise (on_market_snapshot unit Examples.keen_score
             (init unit (Some {["momentum"%string := 1%Q]}) true tt)
             Examples.clock0 Examples.btc_bar) = Some KeyError.
Proof.
  destruct (missing_weight_raises unit Examples.keen_score
              (init unit (Some {["momentum"%string := 1%Q]}) true tt)
              Examples.clock0 Examples.btc_bar "BTCUSDT" 100
              (Candle "BTCUSDT" 100 100 101 99 1 1762430460000000))
    as (H & _).
  - reflexivity.
  - reflexivity.
  - apply Exists_cons_hd. reflexivity.
  - exact H.
Defined.

End BlenderFacts.

(** ** The Portfolio Ledger: what a fill does to the books *)

Module LedgerFacts.
Import Events Ledger NumFacts.

(** Two results of the mark-to-market sum that a reader cannot tell
    apart: the same sum, and the same price under every symbol. *)
Definition same_mark (r1 r2 : Q * gmap string Q) : Prop :=
  (fst r1 == fst r2)%Q /\
  forall s, default 0%Q (snd r1 !! s) = default 0%Q (snd r2 !! s).

#[local] Instance same_mark_preorder : PreOrder same_mark.
Proof.
  split.
  - intros r. by split.
  - intros r1 r2 r3 [H1 H2] [H3 H4]. split.
    + by rewrite H1.
    + intros s. by rewrite H2.
Qed.

Lemma mark_step_proper (j : string) (z : Q) :
  Proper (same_mark ==> same_mark)
         (fun '(acc, lp) =>
            let '(p, lp') := dd_get 0%Q j lp in ((acc + z * p)%Q, lp')).
Proof.
  intros [a1 l1] [a2 l2] [H1 H2]. simpl in H1, H2.
  pose proof (dd_get_fst 0%Q j l1) as F1.
  pose proof (dd_get_fst 0%Q j l2) as F2.
  destruct (dd_get 0%Q j l1) as [p1 l1'] eqn:E1.
  destruct (dd_get 0%Q j l2) as [p2 l2'] eqn:E2.
  simpl in *. split; simpl.
  - rewrite H1, F1, F2, H2. reflexivity.
  - intros s.
    pose proof (dd_get_snd 0%Q j s l1) as S1.
    pose proof (dd_get_snd 0%Q j s l2) as S2.
    rewrite E1 in S1. rewrite E2 in S2. simpl in *.
    by rewrite S1, S2.
Qed.

Lemma mark_to_market_prices (pos lp : gmap string Q) (s : string) :
  default 0%Q ((mark_to_market pos lp).2 !! s) = default 0%Q (lp !! s).
Proof.
  unfold mark_to_market.
  apply (map_fold_weak_ind
           (fun (r : Q * gmap string Q) (_ : gmap string Q) =>
              default 0%Q (r.2 !! s) = default 0%Q (lp !! s))); [done|].
  intros i x m [acc l] _ IH. simpl in IH.
  pose proof (dd_get_snd 0%Q i s l) as S1.
  destruct (dd_get 0%Q i l) as [p l']. simpl in *. by rewrite S1.
Qed.

Lemma mark_to_market_insert (pos lp : gmap string Q) (i : string) (x : Q) :
  pos !! i = None ->
  ((mark_to_market (<[i := x]> pos) lp).1
   == (mark_to_market pos lp).1 + x * default 0 (lp !! i))%Q.
Proof.
  intros Hi.
  pose proof (mark_to_market_prices pos lp i) as Hp.
  unfold mark_to_market in *.
  destruct (map_fold_insert same_mark
              (fun s q '(acc, lp) =>
                 let '(p, lp') := dd_get 0%Q s lp in ((acc + q * p)%Q, lp'))
              (0%Q, lp) i x pos) as [H1 _].
  - intros j z. apply mark_step_proper.
  - intros j1 j2 z1 z2 [acc l] _ _ _.
    pose proof (dd_get_fst 0%Q j1 l) as F1.
    pose proof (dd_get_fst 0%Q j2 l) as F2.
    pose proof (dd_get_snd 0%Q j1 j2 l) as S12.
    pose proof (dd_get_snd 0%Q j2 j1 l) as S21.
    pose proof (fun s => dd_get_snd 0%Q j1 s l) as T1.
    pose proof (fun s => dd_get_snd 0%Q j2 s l) as T2.
    destruct (dd_get 0%Q j1 l) as [p1 l1].
    destruct (dd_get 0%Q j2 l) as [p2 l2]. simpl in *.
    pose proof (dd_get_fst 0%Q j1 l2) as G1.
    pose proof (dd_get_fst 0%Q j2 l1) as G2.
    pose proof (fun s => dd_get_snd 0%Q j1 s l2) as U1.
    pose proof (fun s => dd_get_snd 0%Q j2 s l1) as U2.
    destruct (dd_get 0%Q j1 l2) as [q1 m1].
    destruct (dd_get 0%Q j2 l1) as [q2 m2]. simpl in *.
    split; simpl.
    + rewrite G1, G2, S12, S21, F1, F2. ring.
    + intros s. by rewrite U1, U2, T1, T2.
  - done.
  - destruct (map_fold _ _ pos) as [acc l]. simpl in *.
    pose proof (dd_get_fst 0%Q i l) as F.
    destruct (dd_get 0%Q i l) as [p l']. simpl in *.
    rewrite H1, F, Hp. reflexivity.
Qed.

(** Moving one position by [dq] moves the mark-to-market sum by [dq]
    times the price of the symbol. *)
Lemma mark_to_market_move (pos lp : gmap string Q) (i : string) (dq : Q) :
  ((mark_to_market (<[i := (default 0 (pos !! i) + dq)%Q]> pos) lp).1
   == (mark_to_market pos lp).1 + dq * default 0 (lp !! i))%Q.
Proof.
  rewrite <- (insert_delete_eq pos i).
  rewrite (mark_to_market_insert (delete i pos) lp i) by apply lookup_delete_eq.
  destruct (pos !! i) as [x|] eqn:E.
  - rewrite <- (insert_delete_id pos i x E) at 2.
    rewrite (mark_to_market_insert (delete i pos) lp i)
      by apply lookup_delete_eq.
    simpl. ring.
  - rewrite (delete_id pos i E). simpl. ring.
Qed.

Lemma cash_after_fill (direction : string) (q price c k : Q) :
  let qty_signed :=
    if String.eqb (upper direction) "BUY" then q else (- q)%Q in
  ((if Qltb 0 qty_signed
    then c - (price * Qabs q + k) else c + (price * Qabs q - k))
   == c - price * qty_signed - k)%Q.
Proof.
  intros qty_signed.
  assert (Ha : (Qabs q == Qabs qty_signed)%Q).
  { subst qty_signed. destruct (String.eqb _ _); [reflexivity|].
    by rewrite Qabs_opp. }
  destruct (Qltb 0 qty_signed) eqn:E; rewrite Ha.
  - apply Qltb_true in E. rewrite Qabs_pos by (by apply Qlt_le_weak). ring.
  - apply Qltb_false in E. rewrite Qabs_neg by done. ring.
Qed.

(** X12.  A fill trades at its own mark: the equity published on
    [PORTFOLIO_MARK] after a fill is the cash before the fill plus the old
    positions valued at the prices after the fill, minus the commission.
    Cash moves by the signed value of the trade and the commission, the
    unrealized value by the signed value of the trade, whatever the signs
    of the quantity and of the direction. *)
Theorem fill_costs_the_commission (st : state) (now : Z) (f : fill) :
  r_raise (on_fill st now f) = None ->
  let symbol := upper (f_symbol f) in
  let price := f_fill_price f in
  let qty_signed :=
    if String.eqb (upper (f_direction f)) "BUY"
    then f_quantity f else (- f_quantity f)%Q in
  let before :=
    (mark_to_market (positions st) (<[symbol := price]> (last_prices st))).1
  in
  exists (equity cash' unreal : Q) (rest : list emission),
    r_publishes (on_fill st now f)
    = ("PORTFOLIO_MARK"%string, PMark now equity cash' unreal) :: rest /\
    cash (r_state (on_fill st now f)) = cash' /\
    (cash' == cash st - price * qty_signed - f_commission f)%Q /\
    (unreal == before + price * qty_signed)%Q /\
    (equity == cash st + before - f_commission f)%Q.
Proof.
  intros Hok symbol price qty_signed before.
  pose proof (mark_to_market_move (positions st)
                (<[symbol := price]> (last_prices st)) symbol qty_signed)
    as Hmove.
  rewrite lookup_insert_eq in Hmove. cbn [default id] in Hmove.
  fold before in Hmove.
  pose proof (cash_after_fill (f_direction f) (f_quantity f) price (cash st)
                (f_commission f)) as Hcash.
  cbv zeta in Hcash. fold qty_signed in Hcash.
  unfold on_fill in *. fold symbol price qty_signed in Hok |- *.
  destruct (match f_meta f !! "scores"%string with
            | Some (VDict d) => Some d
            | Some _ => None
            | None => Some {["GENERIC"%string := 1%Q]}
            end) as [scores|]; [|done].
  destruct (mark_to_market _ _) as [unreal lp'].
  cbn [fst] in Hmove.
  eexists _, _, unreal, _. split; [reflexivity|]. cbn [r_state cash].
  split; [reflexivity|].
  split; [exact Hcash|]. split.
  - rewrite Hmove. ring.
  - rewrite Hcash, Hmove. ring.
Qed.

Lemma fill_costs_the_commission_witness :
  exists (equity cash' unreal : Q) (rest : list emission),
    r_publishes (on_fill Examples.ledger0 Examples.clock0 Examples.fill_08)
    = ("PORTFOLIO_MARK"%string, PMark Examples.clock0 equity cash' unreal)
        :: rest /\
    (equity == cash Examples.ledger0 - f_commission Examples.fill_08)%Q.
Proof.
  destruct (fill_costs_the_commission Examples.ledger0 Examples.clock0
              Examples.fill_08 eq_refl)
    as (equity & cash' & unreal & rest & Hp & _ & _ & _ & He).
  exists equity, cash', unreal, rest. split; [exact Hp|].
  rewrite He. vm_compute. reflexivity.
Defined.

(** [self.alpha_virtual_pos[alpha][symbol]], 0 when it was never touched. *)
Definition exposure (avp : gmap string (gmap string Q))
           (alpha symbol : string) : Q :=
  default 0%Q (default ∅ (avp !! alpha) !! symbol).

Lemma attribute_exposure (avp : gmap string (gmap string Q))
      (symbol : string) (q : Q) (scores : gmap string Q)
      (alpha s : string) :
  (exposure (attribute avp symbol q scores) alpha s
   == exposure avp alpha s
      + (if decide (s = symbol) then q * default 0 (scores !! alpha) else 0))%Q.
Proof.
  unfold attribute.
  apply (map_fold_weak_ind
           (fun (r : gmap string (gmap string Q)) (m : gmap string Q) =>
              (exposure r alpha s
               == exposure avp alpha s
                  + (if decide (s = symbol)
                     then q * default 0 (m !! alpha) else 0))%Q)).
  - rewrite lookup_empty. simpl. destruct (decide _); ring.
  - intros i x m r Hi IH. unfold exposure in *.
    destruct (decide (alpha = i)) as [->|Hne].
    + rewrite !lookup_insert_eq. rewrite Hi in IH. cbn [default id] in *.
      destruct (decide (s = symbol)) as [->|Hs].
      * rewrite lookup_insert_eq. cbn [default id]. rewrite IH. ring.
      * rewrite lookup_insert_ne by done. exact IH.
    + rewrite !lookup_insert_ne by done. exact IH.
Qed.

(** X13.  A fill is attributed by score: every strategy named in the
    [scores] dict of the fill's meta gains the signed quantity times its
    score in its virtual position of the symbol of the fill; a fill
    without [scores] is attributed in full to [GENERIC]; no other virtual
    position moves. *)
Theorem fill_is_attributed_by_score (st : state) (now : Z) (f : fill)
        (d : gmap string Q) :
  f_meta f !! "scores"%string = Some (VDict d) \/
  (f_meta f !! "scores"%string = None /\ d = {["GENERIC"%string := 1%Q]}) ->
  let symbol := upper (f_symbol f) in
  let qty_signed :=
    if String.eqb (upper (f_direction f)) "BUY"
    then f_quantity f else (- f_quantity f)%Q in
  forall alpha s,
    (exposure (alpha_virtual_pos (r_state (on_fill st now f))) alpha s
     == exposure (alpha_virtual_pos st) alpha s
        + (if decide (s = symbol)
           then qty_signed * default 0 (d !! alpha) else 0))%Q.
Proof.
  intros Hd symbol qty_signed alpha s.
  unfold on_fill. fold symbol qty_signed.
  assert (Hs : match f_meta f !! "scores"%string with
               | Some (VDict d) => Some d
               | Some _ => None
               | None => Some {["GENERIC"%string := 1%Q]}
               end = Some d).
  { destruct Hd as [->|[-> ->]]; done. }
  rewrite Hs. destruct (mark_to_market _ _) as [unreal lp'].
  cbn [r_state alpha_virtual_pos]. apply attribute_exposure.
Qed.

Lemma fill_is_attributed_by_score_witness :
  (exposure (alpha_virtual_pos
               (r_state (on_fill Examples.ledger0 Examples.clock0
                                 Examples.fill_08)))
            "momentum" "BTCUSDT" == 0.0064)%Q.
Proof.
  rewrite (fill_is_attributed_by_score Examples.ledger0 Examples.clock0
             Examples.fill_08 {["momentum"%string := 0.8%Q]}
             (or_introl eq_refl) "momentum"%string "BTCUSDT"%string).
  vm_compute. reflexivity.
Defined.

End LedgerFacts.

(** ** The chain from signal to position: exposure limits *)

Module PipelineFacts.
Import Events EventBus Pipeline NumFacts.

(** Every position is within the noise floor of its exposure limit. *)
Definition within_limits (l : Ledger.state) : Prop :=
  forall s : string,
    (Qabs (default 0 (Ledger.positions l !! s))
     < Qabs (default Ledger.DEFAULT_MAX_UNITS (Ledger.max_units l !! s))
       + Qmax 1e-6 0.0004)%Q.

Lemma clamp_bound (score units : Q) :
  (Qabs (Qmax (-1) (Qmin 1 score) * units) <= Qabs units)%Q.
Proof.
  rewrite Qabs_Qmult.
  apply Qle_trans with (1 * Qabs units)%Q; [|rewrite Qmult_1_l; apply Qle_refl].
  apply Qmult_le_compat_r; [|apply Qabs_nonneg].
  apply Qabs_Qle_condition. split.
  - apply Q.le_max_l.
  - apply Q.max_lub; [done|]. apply Q.le_min_l.
Qed.

Section Limits.
Variable alpha_state : Type.
Variable latency : Z -> Z.
Variable b : gmap string (list (handler (world alpha_state) payload)).
Hypothesis signal_wired : subscribers b "SIGNAL" = [h_on_signal alpha_state].
Hypothesis order_wired :
  subscribers b "ORDER" = [h_on_order alpha_state latency].
Hypothesis fill_wired : subscribers b "FILL" = [h_on_fill alpha_state].
Hypothesis mark_unheard : subscribers b "PORTFOLIO_MARK" = [].
Hypothesis pnl_unheard : subscribers b "ALPHA_PNL_TICK" = [].

(** One signal through the chain keeps the positions within limits. *)
Lemma publish_signal_limits (fuel : nat) (w : world alpha_state)
      (sg : signal) :
  Execution.has_bus (w_exec w) = true ->
  within_limits (w_ledger w) ->
  exists w' tr,
    publish_in (S (S (S (S fuel)))) b "SIGNAL" (PSignal sg) w
    = Some (w', tr, None) /\
    Execution.has_bus (w_exec w') = true /\
    within_limits (w_ledger w').
Proof.
  intros Hbus Hlim.
  rewrite (PipelineClaims.publish_in_single _ _ _ _ _ _ _ signal_wired).
  unfold Pipeline.on_signal.
  destruct (decide (sg_direction sg = Some "TARGET"%string)) as [Hdir|Hdir].
  - pose proof (LedgerClaims.on_signal_target
                (w_ledger w)
                (Ledger.utcnow_timestamp (w_utcoffset w) (w_clock w)) sg
                  Hdir) as Hs.
    cbv zeta in Hs.
    set (symbol := upper (sg_symbol sg)) in *.
    set (score := default 0%Q (sg_score sg)) in *.
    set (units := default Ledger.DEFAULT_MAX_UNITS
                          (Ledger.max_units (w_ledger w) !! symbol)) in *.
    set (current := default 0%Q (Ledger.positions (w_ledger w) !! symbol))
      in *.
    set (delta := (Qmax (-1) (Qmin 1 score) * units - current)%Q) in *.
    set (st' := Ledger.State _ _ _ _ _) in Hs.
    assert (Hu' : forall s,
      default Ledger.DEFAULT_MAX_UNITS (Ledger.max_units st' !! s)
      = default Ledger.DEFAULT_MAX_UNITS
                (Ledger.max_units (w_ledger w) !! s)).
    { intros s. subst st'. cbn [Ledger.max_units]. apply dd_get_snd. }
    assert (Hc' : forall s,
      default 0%Q (Ledger.positions st' !! s)
      = default 0%Q (Ledger.positions (w_ledger w) !! s)).
    { intros s. subst st'. cbn [Ledger.positions]. apply dd_get_snd. }
    rewrite Hs.
    destruct (Qltb (Qabs delta) (Qmax 1e-6 0.0004)) eqn:Hnoise.
    + rewrite PipelineClaims.run_react_quiet. eexists _, _.
      split; [reflexivity|]. split; [done|].
      intros s. cbn [w_ledger set_ledger]. rewrite Hu', Hc'. apply Hlim.
    + set (o := Order symbol (Qabs delta)
                      (if Qltb 0 delta then "BUY" else "SELL")%string
                      (sg_price sg) (Ledger.order_id_at
                       (Ledger.utcnow_timestamp (w_utcoffset w)
                                                (w_clock w)))
                      (Ledger.order_meta sg score)).
      destruct (LedgerClaims.order_meta_scores sg score) as [d Hd].
      destruct (PipelineClaims.publish_order alpha_state latency b
                  order_wired fill_wired mark_unheard pnl_unheard
                  fuel (set_ledger alpha_state st' w) o d Hbus Hd)
        as (w' & tr & Ho & _ & Hbus' & Hu & Hp).
      rewrite (PipelineClaims.run_react_one _ _ _ _ _ _ _ _ _ _ Ho).
      eexists w', _. split; [reflexivity|]. split; [done|].
      intros s. rewrite Hu, Hp.
      cbn [w_ledger set_ledger o_symbol o_direction o_quantity o].
      assert (Hsym : upper symbol = symbol) by apply upper_idemp.
      rewrite Hsym, Hu'.
      destruct (decide (s = symbol)) as [->|Hne].
      * rewrite lookup_insert_eq, Hc'. cbn [default id]. fold current units.
        assert (Hq : ((if String.eqb
                            (upper (if Qltb 0 delta then "BUY" else "SELL"))
                            "BUY"
                       then Qabs delta else - Qabs delta) == delta)%Q).
        { destruct (Qltb 0 delta) eqn:Hpos.
          - change (Qabs delta == delta)%Q.
            apply Qabs_pos. apply Qlt_le_weak. by apply Qltb_true.
          - change (- Qabs delta == delta)%Q.
            rewrite Qabs_neg by (by apply Qltb_false). ring. }
        rewrite Hq.
        assert (Hz : (current + delta
                      == Qmax (-1) (Qmin 1 score) * units)%Q)
          by (unfold delta; ring).
        rewrite Hz.
        apply Qle_lt_trans with (Qabs units); [apply clamp_bound|].
        rewrite <- (Qplus_0_r (Qabs units)) at 1.
        apply Qplus_lt_r. done.
      * rewrite lookup_insert_ne by done. rewrite Hc'. apply Hlim.
  - unfold Ledger.on_signal. rewrite bool_decide_eq_false_2 by done.
    cbn [negb]. rewrite PipelineClaims.run_react_quiet.
    eexists _, _. split; [reflexivity|]. by split.
Qed.

(** X14.  The ledger keeps every position within its exposure limit: on
    a bus where [SIGNAL], [ORDER] and [FILL] reach the ledger, the
    simulator and the ledger, whatever signals are published one after the
    other, for whatever symbols and with whatever scores, every publish
    returns without an exception, and if every position was within the
    noise floor of [max_units] of its symbol before, in absolute value,
    every position still is afterwards. *)
Theorem positions_stay_within_limits
        (fuel : nat) (sigs : list signal) (w : world alpha_state) :
  Execution.has_bus (w_exec w) = true ->
  4 <= fuel ->
  within_limits (w_ledger w) ->
  exists w' tr,
    publish_signals alpha_state fuel b sigs w = Some (w', tr, None) /\
    within_limits (w_ledger w').
Proof.
  intros Hbus Hfuel Hlim.
  destruct fuel as [|[|[|[|fuel]]]]; try lia. clear Hfuel.
  revert w Hbus Hlim. unfold publish_signals.
  induction sigs as [|sg rest IH]; intros w Hbus Hlim.
  - by exists w, [].
  - destruct (publish_signal_limits fuel w sg Hbus Hlim)
      as (w1 & tr1 & Hp & Hbus1 & Hlim1).
    destruct (IH w1 Hbus1 Hlim1) as (w' & tr & Hrun & Hlim').
    exists w', (tr1 ++ tr). split; [|done].
    cbn [map await_all run]. rewrite Hp, Hrun. done.
Qed.

End Limits.

Lemma positions_stay_within_limits_witness :
  exists w' tr,
    publish_signals unit 4 Examples.engine_bus
      [Examples.signal_08; Examples.signal_faint; Examples.signal_08_bare]
      Examples.world0 = Some (w', tr, None) /\
    within_limits (w_ledger w').
Proof.
  apply (positions_stay_within_limits unit Examples.latency_100ms
           Examples.engine_bus eq_refl eq_refl eq_refl eq_refl eq_refl
           4 _ Examples.world0 eq_refl (le_n 4)).
  intros s. reflexivity.
Defined.

End PipelineFacts.

(** ** The backtest of the engine *)

Module EngineFacts.
Import Events EventBus Pipeline Engine.

Section Engine.
Variable alpha_state : Type.
Variable alpha_score :
  string -> Blender.candle -> alpha_state -> option Q * alpha_state.
Variable latency : Z -> Z.

Lemma snapshot_wired :
  subscribers (engine_bus alpha_state alpha_score latency) "MARKET_SNAPSHOT"
  = [h_on_market_snapshot alpha_state alpha_score].
Proof. reflexivity. Qed.

(** A snapshot object without a [symbol] is heard and dropped. *)
Lemma publish_symbolless (fuel : nat) (w : world alpha_state)
      (last price volume : option Q) (ts : option Z) :
  publish_in (S fuel) (engine_bus alpha_state alpha_score latency)
             "MARKET_SNAPSHOT" (PSnapshot (SnapObj None last price volume ts))
             w
  = Some (w, [("MARKET_SNAPSHOT"%string,
               PSnapshot (SnapObj None last price volume ts))], None).
Proof.
  rewrite (PipelineClaims.publish_in_single _ _ _ _ _ _ _ snapshot_wired).
  unfold Pipeline.on_market_snapshot, Blender.on_market_snapshot.
  cbn [Blender.extract_candle].
  assert (H : forall r : reaction (Blender.state alpha_state),
             r = Reaction (w_blender w) [] Propagate None ->
             run (publish_in fuel (engine_bus alpha_state alpha_score latency))
                 (react alpha_state (set_blender alpha_state) r w)
             = Some (w, [], None)).
  { intros r ->. rewrite PipelineClaims.run_react_quiet. by destruct w. }
  rewrite H; [done|]. by destruct (negb _).
Qed.

(** X15.  The backtest of the engine trades nothing: the snapshots
    [run_backtest] publishes are classes without a [symbol] attribute, the
    blender drops each of them, and after any rows only the clock has
    moved, by 10 ms a row: no signal, order or fill is published and the
    strategies, the ledger and the simulator are as they were. *)
Theorem backtest_publishes_no_signal (fuel : nat) (rows : list row)
        (w : world alpha_state) :
  run_backtest alpha_state alpha_score latency (S fuel) rows w
  = Some (World (w_clock w + 10000 * Z.of_nat (length rows))%Z
                (w_utcoffset w) (w_router w) (w_agg w) (w_blender w) (w_ledger w) (w_exec w),
          map (fun r => ("MARKET_SNAPSHOT"%string, PSnapshot (Snapshot r)))
              rows,
          None).
Proof.
  unfold run_backtest. revert w.
  induction rows as [|r rest IH]; intros w.
  - cbn [run_backtest_rows run length map]. destruct w; simpl.
    by rewrite Z.add_0_r.
  - cbn [run_backtest_rows run]. unfold Snapshot at 1.
    rewrite publish_symbolless. rewrite IH.
    cbn [sleep w_clock w_router w_agg w_blender w_ledger w_exec length map].
    unfold Snapshot at 2.
    replace (w_clock w + 10000 + 10000 * Z.of_nat (length rest))%Z
      with (w_clock w + 10000 * Z.of_nat (S (length rest)))%Z by lia.
    reflexivity.
Qed.

End Engine.

End EngineFacts.

(** ** Candidate weights: what the normalisation returns *)

Module WeightsFacts.
Import Weights NumFacts.

Lemma qsum_scaled (c : Q) (w : list Q) :
  (qsum (map (fun x => x / c) w) == qsum w / c)%Q.
Proof.
  induction w as [|x r IH]; simpl.
  - unfold Qdiv. ring.
  - rewrite IH. unfold Qdiv. ring.
Qed.

Lemma qsum_const (c : Q) (w : list Q) :
  (qsum (map (fun _ => c) w) == inject_Z (Z.of_nat (length w)) * c)%Q.
Proof.
  induction w as [|x r IH].
  - simpl. ring.
  - cbn [map qsum foldr length]. fold (qsum (map (fun _ => c) r)).
    rewrite IH, Nat2Z.inj_succ. unfold Z.succ. rewrite inject_Z_plus. ring.
Qed.

(** X16.  The weights [_clip_and_norm] returns for a non-empty vector
    are a distribution: as many as went in, none negative, and they sum
    to 1, whether the vector had a positive entry or not. *)
Theorem clip_and_norm_is_a_distribution (w : list Q) :
  w <> [] ->
  length (clip_and_norm w) = length w /\
  Forall (fun x => (0 <= x)%Q) (clip_and_norm w) /\
  (qsum (clip_and_norm w) == 1)%Q.
Proof.
  intros Hne. unfold clip_and_norm.
  set (c := map (fun x => Qmax x 0) w).
  assert (Hc : Forall (fun x => (0 <= x)%Q) c).
  { apply Forall_map, Forall_forall. intros x _. apply Q.le_max_r. }
  assert (Hlen : length c = length w) by apply length_map.
  destruct (Qltb 0 (qsum c)) eqn:E.
  - apply Qltb_true in E. split; [by rewrite length_map|]. split.
    + apply Forall_map. eapply Forall_impl; [exact Hc|].
      intros x Hx. simpl. apply Qmult_le_0_compat; [done|].
      apply Qinv_le_0_compat. by apply Qlt_le_weak.
    + rewrite qsum_scaled. apply Qmult_inv_r.
      intros H0. rewrite H0 in E. by apply (Qlt_irrefl 0).
  - split; [by rewrite length_map|].
    assert (Hn : (0 < inject_Z (Z.of_nat (length c)))%Q).
    { rewrite Hlen. change 0%Q with (inject_Z 0). rewrite <- Zlt_Qlt.
      destruct w; [done|]. simpl. lia. }
    split.
    + apply Forall_map, Forall_forall. intros x _. simpl.
      apply Qmult_le_0_compat; [done|].
      apply Qinv_le_0_compat. by apply Qlt_le_weak.
    + rewrite qsum_const. unfold Qdiv. rewrite Qmult_1_l.
      apply Qmult_inv_r. intros H0. rewrite H0 in Hn.
      by apply (Qlt_irrefl 0).
Qed.

Lemma clip_and_norm_is_a_distribution_witness :
  (qsum (clip_and_norm [0.3; -0.2; 0.1]%Q) == 1)%Q /\
  (qsum (clip_and_norm [-1; -2]%Q) == 1)%Q.
Proof.
  split.
  - apply (clip_and_norm_is_a_distribution [0.3; -0.2; 0.1]%Q). done.
  - apply (clip_and_norm_is_a_distribution [-1; -2]%Q). done.
Defined.

End WeightsFacts.

(** ** The strategies: what a score can be *)

Module StrategyFacts.
Import NumFacts.

(** A score a strategy may return: within [-1, 1], and 0 or outside the
    deadband. *)
Definition sound_score (deadband : Q) (r : option Q) : Prop :=
  exists s : Q,
    r = Some s /\ (Qabs s <= 1)%Q /\ (s = 0%Q \/ (deadband <= Qabs s)%Q).

(** The smoothing step keeps a score within [-1, 1]. *)
Lemma smoothed_bounded (alpha raw prev : Q) :
  (0 <= alpha)%Q -> (alpha <= 1)%Q ->
  (Qabs raw <= 1)%Q -> (Qabs prev <= 1)%Q ->
  (Qabs (alpha * raw + (1 - alpha) * prev) <= 1)%Q.
Proof.
  intros Ha0 Ha1 Hr Hp.
  assert (Hb : (0 <= 1 - alpha)%Q).
  { unfold Qminus. apply (proj1 (Qle_minus_iff alpha 1)). exact Ha1. }
  eapply Qle_trans; [apply Qabs_triangle|].
  rewrite !Qabs_Qmult, (Qabs_pos alpha), (Qabs_pos (1 - alpha)) by done.
  apply Qle_trans with (alpha * 1 + (1 - alpha) * 1)%Q.
  - apply Qplus_le_compat.
    + rewrite !(Qmult_comm alpha). by apply Qmult_le_compat_r.
    + rewrite !(Qmult_comm (1 - alpha)). by apply Qmult_le_compat_r.
  - assert (H1 : (alpha * 1 + (1 - alpha) * 1 == 1)%Q) by ring.
    rewrite H1. apply Qle_refl.
Qed.

(** The deadband step. *)
Lemma deadband_sound (deadband score : Q) :
  (Qabs score <= 1)%Q ->
  sound_score deadband
              (Some (if Qltb (Qabs score) deadband then 0%Q else score)).
Proof.
  intros Hs. eexists. split; [reflexivity|].
  destruct (Qltb (Qabs score) deadband) eqn:E.
  - split; [done|by left].
  - split; [done|]. right. by apply Qltb_false.
Qed.

Section Tanh.
Variable tanh : Q -> Q.
Hypothesis tanh_bounded : forall x, (Qabs (tanh x) <= 1)%Q.

(** What [MomentumStrategy.score] keeps from call to call. *)
Definition momentum_inv (st : MomentumStrategy.state) : Prop :=
  (Qabs (MomentumStrategy.prev_score st) <= 1)%Q /\
  (is_Some (MomentumStrategy.ema_short st) ->
   is_Some (MomentumStrategy.ema_long st)) /\
  (MomentumStrategy.short_window st + 1 <> 0)%Z /\
  (MomentumStrategy.long_window st + 1 <> 0)%Z /\
  (0 <= MomentumStrategy.smooth_alpha st)%Q /\
  (MomentumStrategy.smooth_alpha st <= 1)%Q.

Lemma momentum_score_inv (st : MomentumStrategy.state) (close : Q) :
  momentum_inv st ->
  sound_score 0.10 (MomentumStrategy.score tanh st close).1 /\
  momentum_inv (MomentumStrategy.score tanh st close).2.
Proof.
  intros (Hp & Hl & Hs & Hlw & Ha0 & Ha1). unfold MomentumStrategy.score.
  destruct (MomentumStrategy.ema_short st) as [es|] eqn:Ees.
  - destruct (Hl (ltac:(by eexists))) as [el Eel]. rewrite Eel.
    rewrite (proj2 (Z.eqb_neq _ _) Hs), (proj2 (Z.eqb_neq _ _) Hlw).
    cbn [fst snd]. split.
    + apply deadband_sound. by apply smoothed_bounded.
    + split; [by apply smoothed_bounded|]. split; [by eexists|]. done.
  - cbn [fst snd]. split.
    + exists 0%Q. split; [done|]. split; [done|by left].
    + split; [done|]. split; [by eexists|]. done.
Qed.

Lemma momentum_scores_inv (closes : list Q) :
  forall st : MomentumStrategy.state,
    momentum_inv st ->
    Forall (sound_score 0.10) (MomentumStrategy.scores tanh st closes).1.
Proof.
  induction closes as [|c rest IH]; intros st Hinv; simpl; [done|].
  destruct (momentum_score_inv st c Hinv) as [Hs Hinv1].
  destruct (MomentumStrategy.score tanh st c) as [s st1].
  specialize (IH st1 Hinv1).
  destruct (MomentumStrategy.scores tanh st1 rest) as [ss st2].
  by constructor.
Qed.

(** X17.  The momentum strategy, built with windows other than -1 and a
    smoothing factor in [0, 1], scores every candle of any run without
    raising: every score is within [-1, 1] and is either 0 or at least
    0.10 in absolute value, and the first score is 0. *)
Theorem momentum_scores_are_sound (short long : Z) (alpha : Q)
        (closes : list Q) :
  (short + 1 <> 0)%Z -> (long + 1 <> 0)%Z ->
  (0 <= alpha)%Q -> (alpha <= 1)%Q ->
  let out :=
    (MomentumStrategy.scores tanh (MomentumStrategy.init short long alpha)
                             closes).1 in
  length out = length closes /\
  Forall (sound_score 0.10) out /\
  (closes <> [] -> head out = Some (Some 0%Q)).
Proof.
  intros Hs Hl Ha0 Ha1 out. subst out. split; [|split].
  - generalize (MomentumStrategy.init short long alpha).
    induction closes as [|c rest IH]; intros st; simpl; [done|].
    destruct (MomentumStrategy.score tanh st c) as [s st1].
    specialize (IH st1).
    destruct (MomentumStrategy.scores tanh st1 rest) as [ss st2].
    simpl in *. by rewrite IH.
  - apply momentum_scores_inv. unfold momentum_inv. simpl.
    split; [done|]. split; [by intros [? ?]|]. done.
  - destruct closes as [|c rest]; [done|]. intros _. simpl.
    by destruct (MomentumStrategy.scores tanh _ rest).
Qed.

(** What [MACDFibonacciStrategy.score] keeps from call to call. *)
Definition macd_inv (st : MACDFibonacciStrategy.state) : Prop :=
  (Qabs (MACDFibonacciStrategy.prev_score st) <= 1)%Q /\
  (is_Some (MACDFibonacciStrategy.ema_fast st) ->
   is_Some (MACDFibonacciStrategy.ema_slow st) /\
   is_Some (MACDFibonacciStrategy.ema_signal st)) /\
  (MACDFibonacciStrategy.fast st + 1 <> 0)%Z /\
  (MACDFibonacciStrategy.slow st + 1 <> 0)%Z /\
  (MACDFibonacciStrategy.signal st + 1 <> 0)%Z /\
  (0 <= MACDFibonacciStrategy.smooth_alpha st)%Q /\
  (MACDFibonacciStrategy.smooth_alpha st <= 1)%Q.

Lemma macd_score_inv (st : MACDFibonacciStrategy.state) (close : Q) :
  macd_inv st ->
  sound_score 0.10 (MACDFibonacciStrategy.score tanh st close).1 /\
  macd_inv (MACDFibonacciStrategy.score tanh st close).2.
Proof.
  intros (Hp & Hl & Hf & Hs & Hg & Ha0 & Ha1).
  unfold MACDFibonacciStrategy.score.
  destruct (MACDFibonacciStrategy.ema_fast st) as [ef|] eqn:Eef.
  - destruct (Hl (ltac:(by eexists))) as [[es Ees] [sg Esg]].
    rewrite Ees, Esg.
    rewrite (proj2 (Z.eqb_neq _ _) Hf), (proj2 (Z.eqb_neq _ _) Hs),
      (proj2 (Z.eqb_neq _ _) Hg).
    cbn [fst snd]. split.
    + apply deadband_sound. by apply smoothed_bounded.
    + split; [by apply smoothed_bounded|].
      split; [intros _; split; by eexists|]. done.
  - cbn [fst snd]. split.
    + exists 0%Q. split; [done|]. split; [done|by left].
    + split; [done|]. split; [intros _; split; by eexists|]. done.
Qed.

Lemma macd_scores_inv (closes : list Q) :
  forall st : MACDFibonacciStrategy.state,
    macd_inv st ->
    Forall (sound_score 0.10) (MACDFibonacciStrategy.scores tanh st closes).1.
Proof.
  induction closes as [|c rest IH]; intros st Hinv; simpl; [done|].
  destruct (macd_score_inv st c Hinv) as [Hs Hinv1].
  destruct (MACDFibonacciStrategy.score tanh st c) as [s st1].
  specialize (IH st1 Hinv1).
  destruct (MACDFibonacciStrategy.scores tanh st1 rest) as [ss st2].
  by constructor.
Qed.

(** X18.  The MACD strategy, built with periods other than -1 and a
    smoothing factor in [0, 1], scores every candle of any run without
    raising, whatever its sensitivity: every score is within [-1, 1] and is
    either 0 or at least 0.10 in absolute value, and the first score
    is 0. *)
Theorem macd_scores_are_sound (fast slow signal : Z) (sensitivity alpha : Q)
        (closes : list Q) :
  (fast + 1 <> 0)%Z -> (slow + 1 <> 0)%Z -> (signal + 1 <> 0)%Z ->
  (0 <= alpha)%Q -> (alpha <= 1)%Q ->
  let out :=
    (MACDFibonacciStrategy.scores
       tanh (MACDFibonacciStrategy.init fast slow signal sensitivity alpha)
       closes).1 in
  length out = length closes /\
  Forall (sound_score 0.10) out /\
  (closes <> [] -> head out = Some (Some 0%Q)).
Proof.
  intros Hf Hs Hg Ha0 Ha1 out. subst out. split; [|split].
  - generalize (MACDFibonacciStrategy.init fast slow signal sensitivity
                                           alpha).
    induction closes as [|c rest IH]; intros st; simpl; [done|].
    destruct (MACDFibonacciStrategy.score tanh st c) as [s st1].
    specialize (IH st1).
    destruct (MACDFibonacciStrategy.scores tanh st1 rest) as [ss st2].
    simpl in *. by rewrite IH.
  - apply macd_scores_inv. unfold macd_inv. simpl.
    split; [done|]. split; [by intros [? ?]|]. done.
  - destruct closes as [|c rest]; [done|]. intros _. simpl.
    by destruct (MACDFibonacciStrategy.scores tanh _ rest).
Qed.

End Tanh.

Section Flat.
Variable tanh : Q -> Q.
Hypothesis tanh_zero : forall x, (x == 0)%Q -> (tanh x == 0)%Q.

Lemma quiet_score (alpha raw prev : Q) :
  (raw == 0)%Q -> (prev == 0)%Q ->
  let score := (alpha * raw + (1 - alpha) * prev)%Q in
  (score == 0)%Q /\ (if Qltb (Qabs score) 0.10 then 0%Q else score) = 0%Q.
Proof.
  intros Hr Hp score.
  assert (Hs : (score == 0)%Q) by (subst score; rewrite Hr, Hp; ring).
  split; [exact Hs|].
  assert (Hlt : Qltb (Qabs score) 0.10 = true).
  { apply Qltb_true. rewrite Hs. reflexivity. }
  by rewrite Hlt.
Qed.

(** The state of a momentum strategy that has only seen the price [c]. *)
Definition momentum_flat (c : Q) (st : MomentumStrategy.state) : Prop :=
  (MomentumStrategy.prev_score st == 0)%Q /\
  (MomentumStrategy.short_window st + 1 <> 0)%Z /\
  (MomentumStrategy.long_window st + 1 <> 0)%Z /\
  match MomentumStrategy.ema_short st, MomentumStrategy.ema_long st with
  | None, _ => True
  | Some es, Some el => (es == c)%Q /\ (el == c)%Q
  | Some _, None => False
  end.

Lemma momentum_flat_step (c close : Q) (st : MomentumStrategy.state) :
  (close == c)%Q -> momentum_flat c st ->
  (MomentumStrategy.score tanh st close).1 = Some 0%Q /\
  momentum_flat c (MomentumStrategy.score tanh st close).2.
Proof.
  intros Hc (Hp & Hs & Hl & He). unfold MomentumStrategy.score.
  destruct (MomentumStrategy.ema_short st) as [es|].
  - destruct (MomentumStrategy.ema_long st) as [el|]; [|done].
    destruct He as [Hes Hel].
    rewrite (proj2 (Z.eqb_neq _ _) Hs), (proj2 (Z.eqb_neq _ _) Hl).
    cbn [fst snd].
    set (ks := (2 / inject_Z (MomentumStrategy.short_window st + 1))%Q).
    set (kl := (2 / inject_Z (MomentumStrategy.long_window st + 1))%Q).
    assert (Hes' : (es + ks * (close - es) == c)%Q)
      by (rewrite Hes, Hc; ring).
    assert (Hel' : (el + kl * (close - el) == c)%Q)
      by (rewrite Hel, Hc; ring).
    assert (Hraw :
      (tanh ((es + ks * (close - es) - (el + kl * (close - el))) * 4)
       == 0)%Q).
    { apply tanh_zero. rewrite Hes', Hel'. ring. }
    destruct (quiet_score (MomentumStrategy.smooth_alpha st) _ _ Hraw Hp)
      as [Hq Hout].
    split; [by rewrite Hout|].
    unfold momentum_flat. cbn [MomentumStrategy.prev_score
      MomentumStrategy.short_window MomentumStrategy.long_window
      MomentumStrategy.ema_short MomentumStrategy.ema_long].
    done.
  - cbn [fst snd]. split; [done|].
    unfold momentum_flat. cbn [MomentumStrategy.prev_score
      MomentumStrategy.short_window MomentumStrategy.long_window
      MomentumStrategy.ema_short MomentumStrategy.ema_long].
    done.
Qed.

(** X19.  No trend, no signal: on a run of candles that all close at one
    price, the momentum strategy scores 0 every time, whatever its
    smoothing factor. *)
Theorem momentum_flat_prices_score_zero (short long : Z) (alpha c : Q)
        (closes : list Q) :
  (short + 1 <> 0)%Z -> (long + 1 <> 0)%Z ->
  Forall (fun close => (close == c)%Q) closes ->
  Forall (fun r => r = Some 0%Q)
         (MomentumStrategy.scores
            tanh (MomentumStrategy.init short long alpha) closes).1.
Proof.
  intros Hs Hl Hflat.
  assert (Hinit : momentum_flat c (MomentumStrategy.init short long alpha)).
  { unfold momentum_flat. simpl. done. }
  revert Hinit. generalize (MomentumStrategy.init short long alpha).
  induction Hflat as [|close rest Hc _ IH]; intros st Hst; simpl; [done|].
  destruct (momentum_flat_step c close st Hc Hst) as [H0 Hst1].
  destruct (MomentumStrategy.score tanh st close) as [s st1].
  specialize (IH st1 Hst1).
  destruct (MomentumStrategy.scores tanh st1 rest) as [ss st2].
  by constructor.
Qed.

(** The state of a MACD strategy that has only seen the price [c]. *)
Definition macd_flat (c : Q) (st : MACDFibonacciStrategy.state) : Prop :=
  (MACDFibonacciStrategy.prev_score st == 0)%Q /\
  (MACDFibonacciStrategy.fast st + 1 <> 0)%Z /\
  (MACDFibonacciStrategy.slow st + 1 <> 0)%Z /\
  (MACDFibonacciStrategy.signal st + 1 <> 0)%Z /\
  match MACDFibonacciStrategy.ema_fast st, MACDFibonacciStrategy.ema_slow st,
        MACDFibonacciStrategy.ema_signal st with
  | None, _, _ => True
  | Some ef, Some es, Some sg => (ef == c)%Q /\ (es == c)%Q /\ (sg == 0)%Q
  | _, _, _ => False
  end.

Lemma macd_flat_step (c close : Q) (st : MACDFibonacciStrategy.state) :
  (close == c)%Q -> macd_flat c st ->
  (MACDFibonacciStrategy.score tanh st close).1 = Some 0%Q /\
  macd_flat c (MACDFibonacciStrategy.score tanh st close).2.
Proof.
  intros Hc (Hp & Hf & Hs & Hg & He). unfold MACDFibonacciStrategy.score.
  destruct (MACDFibonacciStrategy.ema_fast st) as [ef|].
  - destruct (MACDFibonacciStrategy.ema_slow st) as [es|]; [|done].
    destruct (MACDFibonacciStrategy.ema_signal st) as [sg|]; [|done].
    destruct He as (Hef & Hes & Hsg).
    rewrite (proj2 (Z.eqb_neq _ _) Hf), (proj2 (Z.eqb_neq _ _) Hs),
      (proj2 (Z.eqb_neq _ _) Hg).
    cbn [fst snd].
    set (kf := (2 / inject_Z (MACDFibonacciStrategy.fast st + 1))%Q).
    set (ks := (2 / inject_Z (MACDFibonacciStrategy.slow st + 1))%Q).
    set (kg := (2 / inject_Z (MACDFibonacciStrategy.signal st + 1))%Q).
    set (ef' := (ef + kf * (close - ef))%Q).
    set (es' := (es + ks * (close - es))%Q).
    set (sg' := (sg + kg * (ef' - es' - sg))%Q).
    assert (Hef' : (ef' == c)%Q) by (subst ef'; rewrite Hef, Hc; ring).
    assert (Hes' : (es' == c)%Q) by (subst es'; rewrite Hes, Hc; ring).
    assert (Hsg' : (sg' == 0)%Q)
      by (subst sg'; rewrite Hef', Hes', Hsg; ring).
    assert (Hraw :
      (tanh ((ef' - es' - sg') * MACDFibonacciStrategy.sensitivity st)
       == 0)%Q).
    { apply tanh_zero. rewrite Hef', Hes', Hsg'. ring. }
    destruct (quiet_score (MACDFibonacciStrategy.smooth_alpha st) _ _
                Hraw Hp) as [Hq Hout].
    split; [by rewrite Hout|].
    unfold macd_flat. cbn [MACDFibonacciStrategy.prev_score
      MACDFibonacciStrategy.fast MACDFibonacciStrategy.slow
      MACDFibonacciStrategy.signal MACDFibonacciStrategy.ema_fast
      MACDFibonacciStrategy.ema_slow MACDFibonacciStrategy.ema_signal].
    done.
  - cbn [fst snd]. split; [done|].
    unfold macd_flat. cbn [MACDFibonacciStrategy.prev_score
      MACDFibonacciStrategy.fast MACDFibonacciStrategy.slow
      MACDFibonacciStrategy.signal MACDFibonacciStrategy.ema_fast
      MACDFibonacciStrategy.ema_slow MACDFibonacciStrategy.ema_signal].
    done.
Qed.

(** X20.  On a run of candles that all close at one price, the MACD
    strategy scores 0 every time, whatever its sensitivity and its
    smoothing factor. *)
Theorem macd_flat_prices_score_zero (fast slow signal : Z)
        (sensitivity alpha c : Q) (closes : list Q) :
  (fast + 1 <> 0)%Z -> (slow + 1 <> 0)%Z -> (signal + 1 <> 0)%Z ->
  Forall (fun close => (close == c)%Q) closes ->
  Forall (fun r => r = Some 0%Q)
         (MACDFibonacciStrategy.scores
            tanh (MACDFibonacciStrategy.init fast slow signal sensitivity
                                             alpha) closes).1.
Proof.
  intros Hf Hs Hg Hflat.
  assert (Hinit : macd_flat c (MACDFibonacciStrategy.init fast slow signal
                                                          sensitivity alpha)).
  { unfold macd_flat. simpl. done. }
  revert Hinit.
  generalize (MACDFibonacciStrategy.init fast slow signal sensitivity alpha).
  induction Hflat as [|close rest Hc _ IH]; intros st Hst; simpl; [done|].
  destruct (macd_flat_step c close st Hc Hst) as [H0 Hst1].
  destruct (MACDFibonacciStrategy.score tanh st close) as [s st1].
  specialize (IH st1 Hst1).
  destruct (MACDFibonacciStrategy.scores tanh st1 rest) as [ss st2].
  by constructor.
Qed.

End Flat.

(** A stand-in for [np.tanh] on rationals: the identity clipped to
    [-1, 1]. *)
Definition clipped (x : Q) : Q := Qmax (-1) (Qmin 1 x).

Lemma clipped_bounded (x : Q) : (Qabs (clipped x) <= 1)%Q.
Proof.
  apply Qabs_Qle_condition. split.
  - apply Q.le_max_l.
  - apply Q.max_lub; [done|]. apply Q.le_min_l.
Qed.

Lemma momentum_scores_are_sound_witness :
  Forall (sound_score 0.10)
         (MomentumStrategy.scores clipped (MomentumStrategy.init 5 12 0.25)
                                  [100; 101; 103; 102]%Q).1.
Proof.
  apply (momentum_scores_are_sound clipped clipped_bounded 5 12 0.25
           [100; 101; 103; 102]%Q); done.
Defined.

Lemma macd_scores_are_sound_witness :
  Forall (sound_score 0.10)
         (MACDFibonacciStrategy.scores
            clipped (MACDFibonacciStrategy.init 12 26 9 4 0.25)
            [100; 101; 103; 102]%Q).1.
Proof.
  apply (macd_scores_are_sound clipped clipped_bounded 12 26 9 4 0.25
           [100; 101; 103; 102]%Q); done.
Defined.

Lemma clipped_zero (x : Q) : (x == 0)%Q -> (clipped x == 0)%Q.
Proof. intros H. unfold clipped. rewrite H. reflexivity. Qed.

Lemma momentum_flat_prices_score_zero_witness :
  Forall (fun r => r = Some 0%Q)
         (MomentumStrategy.scores clipped (MomentumStrategy.init 5 12 0.25)
                                  [100; 100; 100]%Q).1.
Proof.
  apply (momentum_flat_prices_score_zero clipped clipped_zero 5 12 0.25 100
           [100; 100; 100]%Q); [done|done|].
  repeat constructor.
Defined.

Lemma macd_flat_prices_score_zero_witness :
  Forall (fun r => r = Some 0%Q)
         (MACDFibonacciStrategy.scores
            clipped (MACDFibonacciStrategy.init 12 26 9 4 0.25)
            [100; 100; 100]%Q).1.
Proof.
  apply (macd_flat_prices_score_zero clipped clipped_zero 12 26 9 4 0.25 100
           [100; 100; 100]%Q); [done|done|done|].
  repeat constructor.
Defined.

End StrategyFacts.
